(** * OpenSuperWhisper: the service layer, embedded and verified

  A shallow embedding of the parts of the OpenSuperWhisper service layer
  that its specification makes checkable statements about:

  - [whisper/database.py]              (module [Database])
  - [whisper/audio_recorder.py]        (module [Audio])
  - [whisper/hotkeys.py]               (module [Hotkeys])
  - [whisper/transcription_service.py] (module [Transcription])
  - [whisper/config_manager.py]        (module [Config])

  Python objects become records, instance attributes become record fields
  and every method becomes a function from the state before the call to the
  state after it together with the returned value.  What the methods get
  from outside the repository (the clock, the SQLite connection, the file
  system, the speech model, the callbacks of the host) is passed in as an
  explicit argument.  What they use of Python itself is embedded next to
  them: binary64 arithmetic ([Float64]), [datetime] with its calendar and
  its ISO-8601 text ([DateTime]), the text methods ([PyStr]) and the values
  of settings dictionaries ([PyValue]).  The definitions come first, the
  lemmas follow. *)

From Stdlib Require Import ZArith List Bool Ascii String Lia.
From Stdlib Require Import Floats.SpecFloat.
From Stdlib Require Import Sorting.Sorted.
From stdpp Require Import base option list gmap strings fin_maps.
Import ListNotations.

(* ===================================================================== *)
(** ** Binary64 floating point (Python [float], NumPy [float64], SQLite REAL) *)
(* ===================================================================== *)

Module Float64.
Local Open Scope Z_scope.

Definition prec : Z := 53.
Definition emax : Z := 1024.

Definition float64 : Type := spec_float.

(** [float(z)]: the nearest binary64 value, ties to even. *)
Definition of_Z (z : Z) : float64 := binary_normalize prec emax z 0 false.

Definition add : float64 -> float64 -> float64 := SFadd prec emax.
Definition mul : float64 -> float64 -> float64 := SFmul prec emax.
Definition div : float64 -> float64 -> float64 := SFdiv prec emax.
Definition sub : float64 -> float64 -> float64 := SFsub prec emax.
Definition ltb : float64 -> float64 -> bool := SFltb.
Definition leb : float64 -> float64 -> bool := SFleb.
Definition eqb : float64 -> float64 -> bool := SFeqb.

Definition zero : float64 := S754_zero false.
Definition one : float64 := of_Z 1.
(** The literal [0.5]. *)
Definition half : float64 := div (of_Z 1) (of_Z 2).

(** Python's truth value of a float: false exactly for [0.0] and [-0.0]. *)
Definition truthy (f : float64) : bool :=
  match f with S754_zero _ => false | _ => true end.

Definition is_nan (f : float64) : bool :=
  match f with S754_nan => true | _ => false end.

(** [int(f)] and the C conversion behind [astype]: the integer part,
    rounded toward zero.  Infinities and NaN have none. *)
Definition trunc (f : float64) : option Z :=
  match f with
  | S754_zero _ => Some 0
  | S754_finite s m e =>
      let a := match e with
               | Z0 => Zpos m
               | Zpos p => Zpos m * Z.pow_pos 2 p
               | Zneg p => Zpos m / Z.pow_pos 2 p
               end in
      Some (if s then - a else a)
  | S754_infinity _ | S754_nan => None
  end.

(** [f] holds of every integer from [base * 2^bits] up to
    [(base + 1) * 2^bits], that one left out.  Facts about the floats of
    the sample values are settled by evaluating them on every value. *)
Fixpoint all_from (bits : nat) (f : Z -> bool) (base : Z) : bool :=
  match bits with
  | O => f base
  | S bits' => all_from bits' f (2 * base) && all_from bits' f (2 * base + 1)
  end.
End Float64.

(* ===================================================================== *)
(** ** Naive [datetime] values, their arithmetic and their ISO-8601 text *)
(* ===================================================================== *)

Module DateTime.
Local Open Scope Z_scope.

(** A naive [datetime.datetime] with the attributes Python gives it. *)
Record datetime : Type := mk_datetime {
  year : Z;
  month : Z;
  day : Z;
  hour : Z;
  minute : Z;
  second : Z;
  microsecond : Z
}.

Definition MINYEAR : Z := 1.
Definition MAXYEAR : Z := 9999.
Definition MAXORDINAL : Z := 3652059.

(** The calendar of the [datetime] module, by which it turns a date into
    its proleptic Gregorian ordinal (day 1 is 0001-01-01) and back. *)
Definition _is_leap (y : Z) : bool :=
  (y mod 4 =? 0) && (negb (y mod 100 =? 0) || (y mod 400 =? 0)).

Definition _days_before_year (y : Z) : Z :=
  let y' := y - 1 in y' * 365 + y' / 4 - y' / 100 + y' / 400.

Definition _DAYS_IN_MONTH (m : Z) : Z :=
  match m with
  | 1 => 31 | 2 => 28 | 3 => 31 | 4 => 30 | 5 => 31 | 6 => 30
  | 7 => 31 | 8 => 31 | 9 => 30 | 10 => 31 | 11 => 30 | 12 => 31
  | _ => -1
  end.

Definition _DAYS_BEFORE_MONTH (m : Z) : Z :=
  match m with
  | 1 => 0 | 2 => 31 | 3 => 59 | 4 => 90 | 5 => 120 | 6 => 151
  | 7 => 181 | 8 => 212 | 9 => 243 | 10 => 273 | 11 => 304 | 12 => 334
  | _ => -1
  end.

Definition _days_in_month (y m : Z) : Z :=
  if (m =? 2) && _is_leap y then 29 else _DAYS_IN_MONTH m.

Definition _days_before_month (y m : Z) : Z :=
  _DAYS_BEFORE_MONTH m + (if (2 <? m) && _is_leap y then 1 else 0).

Definition _ymd2ord (y m d : Z) : Z :=
  _days_before_year y + _days_before_month y m + d.

Definition _DI400Y : Z := 146097.
Definition _DI100Y : Z := 36524.
Definition _DI4Y : Z := 1461.

(** The end of [_ord2ymd]: month and day of the day number [n] (from 0) of
    a year, found from the estimate [(n + 50) >> 5]. *)
Definition month_and_day (n : Z) (leapyear : bool) : Z * Z :=
  let month := Z.shiftr (n + 50) 5 in
  let preceding :=
    _DAYS_BEFORE_MONTH month + (if (2 <? month) && leapyear then 1 else 0) in
  if n <? preceding then
    let month' := month - 1 in
    let preceding' :=
      preceding -
      (_DAYS_IN_MONTH month' + (if (month' =? 2) && leapyear then 1 else 0)) in
    (month', n - preceding' + 1)
  else (month, n - preceding + 1).

(** [_ord2ymd]: the ordinal split into 400-year, 100-year and 4-year
    cycles and single years. *)
Definition _ord2ymd (n : Z) : Z * Z * Z :=
  let n := n - 1 in
  let n400 := n / _DI400Y in
  let n := n mod _DI400Y in
  let n100 := n / _DI100Y in
  let n := n mod _DI100Y in
  let n4 := n / _DI4Y in
  let n := n mod _DI4Y in
  let n1 := n / 365 in
  let n := n mod 365 in
  let year := n400 * 400 + 1 + (n100 * 100 + n4 * 4 + n1) in
  if (n1 =? 4) || (n100 =? 4) then (year - 1, 12, 31)
  else
    let leapyear := (n1 =? 3) && (negb (n4 =? 24) || (n100 =? 3)) in
    let '(month, day) := month_and_day n leapyear in
    (year, month, day).

Definition valid_date (y m d : Z) : Prop :=
  MINYEAR <= y <= MAXYEAR /\ 1 <= m <= 12 /\ 1 <= d <= _days_in_month y m.

(** The values a [datetime] can hold. *)
Definition valid (d : datetime) : Prop :=
  valid_date (year d) (month d) (day d) /\
  0 <= hour d < 24 /\ 0 <= minute d < 60 /\
  0 <= second d < 60 /\ 0 <= microsecond d < 1000000.

Definition toordinal (d : datetime) : Z := _ymd2ord (year d) (month d) (day d).

Definition us_per_second : Z := 1000000.
Definition us_per_day : Z := 86400 * us_per_second.

(** Microseconds since the start of the day. *)
Definition time_us (d : datetime) : Z :=
  ((hour d * 60 + minute d) * 60 + second d) * us_per_second + microsecond d.

(** Microseconds since the start of ordinal day 0: the position of the
    instant on the time line. *)
Definition to_us (d : datetime) : Z := toordinal d * us_per_day + time_us d.

(** A [timedelta] is a whole number of microseconds. *)
Definition timedelta_max_days : Z := 999999999.

(** [timedelta(days=days, seconds=seconds)]; [OverflowError] ([None]) when
    the normalised day count leaves [-999999999, 999999999]. *)
Definition timedelta (days seconds : Z) : option Z :=
  let us := days * us_per_day + seconds * us_per_second in
  let d := us / us_per_day in
  if (- timedelta_max_days <=? d) && (d <=? timedelta_max_days)
  then Some us else None.

(** [dt - delta]: [datetime.__add__] turns the date into its ordinal,
    renormalises days, seconds and microseconds with [divmod], raises
    [OverflowError] ([None]) unless the resulting ordinal is in
    [1, MAXORDINAL], and turns that ordinal back into a date. *)
Definition sub (d : datetime) (delta : Z) : option datetime :=
  let t := to_us d - delta in
  let days := t / us_per_day in
  let rest := t mod us_per_day in
  let secs := rest / us_per_second in
  if (0 <? days) && (days <=? MAXORDINAL)
  then
    let '(y, m, dd) := _ord2ymd days in
    Some {| year := y; month := m; day := dd;
            hour := secs / 3600;
            minute := (secs mod 3600) / 60;
            second := secs mod 60;
            microsecond := rest mod us_per_second |}
  else None.

(** [dt.replace(hour=0, minute=0, second=0, microsecond=0)]. *)
Definition replace_midnight (d : datetime) : datetime :=
  {| year := year d; month := month d; day := day d;
     hour := 0; minute := 0; second := 0; microsecond := 0 |}.

(** The decimal digit [n] as a character, and [n] printed with [width]
    digits, zeros in front ([%04d], [%02d], [%06d]). *)
Definition digit (n : Z) : ascii := ascii_of_nat (48 + Z.to_nat n).

Fixpoint zero_padded (width : nat) (n : Z) : string :=
  match width with
  | O => EmptyString
  | S w => String (digit ((n / 10 ^ Z.of_nat w) mod 10)) (zero_padded w n)
  end.

(** [dt.isoformat()]: [YYYY-MM-DDTHH:MM:SS], followed by [.ffffff] when the
    microseconds are not zero.  This is the text the database stores. *)
Definition isoformat (d : datetime) : string :=
  (zero_padded 4 (year d) ++ "-" ++ zero_padded 2 (month d) ++ "-" ++
   zero_padded 2 (day d) ++ "T" ++ zero_padded 2 (hour d) ++ ":" ++
   zero_padded 2 (minute d) ++ ":" ++ zero_padded 2 (second d) ++
   (if Z.eqb (microsecond d) 0 then ""
    else "." ++ zero_padded 6 (microsecond d)))%string.

(** The order of two texts in SQLite (BINARY collation): byte by byte, a
    proper prefix first. *)
Fixpoint text_compare (s t : string) : comparison :=
  match s with
  | EmptyString =>
      match t with
      | EmptyString => Eq
      | String _ _ => Lt
      end
  | String x s' =>
      match t with
      | EmptyString => Gt
      | String y t' =>
          match Nat.compare (nat_of_ascii x) (nat_of_ascii y) with
          | Eq => text_compare s' t'
          | c => c
          end
      end
  end.

(** Lexicographic order: the first comparison decides unless it is a tie. *)
Definition lex (c : comparison) (rest : comparison) : comparison :=
  match c with Eq => rest | _ => c end.

Definition text_ltb (a b : string) : bool :=
  match text_compare a b with Lt => true | _ => false end.
Definition text_leb (a b : string) : bool :=
  match text_compare a b with Gt => false | _ => true end.

#[global] Arguments isoformat : simpl never.
#[global] Arguments text_compare : simpl never.
#[global] Arguments text_ltb : simpl never.
#[global] Arguments text_leb : simpl never.
#[global] Arguments _ymd2ord : simpl never.
#[global] Arguments _ord2ymd : simpl never.
End DateTime.

(* ===================================================================== *)
(** ** [whisper/database.py]: the recordings table *)
(* ===================================================================== *)

Module Database.
Import Float64 DateTime.
Local Open Scope Z_scope.

(** One row of the table [recordings], column by column as
    [_init_database] declares it; [Recording.to_dict] and
    [Recording.from_dict] carry the attributes of a [Recording] object to
    and from these columns one by one.  The columns declared without
    [NOT NULL] are nullable.  [timestamp] is held as the [datetime] whose
    [isoformat()] text is stored; [settings] is the JSON text. *)
Record Recording : Type := mk_Recording {
  id : string;
  timestamp : datetime;
  filename : string;
  transcription : string;
  duration : float64;
  language : option string;
  model_used : option string;
  file_size : option Z;
  settings : option string
}.

(** The table, rows in insertion order.  [id] is the primary key. *)
Definition table : Type := list Recording.

(** Whether the storage layer carries out the statements of one call or
    raises ([sqlite3.Error]: locked or unreadable file, full disk).  Every
    method catches the exception and returns its failure value. *)
Inductive storage : Type := StorageOk | StorageError.

Definition has_id (rid : string) (r : Recording) : bool :=
  bool_decide (id r = rid).

(** Truth value of an [Optional[int]] argument: [None] and [0] are false. *)
Definition truthy_int (n : option Z) : bool :=
  match n with
  | None => false
  | Some z => negb (z =? 0)
  end.

(** Truth value of an [Optional[str]] argument. *)
Definition truthy_str (s : option string) : bool :=
  match s with
  | None => false
  | Some t => negb (bool_decide (t = EmptyString))
  end.

(** What [sqlite3] binds to a parameter as an INTEGER: a Python [int] of
    64 bits; any other raises [OverflowError] before the statement runs. *)
Definition int64 (z : Z) : bool := (- 2 ^ 63 <=? z) && (z <? 2 ^ 63).

Definition bindable (r : Recording) : bool :=
  match file_size r with
  | Some z => int64 z
  | None => true
  end.

(** A REAL column does not keep the sign of zero: [-0.0] is read back as
    [0.0]; every other value is read back as it was bound. *)
Definition stored_real (f : float64) : float64 :=
  match f with
  | S754_zero _ => zero
  | _ => f
  end.

(** The [Recording] that [from_dict] makes of the row that holds the
    columns of [to_dict]. *)
Definition stored_row (r : Recording) : Recording :=
  {| id := id r;
     timestamp := timestamp r;
     filename := filename r;
     transcription := transcription r;
     duration := stored_real (duration r);
     language := language r;
     model_used := model_used r;
     file_size := file_size r;
     settings := settings r |}.

(** [INSERT INTO recordings ...]: a file size beyond 64 bits cannot be
    bound; a NaN is bound as [NULL], which [duration REAL NOT NULL]
    refuses, as the primary key refuses an id already stored.  The method
    catches each and returns [False]. *)
Definition add_recording (st : storage) (db : table) (r : Recording)
  : table * bool :=
  match st with
  | StorageError => (db, false)
  | StorageOk =>
      if negb (bindable r) then (db, false)             (* OverflowError *)
      else if is_nan (duration r) then (db, false)      (* IntegrityError *)
      else if existsb (has_id (id r)) db then (db, false)   (* IntegrityError *)
      else (db ++ [stored_row r], true)
  end.

Definition get_recording (st : storage) (db : table) (recording_id : string)
  : option Recording :=
  match st with
  | StorageError => None
  | StorageOk => List.find (has_id recording_id) db
  end.

(** [ORDER BY timestamp DESC], on the stored text.  SQLite reads the rows
    backwards through the index on [timestamp]: of rows with equal
    timestamps the one inserted last comes first. *)
Fixpoint insert_desc (r : Recording) (rows : list Recording) : list Recording :=
  match rows with
  | [] => [r]
  | x :: rows' =>
      if text_ltb (isoformat (timestamp x)) (isoformat (timestamp r))
      then r :: x :: rows'
      else x :: insert_desc r rows'
  end.

Definition order_by_timestamp_desc (rows : list Recording) : list Recording :=
  List.fold_right insert_desc [] rows.

(** The same order from the sorter, which SQLite uses on rows it has read
    through another index: rows with equal timestamps stay in the order
    they were read in, the order of insertion. *)
Fixpoint insert_sorted (r : Recording) (rows : list Recording) : list Recording :=
  match rows with
  | [] => [r]
  | x :: rows' =>
      if text_ltb (isoformat (timestamp r)) (isoformat (timestamp x))
      then x :: insert_sorted r rows'
      else r :: x :: rows'
  end.

Definition sort_by_timestamp_desc (rows : list Recording) : list Recording :=
  List.fold_right insert_sorted [] rows.

(** [LIMIT limit OFFSET offset]: a negative limit is no limit, a negative
    offset is offset 0.  A limit or an offset beyond 64 bits cannot be bound:
    the [OverflowError] is caught and the method returns the empty list. *)
Definition sql_limit (limit offset : Z) (rows : list Recording) : list Recording :=
  if int64 limit && int64 offset then
    let rest := List.skipn (Z.to_nat offset) rows in
    if limit <? 0 then rest else List.firstn (Z.to_nat limit) rest
  else [].

Definition get_all_recordings (st : storage) (db : table)
    (limit : option Z) (offset : Z) : list Recording :=
  match st with
  | StorageError => []
  | StorageOk =>
      let rows := order_by_timestamp_desc db in
      match limit with
      | Some l => if truthy_int limit then sql_limit l offset rows else rows
      | None => rows
      end
  end.

(** SQLite's [LIKE]: [%] matches any run of characters, [_] any one
    character, every other character itself, upper and lower case ASCII
    letters being equal. *)
Definition sql_upper (c : ascii) : ascii :=
  let n := nat_of_ascii c in
  if (Nat.leb 97 n && Nat.leb n 122)%bool then ascii_of_nat (n - 32)%nat else c.

Fixpoint like_chars (p s : list ascii) {struct p} : bool :=
  match p with
  | [] => match s with [] => true | _ :: _ => false end
  | c :: p' =>
      if Ascii.eqb c "%"%char then
        (fix any (s : list ascii) : bool :=
           like_chars p' s ||
           match s with [] => false | _ :: s' => any s' end) s
      else
        match s with
        | [] => false
        | d :: s' =>
            (Ascii.eqb c "_"%char || Ascii.eqb (sql_upper c) (sql_upper d))
            && like_chars p' s'
        end
  end.

(** SQLite reads the pattern and the text as C strings: each ends at its
    first NUL character. *)
Fixpoint c_string (s : list ascii) : list ascii :=
  match s with
  | [] => []
  | c :: s' => if Ascii.eqb c "000"%char then [] else c :: c_string s'
  end.

(** The longest pattern [LIKE] takes (SQLITE_MAX_LIKE_PATTERN_LENGTH). *)
Definition MAX_LIKE_PATTERN_LENGTH : Z := 50000.

(** [text LIKE pattern].  A pattern of more bytes than
    [MAX_LIKE_PATTERN_LENGTH] raises [OperationalError] at the first row it
    is tried on, and [search_recordings] returns the empty list: with such a
    pattern no row is a match. *)
Definition like (pattern text : string) : bool :=
  if MAX_LIKE_PATTERN_LENGTH <? Z.of_nat (String.length pattern) then false
  else like_chars (c_string (list_ascii_of_string pattern))
                  (c_string (list_ascii_of_string text)).

(** The [WHERE] clause [search_recordings] assembles. *)
Definition search_where (query : string) (lang : option string)
    (date_from date_to : option datetime) (r : Recording) : bool :=
  like ("%" ++ query ++ "%")%string (transcription r)
  && (if truthy_str lang
      then bool_decide (language r = lang)      (* NULL = ? is not true *)
      else true)
  && match date_from with
     | Some d => text_leb (isoformat d) (isoformat (timestamp r))
     | None => true
     end
  && match date_to with
     | Some d => text_leb (isoformat (timestamp r)) (isoformat d)
     | None => true
     end.

(** With a language the rows are found through the index on [language]
    and sorted; without one they are read backwards through the index on
    [timestamp]. *)
Definition search_order (lang : option string) (rows : list Recording)
  : list Recording :=
  if truthy_str lang then sort_by_timestamp_desc rows
  else order_by_timestamp_desc rows.

Definition search_recordings (st : storage) (db : table) (query : string)
    (lang : option string) (date_from date_to : option datetime)
    (limit : option Z) : list Recording :=
  match st with
  | StorageError => []
  | StorageOk =>
      let rows :=
        search_order lang
          (List.filter (search_where query lang date_from date_to) db) in
      match limit with
      | Some l => if truthy_int limit then sql_limit l 0 rows else rows
      | None => rows
      end
  end.

(** [UPDATE recordings SET ... WHERE id = ?]: the row with that id, if
    any, gets the new column values.  The method returns [True] once the
    statement has run.  A NaN duration is bound as [NULL]: a row that would
    take it is refused by [duration REAL NOT NULL], the table stays as it
    was and the method returns [False]; with no such row nothing is
    refused.  The file size is taken to be one that can be bound. *)
Definition update_row (r x : Recording) : Recording :=
  if has_id (id r) x then stored_row r else x.

Definition update_recording (st : storage) (db : table) (r : Recording)
  : table * bool :=
  match st with
  | StorageError => (db, false)
  | StorageOk =>
      if is_nan (duration r) && existsb (has_id (id r)) db
      then (db, false)                                  (* IntegrityError *)
      else (List.map (update_row r) db, true)
  end.

(** [DELETE FROM recordings WHERE id = ?]; [cursor.rowcount > 0]. *)
Definition delete_recording (st : storage) (db : table) (recording_id : string)
  : table * bool :=
  match st with
  | StorageError => (db, false)
  | StorageOk =>
      let rowcount := Z.of_nat (length (List.filter (has_id recording_id) db)) in
      (List.filter (fun r => negb (has_id recording_id r)) db, 0 <? rowcount)
  end.

Definition delete_all_recordings (st : storage) (db : table) : table * bool :=
  match st with
  | StorageError => (db, false)
  | StorageOk => ([], true)
  end.

(** The dictionary [get_statistics] returns. *)
Record statistics : Type := mk_statistics {
  total_recordings : Z;
  total_duration : float64;
  total_file_size : Z;
  avg_duration : float64;
  oldest_recording : option string;
  newest_recording : option string;
  languages : gmap string Z;
  models : gmap string Z
}.

(** A REAL result that is NaN comes back from SQLite as [NULL]. *)
Definition sql_real (f : float64) : option float64 :=
  if is_nan f then None else Some f.

(** [SUM(duration)]: [NULL] over no rows, else the durations added up in
    row order; the sum of an infinity and its opposite is NaN.  The plain
    sum is that of SQLite 3.40; later releases carry a correction term
    along, which changes nothing where the plain sum is exact. *)
Definition sum_duration (db : table) : option float64 :=
  match db with
  | [] => None
  | _ :: _ => sql_real (List.fold_left (fun acc r => add acc (duration r)) db zero)
  end.

(** [AVG(duration)]: the sum over the number of rows. *)
Definition avg_of_duration (db : table) : option float64 :=
  match db with
  | [] => None
  | _ :: _ =>
      sql_real (div (List.fold_left (fun acc r => add acc (duration r)) db zero)
                    (of_Z (Z.of_nat (length db))))
  end.

(** The INTEGER sum is kept in 64 bits, row by row; [None] when it leaves
    them at some row (SQLite then raises "integer overflow"). *)
Fixpoint add_int64 (acc : Z) (sizes : list Z) : option Z :=
  match sizes with
  | [] => Some acc
  | z :: sizes' => if int64 (acc + z) then add_int64 (acc + z) sizes' else None
  end.

(** [SUM(file_size)] skips [NULL]s and is [NULL] when nothing is left:
    [Some None] is that [NULL], [None] the overflow. *)
Definition sum_file_size (db : table) : option (option Z) :=
  match omap file_size db with
  | [] => Some None
  | sizes => option_map Some (add_int64 0 sizes)
  end.

(** [MIN(timestamp)] and [MAX(timestamp)] on the stored text. *)
Definition text_min (a b : string) : string := if text_ltb b a then b else a.
Definition text_max (a b : string) : string := if text_ltb a b then b else a.

Definition min_timestamp (db : table) : option string :=
  match db with
  | [] => None
  | r :: rest =>
      Some (List.fold_left (fun m x => text_min m (isoformat (timestamp x)))
              rest (isoformat (timestamp r)))
  end.

Definition max_timestamp (db : table) : option string :=
  match db with
  | [] => None
  | r :: rest =>
      Some (List.fold_left (fun m x => text_max m (isoformat (timestamp x)))
              rest (isoformat (timestamp r)))
  end.

(** [SELECT col, COUNT( * ) ... WHERE col IS NOT NULL AND col != ''
    GROUP BY col], read into a dictionary with [dict(cursor.fetchall())]. *)
Definition group_key (col : Recording -> option string) (r : Recording)
  : option string :=
  match col r with
  | Some k => if bool_decide (k = EmptyString) then None else Some k
  | None => None
  end.

Definition count_group (col : Recording -> option string) (r : Recording)
    (m : gmap string Z) : gmap string Z :=
  match group_key col r with
  | Some k => <[k := 1 + default 0 (m !! k)]> m
  | None => m
  end.

Definition group_count (col : Recording -> option string) (db : table)
  : gmap string Z :=
  List.fold_right (count_group col) ∅ db.

(** [row[i] or 0.0] on a REAL column. *)
Definition or_zero (x : option float64) : float64 :=
  match x with
  | Some f => if truthy f then f else zero
  | None => zero
  end.

(** [get_statistics]; [None] is the empty dictionary of the [except]
    branch, which the overflow of [SUM(file_size)] reaches as well. *)
Definition get_statistics (st : storage) (db : table) : option statistics :=
  match st with
  | StorageError => None
  | StorageOk =>
      match sum_file_size db with
      | None => None
      | Some size =>
          Some {| total_recordings := Z.of_nat (length db);
                  total_duration := or_zero (sum_duration db);
                  total_file_size := default 0 size;
                  avg_duration := or_zero (avg_of_duration db);
                  oldest_recording := min_timestamp db;
                  newest_recording := max_timestamp db;
                  languages := group_count language db;
                  models := group_count model_used db |}
      end
  end.

(** The cut-off of [cleanup_old_recordings]:
    [now.replace(hour=0, minute=0, second=0, microsecond=0)
     - timedelta(days=days)]. *)
Definition cutoff_date (now : datetime) (days : Z) : option datetime :=
  match timedelta days 0 with
  | Some delta => sub (replace_midnight now) delta
  | None => None
  end.

(** [DELETE FROM recordings WHERE timestamp < ?] with the cut-off's text;
    returns [cursor.rowcount], and [0] from the [except] branch. *)
Definition older_than (cutoff : datetime) (r : Recording) : bool :=
  text_ltb (isoformat (timestamp r)) (isoformat cutoff).

Definition cleanup_old_recordings (st : storage) (db : table)
    (now : datetime) (days : Z) : table * Z :=
  match cutoff_date now days with
  | None => (db, 0)
  | Some cutoff =>
      match st with
      | StorageError => (db, 0)
      | StorageOk =>
          (List.filter (fun r => negb (older_than cutoff r)) db,
           Z.of_nat (length (List.filter (older_than cutoff) db)))
      end
  end.

(** How many rows hold [k] in the column [col]. *)
Definition count_rows (col : Recording -> option string) (k : string) (db : table) : Z :=
  Z.of_nat (length (List.filter (fun r => bool_decide (col r = Some k)) db)).

(** Every stored timestamp is a well-formed [datetime]. *)
Definition timestamps_valid (db : table) : Prop :=
  forall r, In r db -> valid (timestamp r).

(** The order of a listing: a row is not older than a row after it. *)
Definition newest_first (a b : Recording) : Prop :=
  to_us (timestamp b) <= to_us (timestamp a).
End Database.

(* ===================================================================== *)
(** ** [whisper/audio_recorder.py]: capture, conversion and the WAV file *)
(* ===================================================================== *)

Module Audio.
Import Float64.
Local Open Scope Z_scope.

Definition SAMPLE_RATE : Z := 16000.
Definition CHANNELS : Z := 1.
Definition CHUNK_SIZE : Z := 1024.

(** [AUDIO_BACKEND]; the constructor raises when there is none. *)
Inductive backend : Type := SoundDevice | PyAudio.

(** What a callback of the host does when it is called. *)
Inductive callback : Type := Returns | Raises.

(** The attributes of an [AudioRecorder] that recording reads and writes.
    Samples are [int16] values; [_audio_stream] and [_recording_thread] say
    whether the attribute holds an object. *)
Record AudioRecorder : Type := mk_AudioRecorder {
  is_recording : bool;
  current_recording_path : option string;
  _audio_stream : bool;
  _recording_thread : bool;
  _audio_data : list Z;
  _working_channels : Z;
  _working_rate : Z;
  on_recording_stop : option callback
}.

(** The value an [int16] holds after a C conversion of [z]. *)
Definition wrap16 (z : Z) : Z := (z + 32768) mod 65536 - 32768.

(** [float -> int16] of [astype(np.int16)]: toward zero. *)
Definition astype_int16 (f : float64) : Z :=
  match trunc f with
  | Some z => wrap16 z
  | None => -32768
  end.

(** [chunk.reshape(-1, 2).mean(axis=1).astype(np.int16)]: the two
    channels of every frame are averaged.  The sum of two [int16] and its
    half are exact in binary64, and the conversion back drops the fraction
    toward zero; [reshape] raises ([None]) on an odd number of samples. *)
Fixpoint stereo_to_mono (chunk : list Z) : option (list Z) :=
  match chunk with
  | [] => Some []
  | [_] => None
  | l :: r :: rest =>
      match stereo_to_mono rest with
      | Some mono => Some (Z.quot (l + r) 2 :: mono)
      | None => None
      end
  end.

(** [ratio = self.SAMPLE_RATE / self._working_rate]; [None] is the
    [ZeroDivisionError]. *)
Definition resample_ratio (working_rate : Z) : option float64 :=
  if working_rate =? 0 then None
  else Some (div (of_Z SAMPLE_RATE) (of_Z working_rate)).

(** [new_length = int(len(audio_chunk) * ratio)]. *)
Definition new_length (len : nat) (ratio : float64) : option Z :=
  trunc (mul (of_Z (Z.of_nat len)) ratio).

(** [np.linspace(0, stop, num)] as NumPy computes it: [i * step] with
    [step = stop / (num - 1)], the last position set to [stop] itself. *)
Definition linspace_at (stop : Z) (num : nat) (i : nat) : float64 :=
  match num with
  | O => zero
  | S O => mul (of_Z (Z.of_nat i)) (of_Z stop)
  | S (S _ as d) =>
      if Nat.eqb i d then of_Z stop
      else
        let step := div (of_Z stop) (of_Z (Z.of_nat d)) in
        if eqb step zero
        then mul (div (of_Z (Z.of_nat i)) (of_Z (Z.of_nat d))) (of_Z stop)
        else mul (of_Z (Z.of_nat i)) step
  end.

Definition linspace (stop : Z) (num : nat) : list float64 :=
  List.map (linspace_at stop num) (List.seq 0 num).

(** [np.interp(x, np.arange(len(fp)), fp)] at one position [x >= 0]: the
    sample at [x] when [x] is a whole number or lies at or past the last
    index, else the point at [x] on the line through the two neighbouring
    samples, [slope * (x - j) + fp[j]]. *)
Definition interp_at (fp : list Z) (x : float64) : float64 :=
  match trunc x with
  | None => x
  | Some j =>
      let n := Z.of_nat (length fp) in
      if j <? 0 then of_Z (List.nth 0 fp 0)
      else if n - 1 <=? j then of_Z (List.nth (Z.to_nat (n - 1)) fp 0)
      else if eqb x (of_Z j) then of_Z (List.nth (Z.to_nat j) fp 0)
      else
        let lo := of_Z (List.nth (Z.to_nat j) fp 0) in
        let hi := of_Z (List.nth (Z.to_nat (j + 1)) fp 0) in
        let slope := div (sub hi lo) (sub (of_Z (j + 1)) (of_Z j)) in
        add (mul slope (sub x (of_Z j))) lo
  end.

(** The resampling of one chunk to [num] samples. *)
Definition resample (chunk : list Z) (num : nat) : list Z :=
  List.map (fun x => astype_int16 (interp_at chunk x))
    (linspace (Z.of_nat (length chunk) - 1) num).

(** The conversion of one captured chunk in the loop of
    [_start_pyaudio_recording]; [None] when a step raises, which ends the
    loop. *)
Definition mix_down (working_channels : Z) (chunk : list Z) : option (list Z) :=
  if (working_channels =? 2) && (CHANNELS =? 1)
  then stereo_to_mono chunk else Some chunk.

Definition convert_chunk (working_channels working_rate : Z) (chunk : list Z)
  : option (list Z) :=
  match mix_down working_channels chunk with
  | None => None
  | Some mono =>
      if working_rate =? SAMPLE_RATE then Some mono
      else
        match resample_ratio working_rate with
        | None => None
        | Some ratio =>
            match new_length (length mono) ratio with
            | None => None
            | Some n =>
                if 0 <? n then Some (resample mono (Z.to_nat n))
                else Some mono
            end
        end
  end.

(** The length the specification words give the resampled chunk:
    [round(len * target_rate / negotiated_rate)], the nearest whole number,
    a tie going to the even one as Python's [round] does. *)
Definition rounded_length (len negotiated_rate : Z) : Z :=
  let q := (len * SAMPLE_RATE) / negotiated_rate in
  let r := (len * SAMPLE_RATE) mod negotiated_rate in
  match 2 * r ?= negotiated_rate with
  | Lt => q
  | Gt => q + 1
  | Eq => if Z.even q then q else q + 1
  end.

(** One turn of the loop: the converted chunk is appended to the buffer. *)
Definition record_chunk (rec : AudioRecorder) (chunk : list Z)
  : option AudioRecorder :=
  match convert_chunk (_working_channels rec) (_working_rate rec) chunk with
  | None => None
  | Some samples =>
      Some {| is_recording := is_recording rec;
              current_recording_path := current_recording_path rec;
              _audio_stream := _audio_stream rec;
              _recording_thread := _recording_thread rec;
              _audio_data := _audio_data rec ++ samples;
              _working_channels := _working_channels rec;
              _working_rate := _working_rate rec;
              on_recording_stop := on_recording_stop rec |}
  end.

(** *** The WAV file *)

(** Files are byte strings, a byte being a number below 256. *)
Definition le16 (z : Z) : list Z := [z mod 256; (z / 256) mod 256].
Definition le32 (z : Z) : list Z :=
  [z mod 256; (z / 256) mod 256; (z / 65536) mod 256; (z / 16777216) mod 256].

Definition bytes_of_string (s : string) : list Z :=
  List.map (fun c => Z.of_nat (nat_of_ascii c)) (list_ascii_of_string s).

(** [np.array(self._audio_data, dtype=np.int16).tobytes()]: two bytes per
    sample, two's complement, low byte first. *)
Definition tobytes (samples : list Z) : list Z :=
  List.concat (List.map (fun s => le16 (s mod 65536)) samples).

(** The RIFF header the [wave] module writes in front of the frames. *)
Definition wav_header (nchannels sampwidth framerate datalength : Z) : list Z :=
  bytes_of_string "RIFF" ++ le32 (36 + datalength) ++ bytes_of_string "WAVE" ++
  bytes_of_string "fmt " ++ le32 16 ++ le16 1 ++ le16 nchannels ++
  le32 framerate ++ le32 (nchannels * framerate * sampwidth) ++
  le16 (nchannels * sampwidth) ++ le16 (sampwidth * 8) ++
  bytes_of_string "data" ++ le32 datalength.

(** The file [_save_audio_data] writes: [setnchannels(CHANNELS)],
    [setsampwidth(2)], [setframerate(SAMPLE_RATE)], [writeframes]. *)
Definition wav_file (samples : list Z) : list Z :=
  let frames := tobytes samples in
  wav_header CHANNELS 2 SAMPLE_RATE (Z.of_nat (length frames)) ++ frames.

(** The PCM data of a file written by [wav_file]: what follows the header. *)
Definition pcm_data (file : list Z) : list Z := List.skipn 44 file.

(** The file system: the bytes stored under every path that exists. *)
Definition files : Type := gmap string (list Z).

(** What the world outside does during one [stop_recording]: whether
    stopping the stream and writing the file go through or raise. *)
Record environment : Type := mk_environment {
  audio_backend : backend;
  stream_stop : callback;
  file_write : callback
}.

(** [duration = len(self._audio_data) / self.SAMPLE_RATE] and the test
    [duration < 0.5]. *)
Definition recorded_duration (samples : list Z) : float64 :=
  div (of_Z (Z.of_nat (length samples))) (of_Z SAMPLE_RATE).

Definition too_short (samples : list Z) : bool :=
  ltb (recorded_duration samples) half.

(** [_save_audio_data]: nothing without samples or without a path, else
    the WAV file is written under the path; [None] when writing raises. *)
Definition _save_audio_data (env : environment) (fs : files) (rec : AudioRecorder)
  : option files :=
  match _audio_data rec, current_recording_path rec with
  | [], _ => Some fs
  | _ :: _, None => Some fs
  | _ :: _, Some path =>
      match file_write env with
      | Raises => None
      | Returns => Some (<[path := wav_file (_audio_data rec)]> fs)
      end
  end.

(** The recorder after [self.is_recording = False] and the shutdown of the
    capture: the stream is closed and dropped under [sounddevice], the
    thread is joined and dropped under [pyaudio]. *)
Definition stopped (env : environment) (rec : AudioRecorder) : AudioRecorder :=
  {| is_recording := false;
     current_recording_path := current_recording_path rec;
     _audio_stream :=
       match audio_backend env with
       | SoundDevice => false
       | PyAudio => _audio_stream rec
       end;
     _recording_thread :=
       match audio_backend env with
       | SoundDevice => _recording_thread rec
       | PyAudio => false
       end;
     _audio_data := _audio_data rec;
     _working_channels := _working_channels rec;
     _working_rate := _working_rate rec;
     on_recording_stop := on_recording_stop rec |}.

(** The recorder when stopping the stream raised: only the flag is down. *)
Definition stop_failed (rec : AudioRecorder) : AudioRecorder :=
  {| is_recording := false;
     current_recording_path := current_recording_path rec;
     _audio_stream := _audio_stream rec;
     _recording_thread := _recording_thread rec;
     _audio_data := _audio_data rec;
     _working_channels := _working_channels rec;
     _working_rate := _working_rate rec;
     on_recording_stop := on_recording_stop rec |}.

Definition clear_path (rec : AudioRecorder) : AudioRecorder :=
  {| is_recording := is_recording rec;
     current_recording_path := None;
     _audio_stream := _audio_stream rec;
     _recording_thread := _recording_thread rec;
     _audio_data := _audio_data rec;
     _working_channels := _working_channels rec;
     _working_rate := _working_rate rec;
     on_recording_stop := on_recording_stop rec |}.

(** [stop_recording]: the recorder and the file system afterwards, and the
    returned path ([None] is Python's [None]). *)
Definition stop_recording (env : environment) (fs : files) (rec : AudioRecorder)
  : AudioRecorder * files * option string :=
  if negb (is_recording rec) then (rec, fs, None)
  else
    match audio_backend env, _audio_stream rec, stream_stop env with
    | SoundDevice, true, Raises => (stop_failed rec, fs, None)
    | _, _, _ =>
        let rec1 := stopped env rec in
        match _audio_data rec1 with
        | [] => (rec1, fs, None)
        | _ :: _ =>
            if too_short (_audio_data rec1) then (rec1, fs, None)
            else
              match _save_audio_data env fs rec1 with
              | None => (rec1, fs, None)
              | Some fs' =>
                  match on_recording_stop rec1 with
                  | Some Raises => (rec1, fs', None)
                  | _ => (clear_path rec1, fs', current_recording_path rec1)
                  end
              end
        end
    end.

(** [np.frombuffer(data, dtype=np.int16)]: every two bytes, low byte
    first, are one sample in two's complement; a buffer of odd size raises
    ([None]). *)
Fixpoint frombuffer (data : list Z) : option (list Z) :=
  match data with
  | [] => Some []
  | [_] => None
  | low :: high :: rest =>
      match frombuffer rest with
      | Some samples => Some (wrap16 (low + 256 * high) :: samples)
      | None => None
      end
  end.

(** A sample an [int16] can hold. *)
Definition int16 (z : Z) : Prop := -32768 <= z < 32768.

(** The recorder with the attributes a running capture changes. *)
Definition with_capture (rec : AudioRecorder) (recording : bool)
    (path : option string) (stream thread : bool) (data : list Z)
  : AudioRecorder :=
  {| is_recording := recording;
     current_recording_path := path;
     _audio_stream := stream;
     _recording_thread := thread;
     _audio_data := data;
     _working_channels := _working_channels rec;
     _working_rate := _working_rate rec;
     on_recording_stop := on_recording_stop rec |}.

(** *** The capture thread of the PyAudio backend *)

(** What PyAudio tells about a device: [maxInputChannels] and
    [defaultSampleRate], if the dictionary has it. *)
Record device_info : Type := mk_device_info {
  maxInputChannels : Z;
  defaultSampleRate : option Z
}.

(** The audio interface during one run of the thread: the device
    information ([None]: the call raises), whether a stream opens for a
    number of channels, a rate and a device, and what [stream.read]
    returns turn by turn ([None]: it raises). *)
Record pyaudio_world : Type := mk_pyaudio_world {
  get_device_info_by_index : Z -> option device_info;
  stream_opens : Z -> Z -> option Z -> bool;
  stream_reads : list (option (list Z))
}.

(** The local variables of [recording_thread] that are read before the
    loop.  Both names are assigned in the body of the nested function,
    [device_index = None] in the fall-back of the device test and
    [device_info = ...] in the test itself, and there is no [nonlocal]:
    Python makes both local to [recording_thread], so the argument
    [device_index] of [_start_pyaudio_recording] is not visible in it, and
    a local has no value until it has been assigned. *)
Record frame : Type := mk_frame {
  local_device_index : option (option Z);
  local_device_info : option device_info
}.

(** The frame when the thread starts: [recording_thread] has no
    parameters, so nothing is bound. *)
Definition entry_frame : frame :=
  {| local_device_index := None; local_device_info := None |}.

Inductive raised : Type :=
| UnboundLocalError
| AllConfigurationsFailed.

(** The [while self.is_recording] loop, one turn per read: the bytes are
    turned into samples, converted and appended; an exception in a turn is
    printed and ends the loop. *)
Fixpoint capture (rec : AudioRecorder) (reads : list (option (list Z)))
  : AudioRecorder :=
  match reads with
  | [] => rec
  | None :: _ => rec
  | Some data :: rest =>
      match frombuffer data with
      | None => rec
      | Some audio_chunk =>
          match record_chunk rec audio_chunk with
          | None => rec
          | Some rec' => capture rec' rest
          end
      end
  end.

(** The four stream configurations, by channels and rate. *)
Definition stream_configs (info : device_info) : list (Z * Z) :=
  let native := default SAMPLE_RATE (defaultSampleRate info) in
  [ (CHANNELS, SAMPLE_RATE); (CHANNELS, native); (1, SAMPLE_RATE); (1, native) ].

(** The [try] block of [recording_thread] from a given frame: the device
    test, the configurations, the first stream that opens, the loop. *)
Definition thread_body (w : pyaudio_world) (fr : frame) (rec : AudioRecorder)
  : raised + AudioRecorder :=
  match local_device_index fr with            (* if device_index is not None *)
  | None => inl UnboundLocalError
  | Some device_index =>
      let fr1 :=
        match device_index with
        | None => fr
        | Some i =>
            match get_device_info_by_index w i with
            | None =>
                {| local_device_index := Some None;
                   local_device_info := local_device_info fr |}
            | Some info =>
                {| local_device_index :=
                     Some (if maxInputChannels info =? 0 then None else Some i);
                   local_device_info := Some info |}
            end
        end in
      match local_device_info fr1 with        (* device_info.get(...) *)
      | None => inl UnboundLocalError
      | Some info =>
          match List.find
                  (fun config : Z * Z =>
                     stream_opens w config.1 config.2
                       (default None (local_device_index fr1)))
                  (stream_configs info) with
          | None => inl AllConfigurationsFailed
          | Some (channels, rate) =>
              inr (capture
                     {| is_recording := is_recording rec;
                        current_recording_path := current_recording_path rec;
                        _audio_stream := true;
                        _recording_thread := _recording_thread rec;
                        _audio_data := _audio_data rec;
                        _working_channels := channels;
                        _working_rate := rate;
                        on_recording_stop := on_recording_stop rec |}
                     (stream_reads w))
          end
      end
  end.

Definition drop_stream (rec : AudioRecorder) (recording : bool) : AudioRecorder :=
  {| is_recording := recording;
     current_recording_path := current_recording_path rec;
     _audio_stream := false;
     _recording_thread := _recording_thread rec;
     _audio_data := _audio_data rec;
     _working_channels := _working_channels rec;
     _working_rate := _working_rate rec;
     on_recording_stop := on_recording_stop rec |}.

(** [recording_thread], run to its end: an exception of the [try] block
    takes [is_recording] down, and the [finally] block drops the stream. *)
Definition recording_thread (w : pyaudio_world) (rec : AudioRecorder)
  : AudioRecorder :=
  match thread_body w entry_frame rec with
  | inl _ => drop_stream rec false
  | inr rec' => drop_stream rec' (is_recording rec')
  end.

(** *** Starting and cancelling *)

(** What opening the sounddevice stream does. *)
Inductive stream_outcome : Type :=
| StreamStarts
| InputStreamRaises      (* [sd.InputStream(...)] *)
| StreamStartRaises.     (* [self._audio_stream.start()] *)

(** The world around one [start_recording]: the path made from the
    clock, the sounddevice stream, whether the thread starts, whether the
    module sounddevice is loaded, and the start callback of the host. *)
Record start_world : Type := mk_start_world {
  temp_path : string;
  sounddevice_stream : stream_outcome;
  thread_start : callback;
  sounddevice_loaded : bool;
  on_recording_start : option callback
}.

(** [_start_sounddevice_recording]: the recorder afterwards and whether
    the call returned. *)
Definition _start_sounddevice_recording (sw : start_world) (rec : AudioRecorder)
  : AudioRecorder * bool :=
  match sounddevice_stream sw with
  | StreamStarts =>
      (with_capture rec (is_recording rec) (current_recording_path rec) true
         (_recording_thread rec) (_audio_data rec), true)
  | InputStreamRaises => (rec, false)
  | StreamStartRaises =>
      (with_capture rec (is_recording rec) (current_recording_path rec) true
         (_recording_thread rec) (_audio_data rec), false)
  end.

(** [_start_pyaudio_recording]: the thread object is kept and started. *)
Definition _start_pyaudio_recording (sw : start_world) (rec : AudioRecorder)
  : AudioRecorder * bool :=
  (with_capture rec (is_recording rec) (current_recording_path rec)
     (_audio_stream rec) true (_audio_data rec),
   match thread_start sw with Returns => true | Raises => false end).

(** [start_recording].  [concurrent] is what other threads do to the
    recorder between the start of the capture and the statement
    [self.is_recording = True]. *)
Definition start_recording (env : environment) (sw : start_world)
    (concurrent : AudioRecorder -> AudioRecorder) (rec : AudioRecorder)
  : AudioRecorder * bool :=
  if is_recording rec then (rec, false)
  else
    let rec1 :=
      with_capture rec (is_recording rec) (Some (temp_path sw))
        (_audio_stream rec) (_recording_thread rec) [] in
    let '(rec2, recording_started) :=
      match audio_backend env with
      | SoundDevice => _start_sounddevice_recording sw rec1
      | PyAudio =>
          let '(rec2, started) := _start_pyaudio_recording sw rec1 in
          if started then (rec2, true)
          else if sounddevice_loaded sw
               then _start_sounddevice_recording sw rec2
               else (rec2, false)
      end in
    let rec3 := concurrent rec2 in
    if negb recording_started
    then (with_capture rec3 false (current_recording_path rec3)
            (_audio_stream rec3) (_recording_thread rec3) (_audio_data rec3),
          false)
    else
      let rec4 :=
        with_capture rec3 true (current_recording_path rec3)
          (_audio_stream rec3) (_recording_thread rec3) (_audio_data rec3) in
      match on_recording_start sw with
      | Some Raises =>
          (with_capture rec4 false (current_recording_path rec4)
             (_audio_stream rec4) (_recording_thread rec4) (_audio_data rec4),
           false)
      | _ => (rec4, true)
      end.

(** When the capture thread of a session runs: before the flag
    [is_recording] is raised, between [start_recording] and
    [stop_recording], or only after [stop_recording] gave up waiting for
    it. *)
Inductive moment : Type := BeforeTheFlag | BeforeTheStop | AfterTheStop.

(** One session under the PyAudio backend: [start_recording], the thread
    at its moment, [stop_recording]. *)
Definition pyaudio_session (when : moment) (env : environment)
    (sw : start_world) (w : pyaudio_world) (fs : files) (rec : AudioRecorder)
  : AudioRecorder * files * option string :=
  let thread := recording_thread w in
  let '(rec1, _) :=
    start_recording env sw
      (match when with BeforeTheFlag => thread | _ => fun r => r end) rec in
  let rec2 := match when with BeforeTheStop => thread rec1 | _ => rec1 end in
  let '(rec3, fs', path) := stop_recording env fs rec2 in
  (match when with AfterTheStop => thread rec3 | _ => rec3 end, fs', path).

(** [cancel_recording]: the recorder and the files afterwards, and
    whether the call returned ([False]: stopping the stream raised, which
    nothing catches here).  [unlink] is what deleting the file does; its
    exception is caught. *)
Definition cancel_recording (env : environment) (unlink : callback)
    (fs : files) (rec : AudioRecorder) : AudioRecorder * files * bool :=
  if negb (is_recording rec) then (rec, fs, true)
  else
    match audio_backend env, _audio_stream rec, stream_stop env with
    | SoundDevice, true, Raises => (stop_failed rec, fs, false)
    | _, _, _ =>
        let rec1 := stopped env rec in
        let fs' :=
          match current_recording_path rec1 with
          | Some path =>
              match fs !! path, unlink with
              | Some _, Returns => delete path fs
              | _, _ => fs
              end
          | None => fs
          end in
        (with_capture rec1 false None (_audio_stream rec1)
           (_recording_thread rec1) [], fs', true)
    end.

(** *** Moving a recording *)

(** What the file system does during one [move_recording]. *)
Record move_world : Type := mk_move_world {
  mkdir : callback;
  unlink_final : callback;
  rename : callback
}.

(** [move_recording]: the files afterwards and the returned flag.  A file
    is the path it is stored under. *)
Definition move_recording (w : move_world) (fs : files)
    (temp_path final_path : string) : files * bool :=
  match mkdir w with
  | Raises => (fs, false)
  | Returns =>
      let removed :=
        match fs !! final_path with
        | Some _ =>
            match unlink_final w with
            | Returns => Some (delete final_path fs)
            | Raises => None
            end
        | None => Some fs
        end in
      match removed with
      | None => (fs, false)
      | Some fs1 =>
          match fs1 !! temp_path, rename w with
          | Some data, Returns =>
              (<[final_path := data]> (delete temp_path fs1), true)
          | _, _ => (fs1, false)
          end
      end
  end.

(** A file system in which every operation that can go through does. *)
Definition obliging : move_world :=
  {| mkdir := Returns; unlink_final := Returns; rename := Returns |}.
End Audio.

(* ===================================================================== *)
(** ** Python text: [str.lower], [str.strip], [str.isalnum] *)
(* ===================================================================== *)

Module PyStr.
(** A character is a code point below 256 (Latin-1); on these the three
    methods are the tables below. *)
Definition code (c : ascii) : nat := nat_of_ascii c.

Definition between (lo hi n : nat) : bool := Nat.leb lo n && Nat.leb n hi.

Definition lower_char (c : ascii) : ascii :=
  let n := code c in
  if between 65 90 n || between 192 214 n || between 216 222 n
  then ascii_of_nat (n + 32) else c.

Definition isspace_char (c : ascii) : bool :=
  let n := code c in
  between 9 13 n || between 28 32 n || Nat.eqb n 133 || Nat.eqb n 160.

Definition isalnum_char (c : ascii) : bool :=
  let n := code c in
  between 48 57 n || between 65 90 n || between 97 122 n ||
  Nat.eqb n 170 || between 178 179 n || Nat.eqb n 181 || between 185 186 n ||
  between 188 190 n || between 192 214 n || between 216 246 n ||
  between 248 255 n.

Fixpoint lower (s : string) : string :=
  match s with
  | EmptyString => EmptyString
  | String c s' => String (lower_char c) (lower s')
  end.

Fixpoint lstrip (s : string) : string :=
  match s with
  | EmptyString => EmptyString
  | String c s' => if isspace_char c then lstrip s' else s
  end.

Fixpoint rstrip (s : string) : string :=
  match s with
  | EmptyString => EmptyString
  | String c s' =>
      match rstrip s' with
      | EmptyString => if isspace_char c then EmptyString else String c EmptyString
      | t => String c t
      end
  end.

Definition strip (s : string) : string := rstrip (lstrip s).

Fixpoint all_alnum (s : string) : bool :=
  match s with
  | EmptyString => true
  | String c s' => isalnum_char c && all_alnum s'
  end.

(** [s.isalnum()]: at least one character, all of them alphanumeric. *)
Definition isalnum (s : string) : bool :=
  match s with
  | EmptyString => false
  | _ => all_alnum s
  end.

(** The characters of a text all are their own lower-case form. *)
Fixpoint lowered (s : string) : Prop :=
  match s with
  | EmptyString => True
  | String c s' => lower_char c = c /\ lowered s'
  end.
End PyStr.

(* ===================================================================== *)
(** ** [whisper/hotkeys.py]: the global hotkey manager *)
(* ===================================================================== *)

Module Hotkeys.
Import PyStr.

(** The functions of the host, told apart by a number. *)
Definition Callable : Type := nat.

Record HotkeyConfig : Type := mk_HotkeyConfig {
  name : string;
  keys : list string;
  description : string;
  callback : option Callable;
  enabled : bool
}.

Record GlobalHotkeyManager : Type := mk_GlobalHotkeyManager {
  hotkeys : gmap string HotkeyConfig;
  listener : bool;
  is_running : bool
}.

(** [_setup_default_hotkeys]. *)
Definition default_hotkeys : gmap string HotkeyConfig :=
  <["toggle_recording"%string :=
      {| name := "toggle_recording"; keys := ["ctrl"; "shift"; "r"]%string;
         description := "Toggle recording on/off";
         callback := None; enabled := true |}]>
  (<["quick_transcribe"%string :=
      {| name := "quick_transcribe"; keys := ["ctrl"; "shift"; "t"]%string;
         description := "Quick transcribe clipboard audio";
         callback := None; enabled := true |}]>
  (<["show_window"%string :=
      {| name := "show_window"; keys := ["ctrl"; "shift"; "w"]%string;
         description := "Show/hide main window";
         callback := None; enabled := true |}]> ∅)).

Definition new_manager : GlobalHotkeyManager :=
  {| hotkeys := default_hotkeys; listener := false; is_running := false |}.

(** The dictionary [key_mapping] of [_normalize_keys], entry by entry. *)
Definition key_mapping_items : list (string * string) :=
  [ ("ctrl", "ctrl"); ("control", "ctrl"); ("shift", "shift"); ("alt", "alt");
    ("win", "cmd"); ("cmd", "cmd"); ("super", "cmd");
    ("space", "space"); ("enter", "enter"); ("return", "enter");
    ("tab", "tab"); ("escape", "esc"); ("esc", "esc");
    ("backspace", "backspace"); ("delete", "delete"); ("del", "delete");
    ("f1", "f1"); ("f2", "f2"); ("f3", "f3"); ("f4", "f4");
    ("f5", "f5"); ("f6", "f6"); ("f7", "f7"); ("f8", "f8");
    ("f9", "f9"); ("f10", "f10"); ("f11", "f11"); ("f12", "f12") ]%string.

Definition key_mapping : gmap string string := list_to_map key_mapping_items.

(** The key names the specification lists as accepted, synonyms included. *)
Definition listed_names : list string :=
  [ "ctrl"; "control"; "shift"; "alt"; "win"; "windows"; "cmd"; "super";
    "space"; "enter"; "return"; "tab"; "escape"; "esc"; "backspace";
    "delete"; "del"; "f1"; "f2"; "f3"; "f4"; "f5"; "f6"; "f7"; "f8"; "f9";
    "f10"; "f11"; "f12" ]%string.

(** The function keys. *)
Definition function_keys : list string :=
  [ "f1"; "f2"; "f3"; "f4"; "f5"; "f6"; "f7"; "f8"; "f9"; "f10"; "f11";
    "f12" ]%string.

(** A single alphanumeric character. *)
Definition single_alnum (t : string) : bool :=
  Nat.eqb (String.length t) 1 && isalnum t.

(** The body of the loop of [_normalize_keys] for one key: the canonical
    name, or [None] where the source prints "Unknown key" and returns the
    empty list. *)
Definition normalize_key (key : string) : option string :=
  let key_lower := strip (lower key) in
  match key_mapping !! key_lower with
  | Some canonical => Some canonical
  | None =>
      if Nat.eqb (String.length key_lower) 1 && isalnum key_lower
      then Some key_lower
      else None
  end.

Fixpoint normalize_loop (normalized keys : list string) : list string :=
  match keys with
  | [] => normalized
  | key :: rest =>
      match normalize_key key with
      | Some k => normalize_loop (normalized ++ [k]) rest
      | None => []
      end
  end.

Definition _normalize_keys (keys : list string) : list string :=
  normalize_loop [] keys.

(** [register_hotkey]; [pynput_available] is the module flag
    [PYNPUT_AVAILABLE]. *)
Definition register_hotkey (pynput_available : bool) (mgr : GlobalHotkeyManager)
    (name : string) (keys : list string) (callback : Callable)
    (description : string) : GlobalHotkeyManager * bool :=
  if negb pynput_available then (mgr, false)
  else
    match _normalize_keys keys with
    | [] => (mgr, false)
    | normalized_keys =>
        let hotkey_config :=
          {| name := name; keys := normalized_keys; description := description;
             callback := Some callback; enabled := true |} in
        ({| hotkeys := <[name := hotkey_config]> (hotkeys mgr);
            listener := listener mgr;
            is_running := is_running mgr |}, true)
    end.

Definition unregister_hotkey (mgr : GlobalHotkeyManager) (name : string)
  : GlobalHotkeyManager * bool :=
  match hotkeys mgr !! name with
  | Some _ =>
      ({| hotkeys := delete name (hotkeys mgr);
          listener := listener mgr;
          is_running := is_running mgr |}, true)
  | None => (mgr, false)
  end.

(** The manager with another table of hotkeys. *)
Definition with_hotkeys (mgr : GlobalHotkeyManager)
    (table : gmap string HotkeyConfig) : GlobalHotkeyManager :=
  {| hotkeys := table; listener := listener mgr; is_running := is_running mgr |}.

(** The configuration with another callback, and with another flag. *)
Definition with_callback (config : HotkeyConfig) (f : option Callable)
  : HotkeyConfig :=
  {| name := name config; keys := keys config;
     description := description config; callback := f;
     enabled := enabled config |}.

Definition with_enabled (config : HotkeyConfig) (flag : bool) : HotkeyConfig :=
  {| name := name config; keys := keys config;
     description := description config; callback := callback config;
     enabled := flag |}.

(** [set_hotkey_callback]. *)
Definition set_hotkey_callback (mgr : GlobalHotkeyManager) (name : string)
    (callback : Callable) : GlobalHotkeyManager * bool :=
  match hotkeys mgr !! name with
  | Some config =>
      (with_hotkeys mgr
         (<[name := with_callback config (Some callback)]> (hotkeys mgr)), true)
  | None => (mgr, false)
  end.

Definition set_enabled (mgr : GlobalHotkeyManager) (name : string) (flag : bool)
  : GlobalHotkeyManager * bool :=
  match hotkeys mgr !! name with
  | Some config =>
      (with_hotkeys mgr (<[name := with_enabled config flag]> (hotkeys mgr)), true)
  | None => (mgr, false)
  end.

(** [enable_hotkey] and [disable_hotkey]. *)
Definition enable_hotkey (mgr : GlobalHotkeyManager) (name : string)
  : GlobalHotkeyManager * bool := set_enabled mgr name true.
Definition disable_hotkey (mgr : GlobalHotkeyManager) (name : string)
  : GlobalHotkeyManager * bool := set_enabled mgr name false.

(** One turn of the loop of [_keys_to_pynput_format]: the text for one
    key, or [None] where the source prints "Unknown key for pynput format"
    and returns [None]. *)
Definition pynput_key (key : string) : option string :=
  if String.eqb key "ctrl" then Some "<ctrl>"
  else if String.eqb key "shift" then Some "<shift>"
  else if String.eqb key "alt" then Some "<alt>"
  else if String.eqb key "cmd" then Some "<cmd>"
  else if String.eqb key "space" then Some "<space>"
  else if String.eqb key "enter" then Some "<enter>"
  else if String.eqb key "tab" then Some "<tab>"
  else if String.eqb key "esc" then Some "<esc>"
  else if String.eqb key "backspace" then Some "<backspace>"
  else if String.eqb key "delete" then Some "<delete>"
  else if Nat.eqb (String.length key) 1 && isalnum key then Some key
  else None.

Fixpoint pynput_loop (pynput_keys keys : list string) : option (list string) :=
  match keys with
  | [] => Some pynput_keys
  | key :: rest =>
      match pynput_key key with
      | Some k => pynput_loop (pynput_keys ++ [k]) rest
      | None => None
      end
  end.

(** [sep.join(parts)]. *)
Fixpoint join (sep : string) (parts : list string) : string :=
  match parts with
  | [] => EmptyString
  | [part] => part
  | part :: rest => part ++ sep ++ join sep rest
  end.

Definition _keys_to_pynput_format (keys : list string) : option string :=
  match pynput_loop [] keys with
  | None => None
  | Some [] => None
  | Some pynput_keys => Some (join "+" pynput_keys)
  end.

(** The entry a hotkey gives to [hotkey_mapping] in [start_listening]:
    none when it is disabled, has no callback, or has keys without a
    (non-empty) pynput text. *)
Definition mapped (config : HotkeyConfig) : option (string * Callable) :=
  if enabled config then
    match callback config with
    | Some f =>
        match _keys_to_pynput_format (keys config) with
        | Some (String c s) => Some (String c s, f)
        | _ => None
        end
    | None => None
    end
  else None.

(** The items of [hotkey_mapping].  Only whether there is one is used
    below: the listener is held as a flag. *)
Definition hotkey_mapping (mgr : GlobalHotkeyManager) : list (string * Callable) :=
  omap (fun item => mapped item.2) (map_to_list (hotkeys mgr)).

(** What creating and starting the pynput listener does. *)
Inductive listener_outcome : Type :=
| ListenerStarts
| ConstructorRaises      (* [GlobalHotKeys(hotkey_mapping)] *)
| StartRaises.           (* [self.listener.start()] *)

(** [start_listening]. *)
Definition start_listening (pynput_available : bool) (world : listener_outcome)
    (mgr : GlobalHotkeyManager) : GlobalHotkeyManager * bool :=
  if negb pynput_available then (mgr, false)
  else if is_running mgr then (mgr, true)
  else
    match hotkey_mapping mgr with
    | [] => (mgr, false)
    | _ :: _ =>
        match world with
        | ConstructorRaises => (mgr, false)
        | StartRaises =>
            ({| hotkeys := hotkeys mgr; listener := true;
                is_running := is_running mgr |}, false)
        | ListenerStarts =>
            ({| hotkeys := hotkeys mgr; listener := true; is_running := true |},
             true)
        end
    end.

(** [stop_listening]; [stop_raises] says whether [self.listener.stop()]
    raises.  The last statement of the [try] block,
    [self.pressed_keys.clear()], reads an attribute that no code sets: it
    raises, after the listener and the flag have been reset, and the
    [except] clause prints the message. *)
Definition stop_listening (stop_raises : bool) (mgr : GlobalHotkeyManager)
  : GlobalHotkeyManager :=
  if negb (is_running mgr) then mgr
  else if listener mgr && stop_raises then mgr
  else {| hotkeys := hotkeys mgr; listener := false; is_running := false |}.

(** Every stored chord is a non-empty list of canonical key names under
    the name it is stored for. *)
Definition chords_canonical (mgr : GlobalHotkeyManager) : Prop :=
  forall name config,
    hotkeys mgr !! name = Some config ->
    keys config <> [] /\ _normalize_keys (keys config) = keys config.
End Hotkeys.

(* ===================================================================== *)
(** ** [opensuperwhisper_gui.py]: hotkeys from the settings *)
(* ===================================================================== *)

Module Gui.
Import PyStr Hotkeys.

(** [s.replace(' ', '')]. *)
Fixpoint remove_spaces (s : string) : string :=
  match s with
  | EmptyString => EmptyString
  | String c s' =>
      if Ascii.eqb c " " then remove_spaces s' else String c (remove_spaces s')
  end.

(** [s.split('+')]. *)
Fixpoint split_plus (s : string) : list string :=
  match s with
  | EmptyString => [EmptyString]
  | String c s' =>
      if Ascii.eqb c "+" then EmptyString :: split_plus s'
      else
        match split_plus s' with
        | [] => [String c EmptyString]
        | part :: parts => String c part :: parts
        end
  end.

(** One turn of the loop of [_register_custom_hotkey]; [None] where the
    source prints "Unknown key in hotkey" and returns [False]. *)
Definition parse_part (part : string) : option string :=
  if String.eqb part "ctrl" || String.eqb part "control" then Some "ctrl"
  else if String.eqb part "shift" then Some "shift"
  else if String.eqb part "alt" then Some "alt"
  else if String.eqb part "win" || String.eqb part "windows" || String.eqb part "cmd"
  then Some "cmd"
  else if Nat.eqb (String.length part) 1 && isalnum part then Some part
  else None.

Fixpoint parse_loop (keys parts : list string) : option (list string) :=
  match parts with
  | [] => Some keys
  | part :: rest =>
      match parse_part part with
      | Some k => parse_loop (keys ++ [k]) rest
      | None => None
      end
  end.

(** The keys the loop ends with for a hotkey text of the settings. *)
Definition parse_hotkey (hotkey_string : string) : option (list string) :=
  parse_loop [] (split_plus (remove_spaces (lower hotkey_string))).

(** [_register_custom_hotkey]. *)
Definition _register_custom_hotkey (pynput_available : bool)
    (mgr : GlobalHotkeyManager) (name hotkey_string : string)
    (callback : Callable) : GlobalHotkeyManager * bool :=
  match parse_hotkey hotkey_string with
  | None => (mgr, false)
  | Some [] => (mgr, false)
  | Some keys =>
      register_hotkey pynput_available mgr name keys callback
        ("Custom hotkey: " ++ hotkey_string)
  end.
End Gui.

(* ===================================================================== *)
(** ** Python values held in settings dictionaries and JSON documents *)
(* ===================================================================== *)

Module PyValue.
Import Float64.

Inductive value : Type :=
| VNone
| VBool (b : bool)
| VInt (z : Z)
| VFloat (f : float64)
| VStr (s : string).

(** The float literal [n/d]. *)
Definition decimal (n d : Z) : value := VFloat (div (of_Z n) (of_Z d)).
End PyValue.

(* ===================================================================== *)
(** ** [whisper/transcription_service.py] *)
(* ===================================================================== *)

Module Transcription.
Import Float64 PyValue.
Local Open Scope Z_scope.

(** A loaded Whisper model: which weights, on which device. *)
Record Model : Type := mk_Model {
  weights : string;
  placed_on : string
}.

Inductive error : Type :=
| RuntimeError (message : string)
| Raised (tag : nat).        (* an exception of the model library or the host *)

(** What a callback of the host does when it is called. *)
Inductive callback : Type := Returns | Raises (e : error).

(** What a call leaves behind outside the attributes of the service. *)
Inductive effect : Type :=
| StartLoadThread (model_name device : string)   (* [_load_model_async] *)
| ModelToCpu
| GcCollect
| CudaEmptyCache
| CudaSynchronize
| CudaResetPeakMemoryStats
| OnProgress (fraction : float64)
| OnComplete (text : string)
| OnError (e : error).

Record TranscriptionService : Type := mk_TranscriptionService {
  model : option Model;
  model_name : string;
  device : string;
  is_loading : bool;
  is_transcribing : bool;
  progress : float64;
  transcription_count : Z;
  on_progress : option callback;
  on_complete : option callback;
  on_error : option callback
}.

(** The world around one call: [torch.cuda.is_available()] and the vendored
    [transcribe], which returns the text of its result or raises. *)
Record environment : Type := mk_environment {
  cuda_available : bool;
  transcribe : Model -> string -> gmap string value -> string + error
}.

Definition set_model (svc : TranscriptionService) (m : option Model)
    (new_name new_device : string) : TranscriptionService :=
  {| model := m; model_name := new_name; device := new_device;
     is_loading := is_loading svc; is_transcribing := is_transcribing svc;
     progress := progress svc; transcription_count := transcription_count svc;
     on_progress := on_progress svc; on_complete := on_complete svc;
     on_error := on_error svc |}.

Definition set_transcribing (svc : TranscriptionService) (flag : bool)
    (p : float64) (count : Z) : TranscriptionService :=
  {| model := model svc; model_name := model_name svc; device := device svc;
     is_loading := is_loading svc; is_transcribing := flag;
     progress := p; transcription_count := count;
     on_progress := on_progress svc; on_complete := on_complete svc;
     on_error := on_error svc |}.

(** [change_model]: the service afterwards, the returned flag and the
    effects, among them the loader thread [_load_model_async] starts. *)
Definition change_model (svc : TranscriptionService) (new_name : string)
  : TranscriptionService * bool * list effect :=
  if is_transcribing svc then (svc, false, [])
  else if bool_decide (new_name = model_name svc) && bool_decide (model svc <> None)
  then (svc, true, [])
  else (set_model svc None new_name (device svc), true,
        [StartLoadThread new_name (device svc)]).

Definition on_cuda (device : string) : bool := String.prefix "cuda" device.

(** [change_device]. *)
Definition change_device (env : environment) (svc : TranscriptionService)
    (new_device : string) : TranscriptionService * bool * list effect :=
  if is_transcribing svc then (svc, false, [])
  else if bool_decide (new_device = device svc) && bool_decide (model svc <> None)
  then (svc, true, [])
  else
    let unload :=
      match model svc with
      | None => []
      | Some _ =>
          (if on_cuda (device svc) then [ModelToCpu] else []) ++ [GcCollect] ++
          (if on_cuda (device svc) && cuda_available env
           then [CudaEmptyCache; CudaSynchronize] else [])
      end in
    (set_model svc None (model_name svc) new_device, true,
     unload ++ [StartLoadThread (model_name svc) new_device]).

(** The defaults [transcribe_audio_async] merges the caller's settings
    over. *)
Definition default_settings : gmap string value :=
  list_to_map
    [ ("language", VNone); ("task", VStr "transcribe");
      ("temperature", VFloat zero); ("best_of", VInt 5); ("beam_size", VInt 5);
      ("patience", VFloat one); ("length_penalty", VFloat one);
      ("suppress_tokens", VStr "-1"); ("initial_prompt", VNone);
      ("condition_on_previous_text", VBool true); ("fp16", VBool true);
      ("compression_ratio_threshold", decimal 24 10);
      ("logprob_threshold", VFloat (SFopp one));
      ("no_speech_threshold", decimal 6 10); ("word_timestamps", VBool false);
      ("prepend_punctuations", VStr (String (ascii_of_nat 34) "'([{-"));
      ("append_punctuations", VStr (String (ascii_of_nat 34) "'.,:)]}"));
      ("clip_timestamps", VStr "0") ]%string.

Definition valid_whisper_params : gset string :=
  list_to_set
    [ "language"; "task"; "temperature"; "best_of"; "beam_size"; "patience";
      "length_penalty"; "suppress_tokens"; "initial_prompt";
      "condition_on_previous_text"; "fp16"; "compression_ratio_threshold";
      "logprob_threshold"; "no_speech_threshold"; "word_timestamps";
      "prepend_punctuations"; "append_punctuations"; "clip_timestamps" ]%string.

Definition filtered_settings (settings : gmap string value) : gmap string value :=
  filter (fun kv => kv.1 ∈ valid_whisper_params) settings.

Definition cuda_cleanup (env : environment) (svc : TranscriptionService)
    (effects : list effect) : list effect :=
  if on_cuda (device svc) && cuda_available env then effects else [].

(** [_transcribe_sync]: the count goes up, every third call cleans up
    first, progress is reported before and after the model runs, and the
    [finally] block cleans up after the model whatever it did. *)
Definition _transcribe_sync (env : environment) (svc : TranscriptionService)
    (audio_path : string) (settings : gmap string value)
  : TranscriptionService * (string + error) * list effect :=
  let count := transcription_count svc + 1 in
  let svc1 := set_transcribing svc (is_transcribing svc) (progress svc) count in
  let periodic :=
    if count mod 3 =? 0
    then GcCollect :: cuda_cleanup env svc [CudaEmptyCache; CudaSynchronize]
    else [] in
  let after_model :=
    [GcCollect; GcCollect; GcCollect] ++
    cuda_cleanup env svc
      [CudaEmptyCache; CudaSynchronize; CudaResetPeakMemoryStats; CudaEmptyCache] in
  let started :=
    match on_progress svc with
    | Some _ => [OnProgress (div (of_Z 1) (of_Z 10))]
    | None => []
    end in
  match on_progress svc with
  | Some (Raises e) => (svc1, inr e, periodic ++ started)
  | _ =>
      match model svc with
      | None => (svc1, inr (Raised 0), periodic ++ started ++ after_model)
      | Some m =>
          match transcribe env m audio_path (filtered_settings settings) with
          | inr e => (svc1, inr e, periodic ++ started ++ after_model)
          | inl text =>
              (svc1, inl text,
               periodic ++ started ++
               match on_progress svc with
               | Some _ => [OnProgress one]
               | None => []
               end ++ after_model)
          end
      end
  end.

(** The [except] clause of [transcribe_audio_async]: [on_error] is told,
    then the exception goes on to the caller (the one [on_error] raises, if
    it raises). *)
Definition report_error (svc : TranscriptionService) (e : error)
  : error * list effect :=
  match on_error svc with
  | None => (e, [])
  | Some Returns => (e, [OnError e])
  | Some (Raises e') => (e', [OnError e])
  end.

(** [transcribe_audio_async], run to its end: the service afterwards, the
    text or the exception the caller gets, and the effects. *)
Definition transcribe_audio_async (env : environment) (svc : TranscriptionService)
    (audio_path : string) (settings : option (gmap string value))
  : TranscriptionService * (string + error) * list effect :=
  if is_transcribing svc then (svc, inr (RuntimeError "Already transcribing"), [])
  else
    match model svc with
    | None => (svc, inr (RuntimeError "Model not loaded"), [])
    | Some _ =>
        let merged := default (∅ : gmap string value) settings ∪ default_settings in
        let svc1 := set_transcribing svc true zero (transcription_count svc) in
        let '(svc2, result, effects) := _transcribe_sync env svc1 audio_path merged in
        match result with
        | inr e =>
            let '(e', reported) := report_error svc2 e in
            (* finally *)
            (set_transcribing svc2 false (progress svc2) (transcription_count svc2),
             inr e', effects ++ reported)
        | inl text =>
            let svc3 := set_transcribing svc2 true one (transcription_count svc2) in
            match on_complete svc3 with
            | Some (Raises e) =>
                let '(e', reported) := report_error svc3 e in
                (set_transcribing svc3 false (progress svc3) (transcription_count svc3),
                 inr e', effects ++ [OnComplete text] ++ reported)
            | Some Returns =>
                (set_transcribing svc3 false (progress svc3) (transcription_count svc3),
                 inl text, effects ++ [OnComplete text])
            | None =>
                (set_transcribing svc3 false (progress svc3) (transcription_count svc3),
                 inl text, effects)
            end
        end
    end.

(** [cancel_transcription]. *)
Definition cancel_transcription (svc : TranscriptionService) : TranscriptionService :=
  if negb (is_transcribing svc) then svc
  else set_transcribing svc false zero (transcription_count svc).

(** [load_model(name=..., device=...)] of the vendored library: the model,
    or the exception it raises (unknown name, no such device, no memory). *)
Definition loader : Type := string -> string -> Model + error.

Definition set_loaded (svc : TranscriptionService) (m : option Model)
    (loading : bool) : TranscriptionService :=
  {| model := m; model_name := model_name svc; device := device svc;
     is_loading := loading; is_transcribing := is_transcribing svc;
     progress := progress svc; transcription_count := transcription_count svc;
     on_progress := on_progress svc; on_complete := on_complete svc;
     on_error := on_error svc |}.

(** A loader thread between its call of [load_model] and the return of
    that call: the name and the device it called it with. *)
Record loading : Type := mk_loading {
  loading_name : string;
  loading_device : string
}.

(** [load_model_thread], the body of the thread [_load_model_async]
    starts, up to its call of [load_model]: [is_loading] goes up, and the
    name and the device are read as the service holds them then. *)
Definition begin_loading (svc : TranscriptionService)
  : TranscriptionService * loading :=
  (set_loaded svc (model svc) true,
   {| loading_name := model_name svc; loading_device := device svc |}).

(** [load_model_thread] from the return of [load_model] on: the model is
    assigned to [self.model], a failure is told to [on_error], and the
    [finally] block takes [is_loading] down.  The threads are not
    synchronised: between the two steps of one thread the methods of the
    service and the steps of other loader threads may run. *)
Definition end_loading (load_model : loader) (svc : TranscriptionService)
    (l : loading) : TranscriptionService * list effect :=
  match load_model (loading_name l) (loading_device l) with
  | inl m => (set_loaded svc (Some m) false, [])
  | inr e =>
      (set_loaded svc (model svc) false,
       match on_error svc with
       | Some _ => [OnError e]
       | None => []
       end)
  end.

(** The thread run from its start to its end with nothing in between. *)
Definition load_model_thread (load_model : loader) (svc : TranscriptionService)
  : TranscriptionService * list effect :=
  let '(svc1, l) := begin_loading svc in end_loading load_model svc1 l.

(** [transcribe_audio_sync]: the two checks, then the asynchronous method
    run to its end on the event loop. *)
Definition transcribe_audio_sync (env : environment) (svc : TranscriptionService)
    (audio_path : string) (settings : option (gmap string value))
  : TranscriptionService * (string + error) * list effect :=
  if is_transcribing svc then (svc, inr (RuntimeError "Already transcribing"), [])
  else
    match model svc with
    | None => (svc, inr (RuntimeError "Model not loaded"), [])
    | Some _ => transcribe_audio_async env svc audio_path settings
    end.

(** The settings [transcribe_audio_async] ends up handing to the model
    for the settings of the caller: merged over the defaults in the
    method, filtered in [_transcribe_sync]. *)
Definition settings_for_model (settings : option (gmap string value))
  : gmap string value :=
  filtered_settings (default (∅ : gmap string value) settings ∪ default_settings).
End Transcription.

(* ===================================================================== *)
(** ** [whisper/config_manager.py]: the persistent settings *)
(* ===================================================================== *)

Module Config.
Import Float64 PyValue.
Local Open Scope Z_scope.

(** [self.default_settings]: the fixed schema with its default values. *)
Definition default_settings : gmap string value :=
  list_to_map
    [ ("audio_device", VNone); ("audio_device_name", VNone);
      ("sample_rate", VInt 16000); ("monitor_audio", VBool false);
      ("noise_reduction", VBool false); ("model", VStr "base");
      ("device", VStr "cpu"); ("language", VStr "auto");
      ("task", VStr "transcribe"); ("temperature", VFloat zero);
      ("record_hotkey", VStr "Ctrl+Shift+R");
      ("window_hotkey", VStr "Ctrl+Shift+W"); ("autostart", VBool false);
      ("system_tray", VBool true); ("theme", VStr "default");
      ("auto_cleanup", VBool true); ("window_geometry", VStr "800x600");
      ("window_position", VNone) ]%string.

(** What is under the path [config_file].  [json.dump] writes a dictionary
    of the values above as a JSON object and [json.load] reads that object
    back as the same dictionary, so a file written by the store is held as
    the dictionary itself; [Unreadable] stands for every content that makes
    the [try] block of [load_settings] raise (no JSON, or JSON that is not
    an object). *)
Inductive content : Type :=
| JsonObject (document : gmap string value)
| Unreadable.

(** [None]: the file does not exist. *)
Definition file : Type := option content.

Record ConfigManager : Type := mk_ConfigManager {
  settings : gmap string value
}.

(** The loops of [load_settings] and [save_settings] keep the entries
    whose key is in the schema and drop (and log) the others. *)
Definition validated (input : gmap string value) : gmap string value :=
  filter (fun kv => is_Some (default_settings !! kv.1)) input.

(** [load_settings]: the store afterwards and the returned copy. *)
Definition load_settings (f : file) (cfg : ConfigManager)
  : ConfigManager * gmap string value :=
  match f with
  | None => (cfg, settings cfg)
  | Some (JsonObject loaded_settings) =>
      let merged := validated loaded_settings ∪ settings cfg in
      ({| settings := merged |}, merged)
  | Some Unreadable => ({| settings := default_settings |}, default_settings)
  end.

(** [ConfigManager(config_file)]: the defaults, then [load_settings]. *)
Definition new (f : file) : ConfigManager :=
  fst (load_settings f {| settings := default_settings |}).

(** Whether creating the directory and writing the file go through. *)
Inductive disk : Type := DiskOk | DiskError.

(** [save_settings]: the store and the file afterwards and the returned
    flag.  The given settings are merged into the store before anything is
    written. *)
Definition save_settings (d : disk) (f : file) (cfg : ConfigManager)
    (input : option (gmap string value)) : ConfigManager * file * bool :=
  let cfg' :=
    match input with
    | Some given => {| settings := validated given ∪ settings cfg |}
    | None => cfg
    end in
  match d with
  | DiskError => (cfg', f, false)
  | DiskOk => (cfg', Some (JsonObject (settings cfg')), true)
  end.

Definition get_setting (cfg : ConfigManager) (key : string) (default : value)
  : value :=
  match settings cfg !! key with
  | Some v => v
  | None => default
  end.

Definition set_setting (cfg : ConfigManager) (key : string) (v : value)
  : ConfigManager :=
  if bool_decide (is_Some (default_settings !! key))
  then {| settings := <[key := v]> (settings cfg) |}
  else cfg.

Definition get_all_settings (cfg : ConfigManager) : gmap string value :=
  settings cfg.

Definition reset_to_defaults (cfg : ConfigManager) : ConfigManager :=
  {| settings := default_settings |}.

(** The keys of the store are the keys of the schema: what the constructor
    establishes and every method keeps. *)
Definition well_formed (cfg : ConfigManager) : Prop :=
  forall key, is_Some (settings cfg !! key) <-> is_Some (default_settings !! key).

(** All keys of a settings map belong to the schema. *)
Definition conforms (input : gmap string value) : Prop :=
  forall key, is_Some (input !! key) -> is_Some (default_settings !! key).

(** [backup_settings]: the backup file afterwards and the returned flag;
    the store is written as it is, to the given path or to a new one named
    after the time. *)
Definition backup_settings (d : disk) (backup : file) (cfg : ConfigManager)
  : file * bool :=
  match d with
  | DiskError => (backup, false)
  | DiskOk => (Some (JsonObject (settings cfg)), true)
  end.

(** [restore_from_backup]: a missing file and one that cannot be read as a
    JSON object give [False]; else the entries of the backup whose key is
    in the schema are put over the store. *)
Definition restore_from_backup (backup : file) (cfg : ConfigManager)
  : ConfigManager * bool :=
  match backup with
  | None => (cfg, false)
  | Some Unreadable => (cfg, false)
  | Some (JsonObject backup_settings) =>
      ({| settings := validated backup_settings ∪ settings cfg |}, true)
  end.
End Config.

(* ===================================================================== *)
(** ** Sample data for the worked cases *)
(* ===================================================================== *)

Module Samples.
Import Float64 DateTime.
Local Open Scope Z_scope.

(** 2024-04-24 at noon, and the same day one half second past midnight. *)
Definition noon : datetime :=
  {| year := 2024; month := 4; day := 24;
     hour := 12; minute := 0; second := 0; microsecond := 0 |}.
Definition after_midnight : datetime :=
  {| year := 2024; month := 4; day := 24;
     hour := 0; minute := 0; second := 0; microsecond := 500000 |}.

Definition recording_at (rid : string) (t : datetime) (seconds : Z)
    (lang : option string) : Database.Recording :=
  {| Database.id := rid;
     Database.timestamp := t;
     Database.filename := (rid ++ ".wav")%string;
     Database.transcription := "hello world";
     Database.duration := of_Z seconds;
     Database.language := lang;
     Database.model_used := Some "base"%string;
     Database.file_size := Some 32044;
     Database.settings := Some "{}"%string |}.

(** 2024-03-25T11:59:59: 30 days and 1 second before [noon]. *)
Definition thirty_days_one_second_before_noon : Database.Recording :=
  recording_at "old"
    {| year := 2024; month := 3; day := 25;
       hour := 11; minute := 59; second := 59; microsecond := 0 |}
    1 (Some "en"%string).

(** 2024-03-26T12:00:00: 29 days before [noon]. *)
Definition twenty_nine_days_before_noon : Database.Recording :=
  recording_at "recent"
    {| year := 2024; month := 3; day := 26;
       hour := 12; minute := 0; second := 0; microsecond := 0 |}
    2 (Some "en"%string).

(** 2021-07-29T08:30:00, long before the cut-off. *)
Definition long_ago : Database.Recording :=
  recording_at "ancient"
    {| year := 2021; month := 7; day := 29;
       hour := 8; minute := 30; second := 0; microsecond := 0 |}
    3 None.

Definition cleanup_table : Database.table :=
  [long_ago; thirty_days_one_second_before_noon; twenty_nine_days_before_noon].

(** Three rows with durations 1.0, 2.0, 3.0 and languages en, en, fr. *)
Definition three_recordings : Database.table :=
  [ recording_at "a" noon 1 (Some "en"%string);
    recording_at "b" noon 2 (Some "en"%string);
    recording_at "c" noon 3 (Some "fr"%string) ].

(** A row at [noon] with the given duration, language and file size. *)
Definition recording_of (rid : string) (seconds : float64)
    (lang : option string) (size : option Z) : Database.Recording :=
  {| Database.id := rid;
     Database.timestamp := noon;
     Database.filename := (rid ++ ".wav")%string;
     Database.transcription := "hello world";
     Database.duration := seconds;
     Database.language := lang;
     Database.model_used := Some "base"%string;
     Database.file_size := size;
     Database.settings := None |}.

(** Three rows with durations 1.0, 2.0, 3.0 and languages en, en, fr whose
    files have 2^62 bytes each, and two rows with durations infinite to
    either side. *)
Definition three_huge_files : Database.table :=
  [ recording_of "a" (of_Z 1) (Some "en"%string) (Some (2 ^ 62));
    recording_of "b" (of_Z 2) (Some "en"%string) (Some (2 ^ 62));
    recording_of "c" (of_Z 3) (Some "fr"%string) (Some (2 ^ 62)) ].

Definition two_endless_recordings : Database.table :=
  [ recording_of "a" (S754_infinity false) (Some "en"%string) (Some 32044);
    recording_of "b" (S754_infinity true) (Some "en"%string) (Some 32044) ].

(** A recorder in the middle of a capture with [n] silent samples in its
    buffer, and a world in which stopping and writing go through. *)
Definition recorder_with (n : Z) : Audio.AudioRecorder :=
  {| Audio.is_recording := true;
     Audio.current_recording_path := Some "recording_20240424_120000.wav"%string;
     Audio._audio_stream := true;
     Audio._recording_thread := false;
     Audio._audio_data := List.repeat 0 (Z.to_nat n);
     Audio._working_channels := 1;
     Audio._working_rate := 16000;
     Audio.on_recording_stop := Some Audio.Returns |}.

Definition quiet_world : Audio.environment :=
  {| Audio.audio_backend := Audio.SoundDevice;
     Audio.stream_stop := Audio.Returns;
     Audio.file_write := Audio.Returns |}.

(** A service with the base model loaded on the CPU and all callbacks set,
    idle or in the middle of a transcription; a world whose model returns a
    text, and one whose model raises. *)
Definition service (transcribing : bool) : Transcription.TranscriptionService :=
  {| Transcription.model :=
       Some {| Transcription.weights := "base"; Transcription.placed_on := "cpu" |}%string;
     Transcription.model_name := "base";
     Transcription.device := "cpu";
     Transcription.is_loading := false;
     Transcription.is_transcribing := transcribing;
     Transcription.progress := zero;
     Transcription.transcription_count := 0;
     Transcription.on_progress := Some Transcription.Returns;
     Transcription.on_complete := Some Transcription.Returns;
     Transcription.on_error := Some Transcription.Returns |}.

Definition model_answers : Transcription.environment :=
  {| Transcription.cuda_available := false;
     Transcription.transcribe := fun _ _ _ => inl "hello world"%string |}.

Definition model_fails : Transcription.environment :=
  {| Transcription.cuda_available := false;
     Transcription.transcribe := fun _ _ _ => inr (Transcription.Raised 1) |}.

(** A configuration file left by an earlier session that chose the small
    model, and a settings map that only sets the language. *)
Definition earlier_file : Config.file :=
  Some (Config.JsonObject {[ "model"%string := PyValue.VStr "small" ]}).

Definition language_only : gmap string PyValue.value :=
  {[ "language"%string := PyValue.VStr "en" ]}.

Import Audio.

(** The recorder of [recorder_with] with a stop callback that raises. *)
Definition recorder_with_failing_callback (n : Z) : AudioRecorder :=
  {| is_recording := true;
     current_recording_path := Some "recording_20240424_120000.wav"%string;
     _audio_stream := true;
     _recording_thread := false;
     _audio_data := List.repeat 0 (Z.to_nat n);
     _working_channels := 1;
     _working_rate := 16000;
     on_recording_stop := Some Raises |}.

(** An idle recorder, and a session under PyAudio in which the device
    opens at once and delivers a second of audio. *)
Definition idle_recorder : AudioRecorder :=
  {| is_recording := false;
     current_recording_path := None;
     _audio_stream := false;
     _recording_thread := false;
     _audio_data := [];
     _working_channels := 1;
     _working_rate := 16000;
     on_recording_stop := None |}.

Definition pyaudio_backend : environment :=
  {| audio_backend := PyAudio; stream_stop := Returns; file_write := Returns |}.

Definition plain_start : start_world :=
  {| temp_path := "recording_20240424_120000.wav";
     sounddevice_stream := StreamStarts; thread_start := Returns;
     sounddevice_loaded := false; on_recording_start := None |}.

Definition willing_device : pyaudio_world :=
  {| get_device_info_by_index :=
       fun _ => Some {| maxInputChannels := 1; defaultSampleRate := Some 16000 |};
     stream_opens := fun _ _ _ => true;
     stream_reads := List.repeat (Some (List.repeat 0 (2 * 1024))) 16 |}.
End Samples.

(* ===================================================================== *)
(** * Properties *)
(* ===================================================================== *)

(** ** The calendar: dates and their ordinals *)

Section CalendarFacts.
Import DateTime.
Local Open Scope Z_scope.

Lemma is_leap_spec (y : Z) :
  _is_leap y = true <-> y mod 4 = 0 /\ (y mod 100 <> 0 \/ y mod 400 = 0).
Proof.
  unfold _is_leap. rewrite andb_true_iff, orb_true_iff, negb_true_iff.
  rewrite !Z.eqb_eq, Z.eqb_neq. tauto.
Qed.

Lemma days_before_year_next (y : Z) :
  _days_before_year (y + 1) =
    _days_before_year y + 365 + (if _is_leap y then 1 else 0).
Proof.
  unfold _days_before_year.
  destruct (_is_leap y) eqn:Hl.
  - apply is_leap_spec in Hl. Z.to_euclidean_division_equations. lia.
  - assert (Hn : ~ (y mod 4 = 0 /\ (y mod 100 <> 0 \/ y mod 400 = 0)))
      by (rewrite <- is_leap_spec, Hl; discriminate).
    Z.to_euclidean_division_equations. lia.
Qed.

Lemma days_before_year_mono (y1 y2 : Z) :
  y1 <= y2 -> _days_before_year y1 <= _days_before_year y2.
Proof.
  unfold _days_before_year. intros H. Z.to_euclidean_division_equations. lia.
Qed.

Lemma month_cases (m : Z) :
  1 <= m <= 12 ->
  m = 1 \/ m = 2 \/ m = 3 \/ m = 4 \/ m = 5 \/ m = 6 \/
  m = 7 \/ m = 8 \/ m = 9 \/ m = 10 \/ m = 11 \/ m = 12.
Proof. lia. Qed.

Lemma day_of_year_range (y m d : Z) :
  1 <= m <= 12 -> 1 <= d <= _days_in_month y m ->
  1 <= _days_before_month y m + d <= 365 + (if _is_leap y then 1 else 0).
Proof.
  intros Hm Hd. unfold _days_before_month, _days_in_month in *.
  destruct (_is_leap y);
    destruct (month_cases m Hm) as [->|[->|[->|[->|[->|[->|[->|[->|[->|[->|[->| ->]]]]]]]]]]];
    simpl in *; lia.
Qed.

Lemma days_before_month_mono (y m1 m2 d1 : Z) :
  1 <= m1 <= 12 -> 1 <= m2 <= 12 -> m1 < m2 ->
  1 <= d1 <= _days_in_month y m1 ->
  _days_before_month y m1 + d1 <= _days_before_month y m2.
Proof.
  intros H1 H2 Hlt Hd. unfold _days_before_month, _days_in_month in *.
  destruct (_is_leap y);
    destruct (month_cases m1 H1) as [->|[->|[->|[->|[->|[->|[->|[->|[->|[->|[->| ->]]]]]]]]]]];
    destruct (month_cases m2 H2) as [->|[->|[->|[->|[->|[->|[->|[->|[->|[->|[->| ->]]]]]]]]]]];
    simpl in *; lia.
Qed.

(** Dates are ordered as their ordinals. *)
Lemma ymd2ord_compare (y1 m1 d1 y2 m2 d2 : Z) :
  valid_date y1 m1 d1 -> valid_date y2 m2 d2 ->
  (_ymd2ord y1 m1 d1 ?= _ymd2ord y2 m2 d2) =
    match y1 ?= y2 with
    | Eq => match m1 ?= m2 with
            | Eq => d1 ?= d2
            | c => c
            end
    | c => c
    end.
Proof.
  intros (Hy1 & Hm1 & Hd1) (Hy2 & Hm2 & Hd2). unfold _ymd2ord.
  pose proof (day_of_year_range y1 m1 d1 Hm1 Hd1) as R1.
  pose proof (day_of_year_range y2 m2 d2 Hm2 Hd2) as R2.
  destruct (Z.compare_spec y1 y2) as [->|Hlt|Hgt].
  - destruct (Z.compare_spec m1 m2) as [->|Hlt|Hgt].
    + destruct (Z.compare_spec d1 d2); [ apply Z.compare_eq_iff | apply Z.compare_lt_iff
                                       | apply Z.compare_gt_iff ]; lia.
    + pose proof (days_before_month_mono y2 m1 m2 d1 Hm1 Hm2 Hlt Hd1).
      apply Z.compare_lt_iff. lia.
    + pose proof (days_before_month_mono y2 m2 m1 d2 Hm2 Hm1 Hgt Hd2).
      apply Z.compare_gt_iff. lia.
  - pose proof (days_before_year_next y1) as Hn.
    pose proof (days_before_year_mono (y1 + 1) y2 ltac:(lia)).
    apply Z.compare_lt_iff. lia.
  - pose proof (days_before_year_next y2) as Hn.
    pose proof (days_before_year_mono (y2 + 1) y1 ltac:(lia)).
    apply Z.compare_gt_iff. lia.
Qed.

Lemma days_before_year_blocks (a b c e : Z) :
  0 <= b <= 3 -> 0 <= c <= 24 -> 0 <= e <= 3 ->
  _days_before_year (a * 400 + 1 + (b * 100 + c * 4 + e)) =
    146097 * a + 36524 * b + 1461 * c + 365 * e.
Proof.
  intros Hb Hc He. unfold _days_before_year.
  Z.to_euclidean_division_equations. lia.
Qed.

Lemma is_leap_blocks (a b c e : Z) :
  0 <= b <= 3 -> 0 <= c <= 24 -> 0 <= e <= 3 ->
  _is_leap (a * 400 + 1 + (b * 100 + c * 4 + e)) =
    (e =? 3) && (negb (c =? 24) || (b =? 3)).
Proof.
  intros Hb Hc He.
  destruct ((e =? 3) && (negb (c =? 24) || (b =? 3))) eqn:Hl.
  - apply is_leap_spec.
    apply andb_prop in Hl as [H3 Hor]. apply Z.eqb_eq in H3.
    apply orb_prop in Hor as [Hor|Hor].
    + apply negb_true_iff, Z.eqb_neq in Hor.
      Z.to_euclidean_division_equations. lia.
    + apply Z.eqb_eq in Hor. Z.to_euclidean_division_equations. lia.
  - destruct (_is_leap _) eqn:Hy; [ | reflexivity ].
    apply is_leap_spec in Hy.
    apply andb_false_iff in Hl as [H3|Hor].
    + apply Z.eqb_neq in H3. Z.to_euclidean_division_equations. lia.
    + apply orb_false_iff in Hor as [H24 Hb3].
      apply negb_false_iff, Z.eqb_eq in H24. apply Z.eqb_neq in Hb3.
      Z.to_euclidean_division_equations. lia.
Qed.

Lemma month_and_day_spec (n : Z) (leapyear : bool) (m d : Z) :
  0 <= n < 365 ->
  month_and_day n leapyear = (m, d) ->
  1 <= m <= 12 /\
  1 <= d <= (if (m =? 2) && leapyear then 29 else _DAYS_IN_MONTH m) /\
  _DAYS_BEFORE_MONTH m + (if (2 <? m) && leapyear then 1 else 0) + d = n + 1.
Proof.
  intros Hn. unfold month_and_day. rewrite Z.shiftr_div_pow2 by lia.
  change (2 ^ 5) with 32.
  remember ((n + 50) / 32) as k eqn:Hk.
  assert (Hq : 32 * k <= n + 50 < 32 * k + 32)
    by (subst k; Z.to_euclidean_division_equations; lia).
  clear Hk.
  assert (Hk : 1 <= k <= 12) by lia.
  destruct (month_cases k Hk) as [->|[->|[->|[->|[->|[->|[->|[->|[->|[->|[->| ->]]]]]]]]]]];
    destruct leapyear; simpl;
    match goal with
    | |- context [ if ?c then _ else _ ] =>
        destruct c eqn:Hc;
        [ apply Z.ltb_lt in Hc | apply Z.ltb_ge in Hc ]
    end;
    intros [= <- <-]; simpl; lia.
Qed.

Lemma ord2ymd_spec (n y m d : Z) :
  1 <= n <= MAXORDINAL ->
  _ord2ymd n = (y, m, d) ->
  valid_date y m d /\ _ymd2ord y m d = n.
Proof.
  intros Hn. unfold _ord2ymd, _DI400Y, _DI100Y, _DI4Y, MAXORDINAL in *.
  remember ((n - 1) / 146097) as a eqn:Ha.
  remember ((n - 1) mod 146097) as r400 eqn:Hr400.
  remember (r400 / 36524) as b eqn:Hb.
  remember (r400 mod 36524) as r100 eqn:Hr100.
  remember (r100 / 1461) as c eqn:Hc.
  remember (r100 mod 1461) as r4 eqn:Hr4.
  remember (r4 / 365) as e eqn:He.
  remember (r4 mod 365) as r1 eqn:Hr1.
  assert (E1 : n - 1 = 146097 * a + r400 /\ 0 <= r400 < 146097)
    by (subst a r400; Z.to_euclidean_division_equations; lia).
  assert (E2 : r400 = 36524 * b + r100 /\ 0 <= r100 < 36524)
    by (subst b r100; Z.to_euclidean_division_equations; lia).
  assert (E3 : r100 = 1461 * c + r4 /\ 0 <= r4 < 1461)
    by (subst c r4; Z.to_euclidean_division_equations; lia).
  assert (E4 : r4 = 365 * e + r1 /\ 0 <= r1 < 365)
    by (subst e r1; Z.to_euclidean_division_equations; lia).
  clear Ha Hr400 Hb Hr100 Hc Hr4 He Hr1.
  assert (Ba : 0 <= a <= 24) by lia.
  assert (Bb : 0 <= b <= 4) by lia.
  assert (Bc : 0 <= c <= 24) by lia.
  assert (Be : 0 <= e <= 4) by lia.
  destruct ((e =? 4) || (b =? 4)) eqn:Hspecial.
  - intros [= <- <- <-].
    apply orb_prop in Hspecial as [H4|H4]; apply Z.eqb_eq in H4; subst.
    + (* the last day of a four-year block *)
      assert (Bb' : 0 <= b <= 3) by lia.
      assert (Bc' : 0 <= c <= 23) by lia.
      replace (a * 400 + 1 + (b * 100 + c * 4 + 4) - 1)
        with (a * 400 + 1 + (b * 100 + c * 4 + 3)) by lia.
      pose proof (days_before_year_blocks a b c 3 Bb' ltac:(lia) ltac:(lia)) as Hd.
      pose proof (is_leap_blocks a b c 3 Bb' ltac:(lia) ltac:(lia)) as Hl.
      replace ((3 =? 3) && (negb (c =? 24) || (b =? 3))) with true in Hl
        by (destruct (c =? 24) eqn:H24; [ apply Z.eqb_eq in H24; lia | reflexivity ]).
      unfold valid_date, _ymd2ord, _days_in_month, _days_before_month,
        MINYEAR, MAXYEAR.
      rewrite Hl, Hd. simpl. lia.
    + (* the last day of a 400-year block *)
      assert (r100 = 0 /\ c = 0 /\ e = 0 /\ r1 = 0) as (-> & -> & -> & ->) by lia.
      replace (a * 400 + 1 + (4 * 100 + 0 * 4 + 0) - 1)
        with (a * 400 + 1 + (3 * 100 + 24 * 4 + 3)) by lia.
      pose proof (days_before_year_blocks a 3 24 3 ltac:(lia) ltac:(lia) ltac:(lia)) as Hd.
      pose proof (is_leap_blocks a 3 24 3 ltac:(lia) ltac:(lia) ltac:(lia)) as Hl.
      simpl in Hl.
      unfold valid_date, _ymd2ord, _days_in_month, _days_before_month,
        MINYEAR, MAXYEAR.
      rewrite Hl, Hd. simpl. lia.
  - apply orb_false_iff in Hspecial as [He4 Hb4].
    apply Z.eqb_neq in He4. apply Z.eqb_neq in Hb4.
    assert (Bb' : 0 <= b <= 3) by lia.
    assert (Be' : 0 <= e <= 3) by lia.
    pose proof (days_before_year_blocks a b c e Bb' Bc Be') as Hd.
    pose proof (is_leap_blocks a b c e Bb' Bc Be') as Hl.
    destruct (month_and_day r1 ((e =? 3) && (negb (c =? 24) || (b =? 3))))
      as [m' d'] eqn:Hmd.
    intros [= <- <- <-].
    apply month_and_day_spec in Hmd as (Hm & Hday & Hsum); [ | lia ].
    unfold valid_date, _ymd2ord, _days_in_month, _days_before_month,
      MINYEAR, MAXYEAR.
    rewrite Hl, Hd. split; [ | lia ].
    split; [ | split; [ exact Hm | exact Hday ] ].
    assert (Hmin : 0 <= _DAYS_BEFORE_MONTH m'
                        + (if (2 <? m') && ((e =? 3) && (negb (c =? 24) || (b =? 3)))
                           then 1 else 0)).
    { destruct (month_cases m' Hm) as [->|[->|[->|[->|[->|[->|[->|[->|[->|[->|[->| ->]]]]]]]]]]];
        destruct ((e =? 3) && (negb (c =? 24) || (b =? 3))); simpl; lia. }
    lia.
Qed.
End CalendarFacts.

(** ** Time: the order of ISO texts is the order of instants *)

Section DateTimeFacts.
Import DateTime.
Local Open Scope Z_scope.

Lemma text_compare_cons (x y : ascii) (a b : string) :
  text_compare (String x a) (String y b) =
    match Nat.compare (nat_of_ascii x) (nat_of_ascii y) with
    | Eq => text_compare a b
    | c => c
    end.
Proof. reflexivity. Qed.

Lemma text_compare_refl (s : string) : text_compare s s = Eq.
Proof.
  induction s as [|c s IH]; [ reflexivity | ].
  rewrite text_compare_cons, Nat.compare_refl. exact IH.
Qed.

Lemma text_compare_same_char (c : ascii) (s t : string) :
  text_compare (String c s) (String c t) = text_compare s t.
Proof. rewrite text_compare_cons, Nat.compare_refl. reflexivity. Qed.

Lemma nat_of_digit (n : Z) : 0 <= n <= 9 -> nat_of_ascii (digit n) = (48 + Z.to_nat n)%nat.
Proof. intros H. unfold digit. apply nat_ascii_embedding. lia. Qed.

Lemma digit_compare (x y : Z) :
  0 <= x <= 9 -> 0 <= y <= 9 ->
  Nat.compare (nat_of_ascii (digit x)) (nat_of_ascii (digit y)) = (x ?= y).
Proof.
  intros Hx Hy. rewrite !nat_of_digit by assumption.
  destruct (Z.compare_spec x y);
    [ apply Nat.compare_eq_iff | apply Nat.compare_lt_iff | apply Nat.compare_gt_iff ];
    lia.
Qed.

(** Numbers printed with the same number of digits are ordered as their
    texts, whatever follows. *)
Lemma zero_padded_compare (w : nat) (x y : Z) (s t : string) :
  0 <= x -> 0 <= y ->
  text_compare (zero_padded w x ++ s) (zero_padded w y ++ t) =
    match x mod 10 ^ Z.of_nat w ?= y mod 10 ^ Z.of_nat w with
    | Eq => text_compare s t
    | c => c
    end.
Proof.
  intros Hx Hy. induction w as [|w IH].
  - simpl. rewrite !Z.mod_1_r. reflexivity.
  - cbn [zero_padded].
    change (String ?c ?u ++ ?v)%string with (String c (u ++ v)).
    rewrite text_compare_cons.
    set (p := 10 ^ Z.of_nat w) in *.
    assert (Hp : 0 < p) by (apply Z.pow_pos_nonneg; lia).
    replace (10 ^ Z.of_nat (S w)) with (p * 10)
      by (rewrite Nat2Z.inj_succ, Z.pow_succ_r by lia; unfold p; lia).
    rewrite !Z.rem_mul_r by lia.
    assert (Dx : 0 <= (x / p) mod 10 <= 9) by (pose proof (Z.mod_pos_bound (x / p) 10); lia).
    assert (Dy : 0 <= (y / p) mod 10 <= 9) by (pose proof (Z.mod_pos_bound (y / p) 10); lia).
    pose proof (Z.mod_pos_bound x p Hp) as Mx.
    pose proof (Z.mod_pos_bound y p Hp) as My.
    rewrite digit_compare by assumption. rewrite IH.
    destruct (Z.compare_spec ((x / p) mod 10) ((y / p) mod 10)) as [He|Hl|Hg];
      [ destruct (Z.compare_spec (x mod p) (y mod p)) as [He'|Hl'|Hg'] | | ];
      match goal with
      | |- ?c = match ?l ?= ?r with _ => _ end =>
          first
            [ replace (l ?= r) with Eq by (symmetry; apply Z.compare_eq_iff; nia)
            | replace (l ?= r) with Lt by (symmetry; apply Z.compare_lt_iff; nia)
            | replace (l ?= r) with Gt by (symmetry; apply Z.compare_gt_iff; nia) ]
      end; reflexivity.
Qed.

Lemma zero_padded_compare_small (w : nat) (x y : Z) (s t : string) :
  0 <= x < 10 ^ Z.of_nat w -> 0 <= y < 10 ^ Z.of_nat w ->
  text_compare (zero_padded w x ++ s) (zero_padded w y ++ t) =
    match x ?= y with
    | Eq => text_compare s t
    | c => c
    end.
Proof.
  intros Hx Hy. rewrite zero_padded_compare by lia.
  rewrite !Z.mod_small by assumption. reflexivity.
Qed.

Lemma append_empty (s : string) : (s ++ "")%string = s.
Proof.
  induction s as [|c s IH]; [ reflexivity | ].
  change (String c (s ++ "") = String c s)%string. f_equal. exact IH.
Qed.

Lemma fraction_compare (x y : Z) :
  0 <= x < 1000000 -> 0 <= y < 1000000 ->
  text_compare (if Z.eqb x 0 then "" else "." ++ zero_padded 6 x)%string
               (if Z.eqb y 0 then "" else "." ++ zero_padded 6 y)%string
  = (x ?= y).
Proof.
  intros Hx Hy.
  destruct (Z.eqb_spec x 0) as [->|Hx0]; destruct (Z.eqb_spec y 0) as [->|Hy0].
  - reflexivity.
  - change (Lt = (0 ?= y)). symmetry. apply Z.compare_lt_iff. lia.
  - change (Gt = (x ?= 0)). symmetry. apply Z.compare_gt_iff. lia.
  - change ("." ++ ?u)%string with (String "."%char u).
    rewrite text_compare_same_char.
    pose proof (zero_padded_compare_small 6 x y "" "" ltac:(simpl; lia) ltac:(simpl; lia))
      as H.
    rewrite !append_empty in H. rewrite H.
    destruct (x ?= y); reflexivity.
Qed.

Lemma days_in_month_bound (y m : Z) : 1 <= m <= 12 -> _days_in_month y m <= 31.
Proof.
  intros Hm. unfold _days_in_month.
  destruct (month_cases m Hm) as [->|[->|[->|[->|[->|[->|[->|[->|[->|[->|[->| ->]]]]]]]]]]];
    destruct (_is_leap y); simpl; lia.
Qed.

Lemma isoformat_compare_fields (a b : datetime) :
  valid a -> valid b ->
  text_compare (isoformat a) (isoformat b) =
    lex (year a ?= year b) (lex (month a ?= month b) (lex (day a ?= day b)
      (lex (hour a ?= hour b) (lex (minute a ?= minute b)
        (lex (second a ?= second b) (microsecond a ?= microsecond b)))))).
Proof.
  intros ((Hya & Hma & Hda) & Hha & Hmia & Hsa & Hua)
         ((Hyb & Hmb & Hdb) & Hhb & Hmib & Hsb & Hub).
  pose proof (days_in_month_bound (year a) (month a) Hma).
  pose proof (days_in_month_bound (year b) (month b) Hmb).
  unfold MINYEAR, MAXYEAR in *. unfold isoformat, lex.
  repeat match goal with
         | |- context [ (String ?c EmptyString ++ ?u)%string ] =>
             change (String c EmptyString ++ u)%string with (String c u)
         end.
  repeat first [ rewrite zero_padded_compare_small by (simpl; lia)
               | rewrite text_compare_same_char ].
  rewrite fraction_compare by assumption.
  destruct (year a ?= year b), (month a ?= month b), (day a ?= day b),
    (hour a ?= hour b), (minute a ?= minute b), (second a ?= second b);
    reflexivity.
Qed.

Lemma time_us_range (d : datetime) : valid d -> 0 <= time_us d < us_per_day.
Proof.
  unfold valid, time_us, us_per_day, us_per_second. intros H. lia.
Qed.

Lemma text_compare_iso (a b : datetime) :
  valid a -> valid b ->
  text_compare (isoformat a) (isoformat b) = (to_us a ?= to_us b).
Proof.
  intros Ha Hb. rewrite isoformat_compare_fields by assumption.
  pose proof (ymd2ord_compare (year a) (month a) (day a)
                (year b) (month b) (day b) (proj1 Ha) (proj1 Hb)) as Hdate.
  unfold to_us, toordinal.
  destruct Ha as (_ & Hha & Hmia & Hsa & Hua).
  destruct Hb as (_ & Hhb & Hmib & Hsb & Hub).
  unfold time_us, us_per_day, us_per_second, lex.
  set (oa := _ymd2ord (year a) (month a) (day a)) in *.
  set (ob := _ymd2ord (year b) (month b) (day b)) in *.
  assert (Hlex :
    match year a ?= year b with
    | Eq => match month a ?= month b with
            | Eq => match day a ?= day b with
                    | Eq => Eq | c => c end
            | c => c end
    | c => c end = (oa ?= ob) \/ True) by (right; exact I).
  clear Hlex.
  destruct (Z.compare_spec oa ob) as [Ho|Ho|Ho].
  - destruct (year a ?= year b); try discriminate.
    destruct (month a ?= month b); try discriminate.
    rewrite <- Hdate.
    destruct (Z.compare_spec (hour a) (hour b));
      [ destruct (Z.compare_spec (minute a) (minute b));
        [ destruct (Z.compare_spec (second a) (second b));
          [ destruct (Z.compare_spec (microsecond a) (microsecond b)) | | ]
        | | ]
      | | ];
      symmetry;
      first [ apply Z.compare_eq_iff; lia
            | apply Z.compare_lt_iff; lia
            | apply Z.compare_gt_iff; lia ].
  - assert (Hd : match year a ?= year b with
                 | Eq => match month a ?= month b with
                         | Eq => day a ?= day b
                         | c => c end
                 | c => c end = Lt) by (symmetry; exact Hdate).
    assert (Hl : oa * (86400 * 1000000)
                 + (((hour a * 60 + minute a) * 60 + second a) * 1000000 + microsecond a)
                 < ob * (86400 * 1000000)
                 + (((hour b * 60 + minute b) * 60 + second b) * 1000000 + microsecond b))
      by lia.
    apply Z.compare_lt_iff in Hl. rewrite Hl.
    destruct (year a ?= year b); try discriminate; try reflexivity.
    destruct (month a ?= month b); try discriminate; try reflexivity.
    rewrite Hd. reflexivity.
  - assert (Hd : match year a ?= year b with
                 | Eq => match month a ?= month b with
                         | Eq => day a ?= day b
                         | c => c end
                 | c => c end = Gt) by (symmetry; exact Hdate).
    assert (Hl : ob * (86400 * 1000000)
                 + (((hour b * 60 + minute b) * 60 + second b) * 1000000 + microsecond b)
                 < oa * (86400 * 1000000)
                 + (((hour a * 60 + minute a) * 60 + second a) * 1000000 + microsecond a))
      by lia.
    apply Z.compare_gt_iff in Hl. rewrite Hl.
    destruct (year a ?= year b); try discriminate; try reflexivity.
    destruct (month a ?= month b); try discriminate; try reflexivity.
    rewrite Hd. reflexivity.
Qed.

Lemma text_ltb_iso (a b : datetime) :
  valid a -> valid b ->
  text_ltb (isoformat a) (isoformat b) = true <-> to_us a < to_us b.
Proof.
  intros Ha Hb. unfold text_ltb. rewrite text_compare_iso by assumption.
  destruct (Z.compare_spec (to_us a) (to_us b)); split; intros; try lia; congruence.
Qed.

Lemma text_ltb_iso_false (a b : datetime) :
  valid a -> valid b ->
  text_ltb (isoformat a) (isoformat b) = false <-> to_us b <= to_us a.
Proof.
  intros Ha Hb. unfold text_ltb. rewrite text_compare_iso by assumption.
  destruct (Z.compare_spec (to_us a) (to_us b)); split; intros; try lia; congruence.
Qed.

Lemma toordinal_range (d : datetime) : valid d -> 1 <= toordinal d <= MAXORDINAL.
Proof.
  intros [Hd _]. unfold toordinal.
  assert (Hlo : valid_date 1 1 1)
    by (unfold valid_date; repeat split; apply Z.leb_le; reflexivity).
  assert (Hhi : valid_date 9999 12 31)
    by (unfold valid_date; repeat split; apply Z.leb_le; reflexivity).
  pose proof (ymd2ord_compare 1 1 1 (year d) (month d) (day d) Hlo Hd) as Clo.
  pose proof (ymd2ord_compare (year d) (month d) (day d) 9999 12 31 Hd Hhi) as Chi.
  destruct Hd as (Hy & Hm & Hday).
  pose proof (days_in_month_bound (year d) (month d) Hm) as Hb.
  unfold MINYEAR, MAXYEAR in *.
  change (_ymd2ord 1 1 1) with 1 in Clo.
  change (_ymd2ord 9999 12 31) with MAXORDINAL in Chi.
  split.
  - apply Z.compare_ge_iff. rewrite Z.compare_antisym. rewrite Clo.
    destruct (Z.compare_spec 1 (year d)); [ | discriminate | lia ].
    destruct (Z.compare_spec 1 (month d)); [ | discriminate | lia ].
    destruct (Z.compare_spec 1 (day d)); [ discriminate | discriminate | lia ].
  - unfold Z.le. rewrite Chi.
    destruct (Z.compare_spec (year d) 9999); [ | discriminate | lia ].
    destruct (Z.compare_spec (month d) 12); [ | discriminate | lia ].
    destruct (Z.compare_spec (day d) 31); [ discriminate | discriminate | lia ].
Qed.

Lemma valid_replace_midnight (d : datetime) :
  valid d -> valid (replace_midnight d).
Proof. unfold valid, replace_midnight. simpl. intros H. split; [ apply H | lia ]. Qed.

Lemma to_us_replace_midnight (d : datetime) :
  to_us (replace_midnight d) = to_us d - time_us d.
Proof. unfold to_us, toordinal, replace_midnight, time_us. simpl. lia. Qed.

(** Subtraction moves the instant by the delta and yields a well-formed
    [datetime]. *)
Lemma sub_spec (d d' : datetime) (delta : Z) :
  sub d delta = Some d' -> to_us d' = to_us d - delta /\ valid d'.
Proof.
  unfold sub. set (t := to_us d - delta).
  destruct ((0 <? t / us_per_day) && (t / us_per_day <=? MAXORDINAL)) eqn:Hr;
    [ | discriminate ].
  apply andb_prop in Hr as [H1 H2].
  apply Z.ltb_lt in H1. apply Z.leb_le in H2.
  destruct (_ord2ymd (t / us_per_day)) as [[y m] dd] eqn:Hymd.
  apply ord2ymd_spec in Hymd as [Hv Ho]; [ | lia ].
  intros [= <-].
  unfold to_us, toordinal, time_us, valid; simpl. rewrite Ho.
  split; [ | split; [ exact Hv | ] ];
    unfold us_per_day, us_per_second, MAXORDINAL in *;
    Z.to_euclidean_division_equations; lia.
Qed.

Lemma timedelta_days (days delta : Z) :
  timedelta days 0 = Some delta -> delta = days * us_per_day.
Proof.
  unfold timedelta.
  destruct (_ && _); [ | discriminate ]. intros [= <-]. lia.
Qed.
End DateTimeFacts.

(** ** The recordings table *)

Section DatabaseFacts.
Import DateTime Database.
Local Open Scope Z_scope.

Lemma cutoff_date_spec (now cutoff : datetime) (days : Z) :
  valid now ->
  cutoff_date now days = Some cutoff ->
  to_us cutoff = to_us now - time_us now - days * us_per_day /\ valid cutoff.
Proof.
  intros Hnow. unfold cutoff_date.
  destruct (timedelta days 0) as [delta|] eqn:Hd; [ | discriminate ].
  apply timedelta_days in Hd. subst delta. intros Hs.
  apply sub_spec in Hs as [Hus Hv]. rewrite to_us_replace_midnight in Hus.
  split; [ lia | exact Hv ].
Qed.

Lemma cutoff_date_30_exists (now : datetime) :
  valid now -> 30 < toordinal now ->
  exists cutoff, cutoff_date now 30 = Some cutoff.
Proof.
  intros Hnow Hord. unfold cutoff_date.
  replace (timedelta 30 0) with (Some (30 * us_per_day)) by reflexivity.
  unfold sub. rewrite to_us_replace_midnight.
  assert (Hq : (to_us now - time_us now - 30 * us_per_day) / us_per_day
               = toordinal now - 30).
  { unfold to_us.
    replace (toordinal now * us_per_day + time_us now - time_us now
             - 30 * us_per_day) with ((toordinal now - 30) * us_per_day) by lia.
    apply Z.div_mul. unfold us_per_day, us_per_second. lia. }
  rewrite Hq.
  pose proof (toordinal_range now Hnow) as Ho. unfold MAXORDINAL in *.
  destruct (0 <? toordinal now - 30) eqn:H1; [ | apply Z.ltb_ge in H1; lia ].
  destruct (toordinal now - 30 <=? 3652059) eqn:H2; [ | apply Z.leb_gt in H2; lia ].
  simpl. destruct (_ord2ymd (toordinal now - 30)) as [[y m] dd].
  eexists. reflexivity.
Qed.

Lemma older_than_iff (cutoff : datetime) (r : Recording) :
  valid cutoff -> valid (timestamp r) ->
  older_than cutoff r = true <-> to_us (timestamp r) < to_us cutoff.
Proof. intros Hc Hr. unfold older_than. apply text_ltb_iso; assumption. Qed.

Lemma cleanup_with_cutoff (db : table) (now cutoff : datetime) (days : Z) :
  cutoff_date now days = Some cutoff ->
  cleanup_old_recordings StorageOk db now days =
    (List.filter (fun r => negb (older_than cutoff r)) db,
     Z.of_nat (length (List.filter (older_than cutoff) db))).
Proof. intros H. unfold cleanup_old_recordings. rewrite H. reflexivity. Qed.

Lemma cleanup_kept_iff (db : table) (now cutoff : datetime) (days : Z) (r : Recording) :
  valid now -> timestamps_valid db ->
  cutoff_date now days = Some cutoff ->
  In r (fst (cleanup_old_recordings StorageOk db now days)) <->
  In r db /\ to_us cutoff <= to_us (timestamp r).
Proof.
  intros Hnow Hdb Hc. rewrite (cleanup_with_cutoff db now cutoff days Hc).
  cbn [fst].
  destruct (cutoff_date_spec now cutoff days Hnow Hc) as [_ Hv].
  rewrite List.filter_In. split.
  - intros [Hin Hk]. split; [ exact Hin | ].
    apply negb_true_iff in Hk.
    apply (text_ltb_iso_false (timestamp r) cutoff); auto.
  - intros [Hin Hk]. split; [ exact Hin | ].
    apply negb_true_iff.
    apply (text_ltb_iso_false (timestamp r) cutoff); auto.
Qed.

(** C1 (as amended).  With a working store and valid timestamps,
    [cleanup_old_recordings(days)] keeps exactly the rows whose timestamp is
    not strictly before "today at midnight minus [days] days", in their
    order, and returns the number of rows it deleted.  For every current
    time [now], [cleanup_old_recordings(30)] keeps a row stamped exactly 29
    days before [now]; a row stamped exactly 30 days and 1 second before
    [now] is deleted exactly when [now] is less than one second past
    midnight, and is kept at every other time of day. *)
Theorem cleanup_old_recordings_midnight_cutoff
    (db : table) (now : datetime) :
  valid now -> timestamps_valid db ->
  (forall days cutoff, cutoff_date now days = Some cutoff ->
     to_us cutoff = to_us (replace_midnight now) - days * us_per_day /\
     (forall r, In r (fst (cleanup_old_recordings StorageOk db now days)) <->
                In r db /\ ~ to_us (timestamp r) < to_us cutoff) /\
     fst (cleanup_old_recordings StorageOk db now days) =
       List.filter (fun r => negb (older_than cutoff r)) db /\
     snd (cleanup_old_recordings StorageOk db now days) =
       Z.of_nat (length db) -
       Z.of_nat (length (fst (cleanup_old_recordings StorageOk db now days)))) /\
  (forall r, In r db ->
     to_us (timestamp r) = to_us now - 29 * us_per_day ->
     In r (fst (cleanup_old_recordings StorageOk db now 30))) /\
  (forall r, In r db ->
     to_us (timestamp r) = to_us now - 30 * us_per_day - 1 * us_per_second ->
     (In r (fst (cleanup_old_recordings StorageOk db now 30)) <->
      us_per_second <= time_us now)).
Proof.
  intros Hnow Hdb. split; [ | split ].
  - intros days cutoff Hc.
    destruct (cutoff_date_spec now cutoff days Hnow Hc) as [Hus Hv].
    split; [ rewrite to_us_replace_midnight; lia | ].
    split; [ | split ].
    + intros r. rewrite (cleanup_kept_iff db now cutoff days r Hnow Hdb Hc).
      split; intros [Hin Hk]; (split; [ exact Hin | lia ]).
    + rewrite (cleanup_with_cutoff db now cutoff days Hc). reflexivity.
    + rewrite (cleanup_with_cutoff db now cutoff days Hc). cbn [fst snd].
      pose proof (List.filter_length (older_than cutoff) db) as Hlen. lia.
  - intros r Hin Hts.
    destruct (cutoff_date now 30) as [cutoff|] eqn:Hc.
    + apply (cleanup_kept_iff db now cutoff 30 r Hnow Hdb Hc).
      split; [ exact Hin | ].
      destruct (cutoff_date_spec now cutoff 30 Hnow Hc) as [Hus _].
      pose proof (time_us_range now Hnow). unfold us_per_day in *. lia.
    + unfold cleanup_old_recordings. rewrite Hc. exact Hin.
  - intros r Hin Hts.
    assert (Hord : 30 < toordinal now).
    { pose proof (Hdb r Hin) as Hr. pose proof (time_us_range _ Hr) as Ht.
      pose proof (time_us_range now Hnow) as Hn.
      pose proof (toordinal_range _ Hr) as Ho. unfold to_us in Hts.
      unfold us_per_day, us_per_second in *. lia. }
    destruct (cutoff_date_30_exists now Hnow Hord) as [cutoff Hc].
    rewrite (cleanup_kept_iff db now cutoff 30 r Hnow Hdb Hc).
    destruct (cutoff_date_spec now cutoff 30 Hnow Hc) as [Hus _].
    unfold us_per_day, us_per_second in *. split.
    + intros [_ Hle]. lia.
    + intros Hle. split; [ exact Hin | lia ].
Qed.
End DatabaseFacts.

Section CleanupCases.
Import DateTime Database Samples.
Local Open Scope Z_scope.

Lemma valid_noon : valid noon.
Proof.
  unfold valid, valid_date. repeat split; first [ apply Z.leb_le | apply Z.ltb_lt ]; reflexivity.
Qed.

Lemma cleanup_sample_valid : timestamps_valid cleanup_table.
Proof.
  intros r [<-|[<-|[<-|[]]]]; unfold valid, valid_date;
    repeat split; first [ apply Z.leb_le | apply Z.ltb_lt ]; reflexivity.
Qed.

(** At noon of 2024-04-24 the cut-off of [cleanup_old_recordings(30)] is
    2024-03-25T00:00:00: of the three rows only the one from 2021 goes, the
    row stamped 29 days earlier is kept, and the fate of the row stamped 30
    days and 1 second earlier follows the time of day. *)
Lemma cleanup_old_recordings_midnight_cutoff_witness :
  valid noon /\
  timestamps_valid cleanup_table /\
  cutoff_date noon 30 = Some (replace_midnight
                                (timestamp thirty_days_one_second_before_noon)) /\
  fst (cleanup_old_recordings StorageOk cleanup_table noon 30)
    = [thirty_days_one_second_before_noon; twenty_nine_days_before_noon] /\
  snd (cleanup_old_recordings StorageOk cleanup_table noon 30) = 1 /\
  In twenty_nine_days_before_noon
     (fst (cleanup_old_recordings StorageOk cleanup_table noon 30)) /\
  (In thirty_days_one_second_before_noon
      (fst (cleanup_old_recordings StorageOk cleanup_table noon 30)) <->
   us_per_second <= time_us noon).
Proof.
  split; [ exact valid_noon | ].
  split; [ exact cleanup_sample_valid | ].
  destruct (cleanup_old_recordings_midnight_cutoff
              cleanup_table noon valid_noon cleanup_sample_valid) as [HA [H29 H30]].
  assert (Hc : cutoff_date noon 30
               = Some (replace_midnight
                         (timestamp thirty_days_one_second_before_noon)))
    by reflexivity.
  destruct (HA 30 _ Hc) as (_ & _ & Hkept & Hcount).
  split; [ exact Hc | ].
  split; [ rewrite Hkept; reflexivity | ].
  split; [ rewrite Hcount, Hkept; reflexivity | ].
  split.
  - apply H29; [ right; right; left; reflexivity | reflexivity ].
  - apply H30; [ right; left; reflexivity | reflexivity ].
Defined.

(** C1, counterexample.  With the clock at 2024-04-24T12:00:00 a row stamped
    exactly 30 days and 1 second earlier (2024-03-25T11:59:59) is not before
    the cut-off 2024-03-25T00:00:00: [cleanup_old_recordings(30)] deletes
    nothing and returns 0. *)
Lemma cleanup_30_days_1_second_kept_at_noon :
  match timedelta 30 1 with
  | Some delta => sub noon delta
  | None => None
  end = Some (timestamp thirty_days_one_second_before_noon) /\
  to_us (timestamp thirty_days_one_second_before_noon)
    = to_us noon - 30 * us_per_day - 1 * us_per_second /\
  isoformat (timestamp thirty_days_one_second_before_noon)
    = "2024-03-25T11:59:59"%string /\
  option_map isoformat (cutoff_date noon 30) = Some "2024-03-25T00:00:00"%string /\
  cleanup_old_recordings StorageOk [thirty_days_one_second_before_noon] noon 30
    = ([thirty_days_one_second_before_noon], 0).
Proof. repeat split; vm_compute; reflexivity. Qed.

(** Half a second past midnight the same cut-off is a day later and a row
    stamped 30 days and 1 second before the clock is deleted. *)
Example cleanup_30_days_1_second_deleted_after_midnight :
  cleanup_old_recordings StorageOk
    [recording_at "old"
       {| year := 2024; month := 3; day := 24;
          hour := 23; minute := 59; second := 59; microsecond := 500000 |} 1 None]
    after_midnight 30 = ([], 1).
Proof. reflexivity. Qed.
End CleanupCases.

(** ** Updates, deletions and limits *)

Section RowFacts.
Import DateTime Database.
Local Open Scope Z_scope.

Lemma update_no_match (db : table) (r : Recording) :
  (forall x, In x db -> id x <> id r) ->
  List.map (update_row r) db = db.
Proof.
  induction db as [|x db IH]; intros Hno; simpl; [ reflexivity | ].
  rewrite IH by (intros y Hy; apply Hno; right; exact Hy).
  unfold update_row, has_id. rewrite bool_decide_false; [ reflexivity | ].
  apply Hno. left. reflexivity.
Qed.

Lemma existsb_no_match (db : table) (rid : string) :
  (forall x, In x db -> id x <> rid) ->
  existsb (has_id rid) db = false.
Proof.
  induction db as [|x db IH]; intros Hno; simpl; [ reflexivity | ].
  rewrite IH by (intros y Hy; apply Hno; right; exact Hy).
  unfold has_id. rewrite bool_decide_false; [ reflexivity | ].
  apply Hno. left. reflexivity.
Qed.

Lemma filter_no_match (db : table) (rid : string) :
  (forall x, In x db -> id x <> rid) ->
  List.filter (has_id rid) db = [] /\
  List.filter (fun r => negb (has_id rid r)) db = db.
Proof.
  induction db as [|x db IH]; intros Hno; simpl; [ split; reflexivity | ].
  destruct IH as [IH1 IH2]; [ intros y Hy; apply Hno; right; exact Hy | ].
  assert (Hx : has_id rid x = false).
  { unfold has_id. apply bool_decide_eq_false. apply Hno. left. reflexivity. }
  rewrite Hx. simpl. rewrite IH1, IH2. split; reflexivity.
Qed.


Lemma insert_desc_perm (r : Recording) (rows : list Recording) :
  Permutation (insert_desc r rows) (r :: rows).
Proof.
  induction rows as [|x rows IH]; cbn [insert_desc]; [ reflexivity | ].
  destruct (text_ltb _ _); [ reflexivity | ].
  rewrite IH. apply perm_swap.
Qed.

Lemma order_by_timestamp_desc_perm (rows : list Recording) :
  Permutation (order_by_timestamp_desc rows) rows.
Proof.
  induction rows as [|x rows IH]; simpl; [ reflexivity | ].
  rewrite insert_desc_perm. apply perm_skip. exact IH.
Qed.

Lemma insert_sorted_perm (r : Recording) (rows : list Recording) :
  Permutation (insert_sorted r rows) (r :: rows).
Proof.
  induction rows as [|x rows IH]; cbn [insert_sorted]; [ reflexivity | ].
  destruct (text_ltb _ _); [ | reflexivity ].
  rewrite IH. apply perm_swap.
Qed.

Lemma search_order_perm (lang : option string) (rows : list Recording) :
  Permutation (search_order lang rows) rows.
Proof.
  unfold search_order. destruct (truthy_str lang).
  - induction rows as [|x rows IH]; simpl; [ reflexivity | ].
    rewrite insert_sorted_perm. apply perm_skip. exact IH.
  - apply order_by_timestamp_desc_perm.
Qed.

(** C10.  A limit is applied only when it is truthy.  With [limit=0] both
    queries return what they return without a limit: under a working store
    all rows (all matching rows), newest first, whatever the offset; any
    other limit is handed to [LIMIT]. *)
Theorem limit_zero_returns_all_rows
    (st : storage) (db : table) (offset : Z) (query : string)
    (lang : option string) (date_from date_to : option datetime) :
  get_all_recordings st db (Some 0) offset = get_all_recordings st db None offset /\
  search_recordings st db query lang date_from date_to (Some 0)
    = search_recordings st db query lang date_from date_to None /\
  Permutation (get_all_recordings StorageOk db (Some 0) offset) db /\
  Permutation (search_recordings StorageOk db query lang date_from date_to (Some 0))
              (List.filter (search_where query lang date_from date_to) db) /\
  (forall l,
     get_all_recordings st db (Some l) offset =
       if l =? 0 then get_all_recordings st db None offset
       else sql_limit l offset (get_all_recordings st db None offset)) /\
  (forall l,
     search_recordings st db query lang date_from date_to (Some l) =
       if l =? 0 then search_recordings st db query lang date_from date_to None
       else sql_limit l 0 (search_recordings st db query lang date_from date_to None)).
Proof.
  split; [ destruct st; reflexivity | ].
  split; [ destruct st; reflexivity | ].
  split; [ apply order_by_timestamp_desc_perm | ].
  split; [ apply search_order_perm | ].
  split; intros l.
  - destruct st; simpl.
    + destruct (l =? 0); reflexivity.
    + destruct (l =? 0); [ reflexivity | ].
      unfold sql_limit. rewrite List.skipn_nil.
      destruct (int64 l && int64 _); [ | reflexivity ].
      destruct (l <? 0); [ reflexivity | symmetry; apply List.firstn_nil ].
  - destruct st; simpl.
    + destruct (l =? 0); reflexivity.
    + destruct (l =? 0); [ reflexivity | ].
      unfold sql_limit. rewrite List.skipn_nil.
      destruct (int64 l && int64 _); [ | reflexivity ].
      destruct (l <? 0); [ reflexivity | symmetry; apply List.firstn_nil ].
Qed.
End RowFacts.

(** ** Statistics *)

Section StatisticsFacts.
Import Float64 DateTime Database.
Local Open Scope Z_scope.

Lemma count_rows_cons (col : Recording -> option string) (k : string)
    (r : Recording) (db : table) :
  count_rows col k (r :: db) =
    (if bool_decide (col r = Some k) then 1 else 0) + count_rows col k db.
Proof.
  unfold count_rows. simpl. destruct (bool_decide (col r = Some k)); simpl; lia.
Qed.

Lemma count_rows_nonneg (col : Recording -> option string) (k : string) (db : table) :
  0 <= count_rows col k db.
Proof. unfold count_rows. lia. Qed.

(** The grouped count holds, for every non-empty value of the column, the
    number of rows with that value, and nothing else. *)
Lemma group_count_lookup (col : Recording -> option string) (db : table) (k : string) :
  group_count col db !! k =
    if bool_decide (k = EmptyString) then None
    else if count_rows col k db =? 0 then None
    else Some (count_rows col k db).
Proof.
  induction db as [|r db IH].
  - unfold group_count. simpl. rewrite lookup_empty.
    destruct (bool_decide (k = EmptyString)); reflexivity.
  - change (group_count col (r :: db))
      with (count_group col r (group_count col db)).
    rewrite count_rows_cons. pose proof (count_rows_nonneg col k db) as Hn.
    unfold count_group, group_key.
    destruct (decide (k = EmptyString)) as [Hk|Hk].
    { rewrite (bool_decide_true _ Hk) in *.
      destruct (col r) as [k'|]; [ | exact IH ].
      destruct (bool_decide (k' = EmptyString)) eqn:He; [ exact IH | ].
      apply bool_decide_eq_false in He.
      rewrite lookup_insert_ne by congruence. exact IH. }
    rewrite (bool_decide_false _ Hk) in *.
    destruct (col r) as [k'|] eqn:Hcol.
    + destruct (bool_decide (k' = EmptyString)) eqn:He.
      * apply bool_decide_eq_true in He. subst k'.
        rewrite bool_decide_false by congruence. exact IH.
      * destruct (decide (k' = k)) as [->|Hne].
        -- rewrite lookup_insert_eq. rewrite IH.
           rewrite bool_decide_true by reflexivity.
           destruct (count_rows col k db =? 0) eqn:Hz.
           ++ apply Z.eqb_eq in Hz. rewrite Hz. reflexivity.
           ++ simpl. destruct (1 + count_rows col k db =? 0) eqn:Hz'.
              ** apply Z.eqb_eq in Hz'. lia.
              ** reflexivity.
        -- rewrite lookup_insert_ne by exact Hne. rewrite IH.
           rewrite (bool_decide_false (Some k' = Some k)) by congruence.
           reflexivity.
    + rewrite IH. rewrite bool_decide_false by congruence. reflexivity.
Qed.

Lemma group_count_iff (col : Recording -> option string) (db : table)
    (k : string) (n : Z) :
  group_count col db !! k = Some n <->
  k <> EmptyString /\ 0 < n /\ n = count_rows col k db.
Proof.
  rewrite group_count_lookup. pose proof (count_rows_nonneg col k db) as Hn.
  destruct (bool_decide (k = EmptyString)) eqn:Hk.
  - apply bool_decide_eq_true in Hk. split; [ discriminate | tauto ].
  - apply bool_decide_eq_false in Hk.
    destruct (count_rows col k db =? 0) eqn:Hz.
    + apply Z.eqb_eq in Hz. split; [ discriminate | lia ].
    + apply Z.eqb_neq in Hz. split.
      * intros [= <-]. split; [ exact Hk | lia ].
      * intros (_ & _ & ->). reflexivity.
Qed.

Lemma fold_left_add (sizes : list Z) (a : Z) :
  List.fold_left Z.add sizes a = a + List.fold_right Z.add 0 sizes.
Proof.
  revert a. induction sizes as [|x sizes IH]; intros a; simpl; [ lia | ].
  rewrite IH. lia.
Qed.

(** The 64-bit sum is the sum when every running total fits, and fails
    when one does not. *)
Lemma add_int64_fits (sizes : list Z) (acc : Z) :
  (forall n, int64 (acc + List.fold_right Z.add 0 (List.firstn n sizes)) = true) ->
  add_int64 acc sizes = Some (acc + List.fold_right Z.add 0 sizes).
Proof.
  revert acc. induction sizes as [|z sizes IH]; intros acc H; simpl.
  - f_equal. lia.
  - pose proof (H 1%nat) as H1. simpl in H1. rewrite Z.add_0_r in H1. rewrite H1.
    rewrite IH.
    + f_equal. lia.
    + intros n. specialize (H (S n)). simpl in H. rewrite <- H. f_equal. lia.
Qed.

Lemma add_int64_overflow (sizes : list Z) (acc : Z) :
  int64 acc = true ->
  (exists n, int64 (acc + List.fold_right Z.add 0 (List.firstn n sizes)) = false) ->
  add_int64 acc sizes = None.
Proof.
  revert acc. induction sizes as [|z sizes IH]; intros acc Ha [n Hn].
  - rewrite List.firstn_nil in Hn. simpl in Hn. rewrite Z.add_0_r in Hn. congruence.
  - simpl. destruct (int64 (acc + z)) eqn:Hz; [ | reflexivity ].
    apply IH; [ exact Hz | ].
    destruct n as [|n]; [ simpl in Hn; rewrite Z.add_0_r in Hn; congruence | ].
    exists n. simpl in Hn. rewrite <- Hn. f_equal. lia.
Qed.

Lemma sum_file_size_fits (db : table) :
  (forall n, int64 (List.fold_right Z.add 0 (List.firstn n (omap file_size db))) = true) ->
  exists size, sum_file_size db = Some size /\
    default 0 size = List.fold_right Z.add 0 (omap file_size db).
Proof.
  intros H. unfold sum_file_size.
  destruct (omap file_size db) as [|x sizes] eqn:Hs.
  - exists None. split; reflexivity.
  - rewrite (add_int64_fits (x :: sizes) 0) by exact H.
    eexists. split; reflexivity.
Qed.

Lemma sum_file_size_overflow (db : table) :
  (exists n, int64 (List.fold_right Z.add 0 (List.firstn n (omap file_size db))) = false) ->
  sum_file_size db = None.
Proof.
  intros [n Hn]. unfold sum_file_size.
  destruct (omap file_size db) as [|x sizes] eqn:Hs.
  - rewrite List.firstn_nil in Hn. discriminate Hn.
  - rewrite (add_int64_overflow (x :: sizes) 0); [ reflexivity | reflexivity | ].
    exists n. exact Hn.
Qed.

Lemma fold_left_durations (db : table) (acc : float64) :
  List.fold_left (fun a r => add a (duration r)) db acc =
  List.fold_left add (List.map duration db) acc.
Proof.
  revert acc. induction db as [|r db IH]; intros acc; simpl; [ reflexivity | apply IH ].
Qed.

(** [row[1] or 0.0] and [row[3] or 0.0] on the sum and on the average. *)
Lemma or_zero_sum_duration (db : table) :
  or_zero (sum_duration db) =
    match List.fold_left add (List.map duration db) zero with
    | S754_nan | S754_zero _ => zero
    | total => total
    end.
Proof.
  unfold sum_duration. destruct db as [|r db]; [ reflexivity | ].
  rewrite fold_left_durations. unfold sql_real.
  destruct (List.fold_left add (List.map duration (r :: db)) zero); reflexivity.
Qed.

Lemma or_zero_avg_of_duration (db : table) :
  or_zero (avg_of_duration db) =
    match div (List.fold_left add (List.map duration db) zero)
              (of_Z (Z.of_nat (length db))) with
    | S754_nan | S754_zero _ => zero
    | average => average
    end.
Proof.
  unfold avg_of_duration. destruct db as [|r db]; [ reflexivity | ].
  rewrite fold_left_durations. unfold sql_real.
  destruct (div (List.fold_left add (List.map duration (r :: db)) zero)
                (of_Z (Z.of_nat (length (r :: db))))); reflexivity.
Qed.

(** The running minimum is the text of a row seen so far that no row seen
    so far precedes. *)
Lemma fold_text_min (rest seen : list Recording) (acc : string) :
  timestamps_valid (seen ++ rest) ->
  (exists r, In r seen /\ acc = isoformat (timestamp r) /\
     forall r', In r' seen -> to_us (timestamp r) <= to_us (timestamp r')) ->
  exists r, In r (seen ++ rest) /\
    List.fold_left (fun m x => text_min m (isoformat (timestamp x))) rest acc
      = isoformat (timestamp r) /\
    forall r', In r' (seen ++ rest) -> to_us (timestamp r) <= to_us (timestamp r').
Proof.
  revert seen acc. induction rest as [|x rest IH]; intros seen acc Hv (r & Hin & -> & Hmin).
  - rewrite List.app_nil_r. cbn [List.fold_left]. exists r. auto.
  - cbn [List.fold_left]. replace (seen ++ x :: rest) with ((seen ++ [x]) ++ rest) in *
      by (rewrite <- List.app_assoc; reflexivity).
    apply IH; [ exact Hv | ].
    assert (Hr : valid (timestamp r))
      by (apply Hv; apply List.in_or_app; left; apply List.in_or_app; left; exact Hin).
    assert (Hx : valid (timestamp x))
      by (apply Hv; apply List.in_or_app; left; apply List.in_or_app; right;
          left; reflexivity).
    unfold text_min.
    destruct (text_ltb (isoformat (timestamp x)) (isoformat (timestamp r))) eqn:Hlt.
    + apply text_ltb_iso in Hlt; [ | exact Hx | exact Hr ].
      exists x. split; [ apply List.in_or_app; right; left; reflexivity | ].
      split; [ reflexivity | ].
      intros r' Hr'. apply List.in_app_or in Hr' as [Hr'|[<-|[]]]; [ | lia ].
      specialize (Hmin r' Hr'). lia.
    + apply text_ltb_iso_false in Hlt; [ | exact Hx | exact Hr ].
      exists r. split; [ apply List.in_or_app; left; exact Hin | ].
      split; [ reflexivity | ].
      intros r' Hr'. apply List.in_app_or in Hr' as [Hr'|[<-|[]]]; [ auto | lia ].
Qed.

Lemma fold_text_max (rest seen : list Recording) (acc : string) :
  timestamps_valid (seen ++ rest) ->
  (exists r, In r seen /\ acc = isoformat (timestamp r) /\
     forall r', In r' seen -> to_us (timestamp r') <= to_us (timestamp r)) ->
  exists r, In r (seen ++ rest) /\
    List.fold_left (fun m x => text_max m (isoformat (timestamp x))) rest acc
      = isoformat (timestamp r) /\
    forall r', In r' (seen ++ rest) -> to_us (timestamp r') <= to_us (timestamp r).
Proof.
  revert seen acc. induction rest as [|x rest IH]; intros seen acc Hv (r & Hin & -> & Hmax).
  - rewrite List.app_nil_r. cbn [List.fold_left]. exists r. auto.
  - cbn [List.fold_left]. replace (seen ++ x :: rest) with ((seen ++ [x]) ++ rest) in *
      by (rewrite <- List.app_assoc; reflexivity).
    apply IH; [ exact Hv | ].
    assert (Hr : valid (timestamp r))
      by (apply Hv; apply List.in_or_app; left; apply List.in_or_app; left; exact Hin).
    assert (Hx : valid (timestamp x))
      by (apply Hv; apply List.in_or_app; left; apply List.in_or_app; right;
          left; reflexivity).
    unfold text_max.
    destruct (text_ltb (isoformat (timestamp r)) (isoformat (timestamp x))) eqn:Hlt.
    + apply text_ltb_iso in Hlt; [ | exact Hr | exact Hx ].
      exists x. split; [ apply List.in_or_app; right; left; reflexivity | ].
      split; [ reflexivity | ].
      intros r' Hr'. apply List.in_app_or in Hr' as [Hr'|[<-|[]]]; [ | lia ].
      specialize (Hmax r' Hr'). lia.
    + apply text_ltb_iso_false in Hlt; [ | exact Hr | exact Hx ].
      exists r. split; [ apply List.in_or_app; left; exact Hin | ].
      split; [ reflexivity | ].
      intros r' Hr'. apply List.in_app_or in Hr' as [Hr'|[<-|[]]]; [ auto | lia ].
Qed.

Lemma min_timestamp_spec (db : table) (t : string) :
  timestamps_valid db ->
  min_timestamp db = Some t ->
  exists r, In r db /\ t = isoformat (timestamp r) /\
    forall r', In r' db -> to_us (timestamp r) <= to_us (timestamp r').
Proof.
  intros Hv. destruct db as [|r0 rest]; [ discriminate | ].
  cbn [min_timestamp max_timestamp].
  intros [= <-].
  destruct (fold_text_min rest [r0] (isoformat (timestamp r0)) Hv) as (r & Hin & Heq & Hmin).
  - exists r0. split; [ left; reflexivity | ]. split; [ reflexivity | ].
    intros r' [<-|[]]. lia.
  - exists r. split; [ exact Hin | ]. split; [ exact Heq | exact Hmin ].
Qed.

Lemma max_timestamp_spec (db : table) (t : string) :
  timestamps_valid db ->
  max_timestamp db = Some t ->
  exists r, In r db /\ t = isoformat (timestamp r) /\
    forall r', In r' db -> to_us (timestamp r') <= to_us (timestamp r).
Proof.
  intros Hv. destruct db as [|r0 rest]; [ discriminate | ].
  cbn [min_timestamp max_timestamp].
  intros [= <-].
  destruct (fold_text_max rest [r0] (isoformat (timestamp r0)) Hv) as (r & Hin & Heq & Hmax).
  - exists r0. split; [ left; reflexivity | ]. split; [ reflexivity | ].
    intros r' [<-|[]]. lia.
  - exists r. split; [ exact Hin | ]. split; [ exact Heq | exact Hmax ].
Qed.
End StatisticsFacts.

Section StatisticsReport.
Import Float64 DateTime Database Samples.
Local Open Scope Z_scope.

(** C8.  Under a working store [get_statistics] reports the number of rows,
    the summed duration, the summed file size, the average duration, the
    oldest and the newest timestamp, and for the language and the model
    column the number of rows per value, the empty and the absent value left
    out, as long as the file sizes, added up row by row, stay within 64
    bits; once a running total leaves them it reports nothing.  A sum or an
    average that is NaN or zero is reported as [0.0].  A table that holds a
    row reports as oldest and newest the timestamp of a row that no row
    precedes, and of one that no row follows.  Three rows with durations
    1.0, 2.0, 3.0 and languages "en", "en", "fr" give
    [total_recordings = 3], [total_duration = 6.0], [avg_duration = 2.0]
    and [languages = {"en": 2, "fr": 1}]. *)
Theorem get_statistics_aggregates (db : table) :
  timestamps_valid db ->
  ((exists n, int64 (List.fold_right Z.add 0
                       (List.firstn n (omap file_size db))) = false) ->
   get_statistics StorageOk db = None) /\
  ((forall n, int64 (List.fold_right Z.add 0
                       (List.firstn n (omap file_size db))) = true) ->
   exists s, get_statistics StorageOk db = Some s /\
     total_recordings s = Z.of_nat (length db) /\
     total_duration s =
       match List.fold_left add (List.map duration db) zero with
       | S754_nan | S754_zero _ => zero
       | total => total
       end /\
     total_file_size s = List.fold_right Z.add 0 (omap file_size db) /\
     avg_duration s =
       match div (List.fold_left add (List.map duration db) zero)
                 (of_Z (Z.of_nat (length db))) with
       | S754_nan | S754_zero _ => zero
       | average => average
       end /\
     (db = [] -> oldest_recording s = None /\ newest_recording s = None) /\
     (db <> [] ->
        exists r, In r db /\ oldest_recording s = Some (isoformat (timestamp r)) /\
          forall r', In r' db -> to_us (timestamp r) <= to_us (timestamp r')) /\
     (db <> [] ->
        exists r, In r db /\ newest_recording s = Some (isoformat (timestamp r)) /\
          forall r', In r' db -> to_us (timestamp r') <= to_us (timestamp r)) /\
     (forall l n, languages s !! l = Some n <->
        l <> EmptyString /\ 0 < n /\ n = count_rows language l db) /\
     (forall m n, models s !! m = Some n <->
        m <> EmptyString /\ 0 < n /\ n = count_rows model_used m db)) /\
  (forall r1 r2 r3,
     duration r1 = of_Z 1 -> duration r2 = of_Z 2 -> duration r3 = of_Z 3 ->
     language r1 = Some "en"%string -> language r2 = Some "en"%string ->
     language r3 = Some "fr"%string ->
     (forall n, int64 (List.fold_right Z.add 0
                         (List.firstn n (omap file_size [r1; r2; r3]))) = true) ->
     exists s, get_statistics StorageOk [r1; r2; r3] = Some s /\
       total_recordings s = 3 /\
       total_duration s = of_Z 6 /\
       avg_duration s = of_Z 2 /\
       languages s = <["en"%string := 2]> (<["fr"%string := 1]> ∅)).
Proof.
  intros Hv. split; [ | split ].
  - intros Hover. unfold get_statistics.
    rewrite (sum_file_size_overflow db Hover). reflexivity.
  - intros Hfit. unfold get_statistics.
    destruct (sum_file_size_fits db Hfit) as (size & -> & Hsize).
    eexists. split; [ reflexivity | ].
    cbn [total_recordings total_duration total_file_size avg_duration
         oldest_recording newest_recording languages models].
    split; [ reflexivity | ].
    split; [ apply or_zero_sum_duration | ].
    split; [ exact Hsize | ].
    split; [ apply or_zero_avg_of_duration | ].
    split; [ intros ->; split; reflexivity | ].
    split.
    { intros Hne. destruct (min_timestamp db) as [t|] eqn:Ht.
      - destruct (min_timestamp_spec db t Hv Ht) as (r & Hin & -> & Hmin).
        exists r. split; [ exact Hin | ]. split; [ reflexivity | exact Hmin ].
      - destruct db; [ congruence | discriminate Ht ]. }
    split.
    { intros Hne. destruct (max_timestamp db) as [t|] eqn:Ht.
      - destruct (max_timestamp_spec db t Hv Ht) as (r & Hin & -> & Hmax).
        exists r. split; [ exact Hin | ]. split; [ reflexivity | exact Hmax ].
      - destruct db; [ congruence | discriminate Ht ]. }
    split; intros k n; apply group_count_iff.
  - intros r1 r2 r3 H1 H2 H3 L1 L2 L3 Hfit. unfold get_statistics.
    destruct (sum_file_size_fits [r1; r2; r3] Hfit) as (size & -> & _).
    eexists. split; [ reflexivity | ].
    cbn [total_recordings total_duration total_file_size avg_duration
         oldest_recording newest_recording languages models].
    split; [ reflexivity | ].
    split; [ rewrite or_zero_sum_duration; simpl; rewrite H1, H2, H3; reflexivity | ].
    split; [ rewrite or_zero_avg_of_duration; simpl; rewrite H1, H2, H3;
             reflexivity | ].
    unfold group_count, count_group, group_key. simpl.
    rewrite L1, L2, L3. simpl.
    apply map_eq. intros k.
    destruct (decide (k = "en"%string)) as [->|Hen];
      [ rewrite !lookup_insert_eq; reflexivity | ].
    rewrite !(lookup_insert_ne _ "en"%string) by congruence.
    reflexivity.
Qed.

Lemma three_recordings_valid : timestamps_valid three_recordings.
Proof.
  intros r [<-|[<-|[<-|[]]]]; unfold valid, valid_date;
    repeat split; first [ apply Z.leb_le | apply Z.ltb_lt ]; reflexivity.
Qed.

Lemma three_recordings_sizes_fit (n : nat) :
  int64 (List.fold_right Z.add 0
           (List.firstn n (omap file_size three_recordings))) = true.
Proof. destruct n as [|[|[|[|n]]]]; reflexivity. Qed.

Lemma get_statistics_aggregates_witness :
  timestamps_valid three_recordings /\
  (forall n, int64 (List.fold_right Z.add 0
                      (List.firstn n (omap file_size three_recordings))) = true) /\
  exists s, get_statistics StorageOk three_recordings = Some s /\
    total_recordings s = 3 /\
    total_duration s = of_Z 6 /\
    avg_duration s = of_Z 2 /\
    languages s = <["en"%string := 2]> (<["fr"%string := 1]> ∅).
Proof.
  split; [ exact three_recordings_valid | ].
  split; [ exact three_recordings_sizes_fit | ].
  apply (proj2 (proj2 (get_statistics_aggregates three_recordings
                         three_recordings_valid))
           (recording_at "a" noon 1 (Some "en"%string))
           (recording_at "b" noon 2 (Some "en"%string))
           (recording_at "c" noon 3 (Some "fr"%string)));
    first [ reflexivity | exact three_recordings_sizes_fit ].
Defined.

(** C8, counterexample.  Three recordings with durations 1.0, 2.0, 3.0
    and languages "en", "en", "fr", added one after the other, whose files
    have 2^62 bytes each: the sizes of the first two add up to 2^63, one
    more than 64 bits hold, and [get_statistics] returns the empty
    dictionary.  Two durations infinite to either side add up to NaN: the
    sum and the average are reported as [0.0]. *)
Lemma get_statistics_reports_nothing_on_overflow :
  List.fold_left (fun db r => (add_recording StorageOk db r).1)
    three_huge_files [] = three_huge_files /\
  List.map duration three_huge_files = [of_Z 1; of_Z 2; of_Z 3] /\
  List.map language three_huge_files
    = [Some "en"%string; Some "en"%string; Some "fr"%string] /\
  timestamps_valid three_huge_files /\
  get_statistics StorageOk three_huge_files = None /\
  List.fold_left (fun db r => (add_recording StorageOk db r).1)
    two_endless_recordings [] = two_endless_recordings /\
  timestamps_valid two_endless_recordings /\
  List.fold_left add (List.map duration two_endless_recordings) zero = S754_nan /\
  option_map total_duration (get_statistics StorageOk two_endless_recordings)
    = Some zero /\
  option_map avg_duration (get_statistics StorageOk two_endless_recordings)
    = Some zero.
Proof.
  assert (Hnoon : valid noon)
    by (unfold valid, valid_date;
        repeat split; first [ apply Z.leb_le | apply Z.ltb_lt ]; reflexivity).
  split; [ reflexivity | ].
  split; [ reflexivity | ].
  split; [ reflexivity | ].
  split; [ intros r [<-|[<-|[<-|[]]]]; exact Hnoon | ].
  split; [ reflexivity | ].
  split; [ reflexivity | ].
  split; [ intros r [<-|[<-|[]]]; exact Hnoon | ].
  repeat split; reflexivity.
Qed.


(** Worked cases of the limit: 0 and no limit give every row, 1 gives one. *)
Example get_all_recordings_limit_cases :
  get_all_recordings StorageOk
    [thirty_days_one_second_before_noon; twenty_nine_days_before_noon] (Some 0) 0
    = [twenty_nine_days_before_noon; thirty_days_one_second_before_noon] /\
  get_all_recordings StorageOk
    [thirty_days_one_second_before_noon; twenty_nine_days_before_noon] None 0
    = [twenty_nine_days_before_noon; thirty_days_one_second_before_noon] /\
  get_all_recordings StorageOk
    [thirty_days_one_second_before_noon; twenty_nine_days_before_noon] (Some 1) 0
    = [twenty_nine_days_before_noon] /\
  search_recordings StorageOk
    [thirty_days_one_second_before_noon; twenty_nine_days_before_noon]
    "WORLD" (Some "en"%string) None None (Some 0)
    = [twenty_nine_days_before_noon; thirty_days_one_second_before_noon].
Proof. repeat split; reflexivity. Qed.
End StatisticsReport.

(** ** Audio: conversion of a captured chunk *)

Section ChunkFacts.
Import Float64 Audio.
Local Open Scope Z_scope.

Lemma stereo_to_mono_even (n : nat) (chunk : list Z) :
  length chunk = (2 * n)%nat ->
  exists mono, stereo_to_mono chunk = Some mono /\ length mono = n.
Proof.
  revert chunk. induction n as [|n IH]; intros chunk Hlen.
  - destruct chunk; [ exists []; split; reflexivity | discriminate ].
  - destruct chunk as [|l [|r rest]]; simpl in Hlen; try lia.
    destruct (IH rest) as (mono & Hm & Hl); [ lia | ].
    exists (Z.quot (l + r) 2 :: mono). simpl. rewrite Hm, Hl.
    split; reflexivity.
Qed.

Lemma stereo_to_mono_length (chunk mono : list Z) :
  stereo_to_mono chunk = Some mono -> length chunk = (2 * length mono)%nat.
Proof.
  revert chunk. induction mono as [|m mono IH]; intros chunk.
  - destruct chunk as [|l [|r rest]]; simpl; try discriminate; [ reflexivity | ].
    destruct (stereo_to_mono rest); discriminate.
  - destruct chunk as [|l [|r rest]]; simpl; try discriminate.
    destruct (stereo_to_mono rest) as [mono'|] eqn:Hr; [ | discriminate ].
    intros [= _ ->]. rewrite (IH rest Hr). lia.
Qed.

(** Every mono sample is the mean of the two channels of its frame, cut
    toward zero. *)
Lemma stereo_to_mono_nth (chunk mono : list Z) (i : nat) :
  stereo_to_mono chunk = Some mono -> (i < length mono)%nat ->
  List.nth i mono 0 =
    Z.quot (List.nth (2 * i) chunk 0 + List.nth (2 * i + 1) chunk 0) 2.
Proof.
  revert chunk mono. induction i as [|i IH]; intros chunk mono.
  - destruct chunk as [|l [|r rest]]; simpl; try discriminate.
    + intros [= <-]. simpl. lia.
    + destruct (stereo_to_mono rest); [ | discriminate ].
      intros [= <-] _. reflexivity.
  - destruct chunk as [|l [|r rest]]; simpl; try discriminate.
    + intros [= <-]. simpl. lia.
    + destruct (stereo_to_mono rest) as [mono'|] eqn:Hr; [ | discriminate ].
      intros [= <-] Hi. simpl in Hi.
      replace (i + S (i + 0))%nat with (S (2 * i))%nat by lia.
      replace (i + S (i + 0) + 1)%nat with (S (2 * i + 1))%nat by lia.
      simpl List.nth at 1. apply (IH rest mono' Hr). lia.
Qed.

Lemma linspace_length (stop : Z) (num : nat) : length (linspace stop num) = num.
Proof. unfold linspace. rewrite List.length_map. apply List.length_seq. Qed.

Lemma resample_length (chunk : list Z) (num : nat) :
  length (resample chunk num) = num.
Proof. unfold resample. rewrite List.length_map. apply linspace_length. Qed.

Lemma resample_nth (chunk : list Z) (num i : nat) :
  (i < num)%nat ->
  List.nth i (resample chunk num) 0 =
    astype_int16
      (interp_at chunk (linspace_at (Z.of_nat (length chunk) - 1) num i)).
Proof.
  intros Hi. unfold resample, linspace. rewrite List.map_map.
  rewrite (List.nth_indep _ 0
             (astype_int16 (interp_at chunk
                (linspace_at (Z.of_nat (length chunk) - 1) num 0%nat))))
    by (rewrite List.length_map, List.length_seq; exact Hi).
  rewrite (List.map_nth (fun j => astype_int16 (interp_at chunk
             (linspace_at (Z.of_nat (length chunk) - 1) num j)))).
  rewrite List.seq_nth by exact Hi. reflexivity.
Qed.

Lemma all_from_spec (bits : nat) (f : Z -> bool) (base : Z) :
  all_from bits f base = true ->
  forall z, base * 2 ^ Z.of_nat bits <= z < (base + 1) * 2 ^ Z.of_nat bits ->
  f z = true.
Proof.
  revert base. induction bits as [|bits IH]; intros base H z Hz.
  - simpl in H. change (2 ^ Z.of_nat 0) with 1 in Hz.
    replace z with base by lia. exact H.
  - simpl in H. apply andb_true_iff in H as [H0 H1].
    rewrite Nat2Z.inj_succ, Z.pow_succ_r in Hz by lia.
    destruct (Z_lt_le_dec z ((2 * base + 1) * 2 ^ Z.of_nat bits)).
    + apply (IH (2 * base) H0). lia.
    + apply (IH (2 * base + 1) H1). lia.
Qed.

(** Every [int16] value is a binary64 number: it is got back from its
    float, the difference of its float with itself is [0.0], and adding its
    float to [0.0] changes nothing. *)
Lemma sample_table :
  all_from 16
    (fun k =>
       let c := k - 32768 in
       match sub (of_Z c) (of_Z c) with S754_zero false => true | _ => false end
       && (astype_int16 (add zero (of_Z c)) =? c)
       && (astype_int16 (of_Z c) =? c)) 0 = true.
Proof. vm_compute. reflexivity. Qed.

Lemma sample_floats (c : Z) :
  int16 c ->
  sub (of_Z c) (of_Z c) = zero /\
  astype_int16 (add zero (of_Z c)) = c /\
  astype_int16 (of_Z c) = c.
Proof.
  intros Hc. unfold int16 in Hc.
  pose proof (all_from_spec 16 _ 0 sample_table (c + 32768)) as H.
  cbv beta zeta in H.
  replace (c + 32768 - 32768) with c in H by lia.
  assert (Hr : 0 * 2 ^ Z.of_nat 16 <= c + 32768 < (0 + 1) * 2 ^ Z.of_nat 16)
    by (change (2 ^ Z.of_nat 16) with 65536; lia).
  specialize (H Hr).
  apply andb_true_iff in H as [H H3]. apply andb_true_iff in H as [H1 H2].
  split; [ | split; apply Z.eqb_eq; assumption ].
  destruct (sub (of_Z c) (of_Z c)) as [[|]| | |]; try discriminate H1. reflexivity.
Qed.

(** The 1600 positions across 4800 samples: position [i] lies in the
    interval that starts at sample [i * 4799 / 1599]; the first position is
    the first sample; where a position is not a sample itself, a slope of
    [0.0] over it contributes [0.0]. *)
Lemma position_table :
  List.forallb
    (fun i =>
       let x := linspace_at 4799 1600 i in
       let j := Z.of_nat i * 4799 / 1599 in
       match trunc x with Some t => t =? j | None => false end
       && (if Nat.eqb i 0 then eqb x (of_Z j) else true)
       && (Nat.eqb i 1599
           || (j <? 4799)
              && (eqb x (of_Z j)
                  || match mul (div zero (sub (of_Z (j + 1)) (of_Z j)))
                               (sub x (of_Z j)) with
                     | S754_zero false => true
                     | _ => false
                     end)))
    (List.seq 0 1600) = true.
Proof. vm_compute. reflexivity. Qed.

Lemma position_facts (i : nat) :
  (i < 1600)%nat ->
  let x := linspace_at 4799 1600 i in
  let j := Z.of_nat i * 4799 / 1599 in
  trunc x = Some j /\
  (i = 0%nat -> eqb x (of_Z j) = true) /\
  (i = 1599%nat \/
   j < 4799 /\
   (eqb x (of_Z j) = true \/
    mul (div zero (sub (of_Z (j + 1)) (of_Z j))) (sub x (of_Z j)) = zero)).
Proof.
  intros Hi x j.
  pose proof (proj1 (List.forallb_forall _ _) position_table i) as H.
  cbv beta zeta in H. fold x j in H.
  assert (Hin : In i (List.seq 0 1600)) by (apply List.in_seq; lia).
  specialize (H Hin).
  apply andb_true_iff in H as [H H3]. apply andb_true_iff in H as [H1 H2].
  split; [ | split ].
  - destruct (trunc x) as [t|]; [ | discriminate H1 ].
    apply Z.eqb_eq in H1. congruence.
  - intros ->. exact H2.
  - apply orb_true_iff in H3 as [H3|H3].
    + left. apply Nat.eqb_eq. exact H3.
    + right. apply andb_true_iff in H3 as [Hj H3].
      split; [ apply Z.ltb_lt; exact Hj | ].
      apply orb_true_iff in H3 as [H3|H3]; [ left; exact H3 | right ].
      destruct (mul (div zero (sub (of_Z (j + 1)) (of_Z j))) (sub x (of_Z j)))
        as [[|]| | |]; try discriminate H3. reflexivity.
Qed.

Lemma stereo_to_mono_int16 (chunk mono : list Z) :
  Forall int16 chunk -> stereo_to_mono chunk = Some mono -> Forall int16 mono.
Proof.
  revert chunk. induction mono as [|m mono IH]; intros chunk Hall Hm; [ constructor | ].
  destruct chunk as [|l [|r rest]]; simpl in Hm; try discriminate.
  destruct (stereo_to_mono rest) as [mono'|] eqn:Hr; [ | discriminate ].
  injection Hm as <- <-.
  inversion Hall as [|? ? Hl Hall']; subst.
  inversion Hall' as [|? ? Hr' Hrest]; subst.
  constructor; [ | apply (IH rest Hrest Hr) ].
  unfold int16 in *. Z.to_euclidean_division_equations. lia.
Qed.

Lemma nth_int16 (samples : list Z) (i : nat) :
  Forall int16 samples -> int16 (List.nth i samples 0).
Proof.
  intros Hall. destruct (Nat.lt_ge_cases i (length samples)) as [Hi|Hi].
  - rewrite List.Forall_forall in Hall. apply Hall. apply List.nth_In. exact Hi.
  - rewrite List.nth_overflow by exact Hi. unfold int16. lia.
Qed.

(** One of the 1600 samples made of 4800: the first is the first sample,
    the last is the last, and one whose two neighbours are equal is equal
    to them. *)
Lemma resampled_sample (mono : list Z) (i : nat) :
  length mono = 4800%nat -> Forall int16 mono -> (i < 1600)%nat ->
  let j := Z.to_nat (Z.of_nat i * 4799 / 1599) in
  let s := astype_int16 (interp_at mono (linspace_at 4799 1600 i)) in
  (i = 0%nat -> s = List.nth 0 mono 0) /\
  (i = 1599%nat -> s = List.nth 4799 mono 0) /\
  (List.nth j mono 0 = List.nth (S j) mono 0 -> s = List.nth j mono 0).
Proof.
  intros Hlen Hall Hi j s.
  destruct (position_facts i Hi) as (Htrunc & Hfirst & Hrest).
  assert (Hj0 : 0 <= Z.of_nat i * 4799 / 1599)
    by (apply Z.div_pos; lia).
  assert (Hs : s = astype_int16 (interp_at mono (linspace_at 4799 1600 i)))
    by reflexivity.
  unfold interp_at in Hs. rewrite Htrunc, Hlen in Hs. cbv zeta in Hs.
  destruct (Z.ltb_spec (Z.of_nat i * 4799 / 1599) 0) as [Hneg|_];
    [ exfalso; clear - Hj0 Hneg; lia | ].
  change (Z.of_nat 4800 - 1) with 4799 in Hs.
  destruct Hrest as [->|(Hj & Hcase)].
  - (* the last position *)
    change (Z.of_nat 1599 * 4799 / 1599) with 4799 in *.
    change (4799 <=? 4799) with true in Hs. cbv iota in Hs.
    change (Z.to_nat 4799) with 4799%nat in *.
    rewrite (proj2 (proj2 (sample_floats _ (nth_int16 mono 4799 Hall)))) in Hs.
    subst j. split; [ discriminate | ]. split; [ intros _; exact Hs | intros _; exact Hs ].
  - destruct (Z.leb_spec 4799 (Z.of_nat i * 4799 / 1599)) as [Hge|_];
      [ exfalso; clear - Hj Hge; lia | ].
    split; [ | split; [ intros ->; vm_compute in Hj; discriminate Hj | ] ].
    + intros ->. rewrite (Hfirst eq_refl) in Hs.
      change (Z.to_nat (Z.of_nat 0 * 4799 / 1599)) with 0%nat in Hs.
      rewrite (proj2 (proj2 (sample_floats _ (nth_int16 mono 0 Hall)))) in Hs.
      exact Hs.
    + intros Hflat.
      destruct Hcase as [Heq|Hzero].
      * rewrite Heq in Hs. fold j in Hs.
        rewrite (proj2 (proj2 (sample_floats _ (nth_int16 mono j Hall)))) in Hs.
        exact Hs.
      * destruct (eqb (linspace_at 4799 1600 i) (of_Z (Z.of_nat i * 4799 / 1599))).
        { fold j in Hs.
          rewrite (proj2 (proj2 (sample_floats _ (nth_int16 mono j Hall)))) in Hs.
          exact Hs. }
        replace (Z.to_nat (Z.of_nat i * 4799 / 1599 + 1)) with (S j) in Hs
          by (subst j; lia).
        fold j in Hs. rewrite <- Hflat in Hs.
        rewrite (proj1 (sample_floats _ (nth_int16 mono j Hall))) in Hs.
        rewrite Hzero in Hs.
        rewrite (proj1 (proj2 (sample_floats _ (nth_int16 mono j Hall)))) in Hs.
        exact Hs.
Qed.
End ChunkFacts.

Section ChunkConversion.
Import Float64 Audio.
Local Open Scope Z_scope.




(** Worked cases: four samples at 24000 Hz become [int(4 * 2/3)] = 2, the
    first and the last one; six samples at 32000 Hz become 3, the middle one
    interpolated halfway between the third and the fourth; an odd number of
    values under a stereo configuration ends the loop; a chunk whose new
    length would be 0 is kept as it is. *)
Example convert_chunk_cases :
  convert_chunk 1 24000 [0; 100; 200; 300] = Some [0; 300] /\
  convert_chunk 1 32000 [0; 10; 20; 31; 40; 50] = Some [0; 25; 50] /\
  convert_chunk 2 16000 [10; 20; -3; -4; 7; -8] = Some [15; -3; 0] /\
  convert_chunk 2 16000 [1; 2; 3] = None /\
  convert_chunk 1 48000 [5; 6] = Some [5; 6] /\
  convert_chunk 1 0 [5; 6] = None.
Proof. repeat split; vm_compute; reflexivity. Qed.
End ChunkConversion.

(** ** Audio: stopping a recording *)

Section StopRecordingFacts.
Import Float64 Audio.
Local Open Scope Z_scope.

Lemma tobytes_length (samples : list Z) :
  length (tobytes samples) = (2 * length samples)%nat.
Proof.
  unfold tobytes. induction samples as [|s samples IH]; simpl; [ reflexivity | ].
  simpl in IH. rewrite IH. lia.
Qed.

Lemma wav_header_length (nchannels sampwidth framerate datalength : Z) :
  length (wav_header nchannels sampwidth framerate datalength) = 44%nat.
Proof. reflexivity. Qed.

Lemma pcm_data_wav_file (samples : list Z) :
  pcm_data (wav_file samples) = tobytes samples.
Proof.
  unfold pcm_data, wav_file.
  rewrite List.skipn_app, wav_header_length.
  rewrite List.skipn_all2 by (rewrite wav_header_length; lia).
  reflexivity.
Qed.

Lemma int16_bytes (s : Z) :
  int16 s ->
  wrap16 ((s mod 65536) mod 256 + 256 * (((s mod 65536) / 256) mod 256)) = s.
Proof.
  unfold int16, wrap16. intros Hs.
  Z.to_euclidean_division_equations. lia.
Qed.

Lemma frombuffer_tobytes (samples : list Z) :
  Forall int16 samples -> frombuffer (tobytes samples) = Some samples.
Proof.
  unfold tobytes.
  induction samples as [|s samples IH]; intros Hall; [ reflexivity | ].
  inversion Hall as [|? ? Hs Hrest]; subst.
  cbn [List.map List.concat le16 List.app frombuffer].
  rewrite (IH Hrest), (int16_bytes s Hs). reflexivity.
Qed.

(** The header of a mono file of 16-bit samples at 16000 Hz, byte by
    byte: "RIFF", the size of what follows, "WAVE", "fmt ", 16 bytes of
    format (PCM, 1 channel, 16000 frames a second, 32000 bytes a second, 2
    bytes a frame, 16 bits a sample), "data" and the size of the data. *)
Lemma wav_header_mono (datalength : Z) :
  wav_header CHANNELS 2 SAMPLE_RATE datalength =
    [82; 73; 70; 70] ++ le32 (36 + datalength) ++
    [87; 65; 86; 69; 102; 109; 116; 32; 16; 0; 0; 0; 1; 0; 1; 0;
     128; 62; 0; 0; 0; 125; 0; 0; 2; 0; 16; 0; 100; 97; 116; 97] ++
    le32 datalength.
Proof. reflexivity. Qed.

Lemma le32_value (z : Z) :
  0 <= z < 2 ^ 32 ->
  exists b0 b1 b2 b3,
    le32 z = [b0; b1; b2; b3] /\
    b0 + 256 * b1 + 65536 * b2 + 16777216 * b3 = z.
Proof.
  intros Hz. unfold le32. do 4 eexists. split; [ reflexivity | ].
  Z.to_euclidean_division_equations. lia.
Qed.

Lemma le32_bytes (z : Z) : Forall (fun b => 0 <= b < 256) (le32 z).
Proof. unfold le32. repeat constructor; apply Z.mod_pos_bound; lia. Qed.

Lemma tobytes_bytes (samples : list Z) :
  Forall (fun b => 0 <= b < 256) (tobytes samples).
Proof.
  unfold tobytes. induction samples as [|s samples IH]; [ constructor | ].
  cbn [List.map List.concat le16 List.app].
  constructor; [ apply Z.mod_pos_bound; lia | ].
  constructor; [ apply Z.mod_pos_bound; lia | exact IH ].
Qed.

Lemma wav_file_bytes (samples : list Z) :
  Forall (fun b => 0 <= b < 256) (wav_file samples).
Proof.
  unfold wav_file. rewrite wav_header_mono.
  repeat (apply List.Forall_app; split);
    first [ apply le32_bytes | apply tobytes_bytes
          | repeat constructor; lia ].
Qed.

Lemma firstn_wav_file (samples : list Z) :
  List.firstn 44 (wav_file samples) =
    wav_header CHANNELS 2 SAMPLE_RATE (Z.of_nat (length (tobytes samples))).
Proof.
  unfold wav_file. rewrite List.firstn_app, wav_header_length.
  cbn [Nat.sub List.firstn]. rewrite List.app_nil_r.
  apply List.firstn_all2. rewrite wav_header_length. lia.
Qed.

Lemma nth_wav_file (samples : list Z) (k : nat) :
  List.nth (44 + k) (wav_file samples) 0 = List.nth k (tobytes samples) 0.
Proof.
  unfold wav_file.
  exact (List.app_nth2_plus
           (wav_header CHANNELS 2 SAMPLE_RATE (Z.of_nat (length (tobytes samples))))
           (tobytes samples) 0 k).
Qed.

(** The two bytes of a sample, low byte first, are the sample in two's
    complement. *)
Lemma nth_tobytes (samples : list Z) (i : nat) :
  (i < length samples)%nat ->
  List.nth (2 * i) (tobytes samples) 0
  + 256 * List.nth (2 * i + 1) (tobytes samples) 0
  = List.nth i samples 0 mod 65536.
Proof.
  revert i. induction samples as [|s samples IH]; intros i Hi; [ simpl in Hi; lia | ].
  destruct i as [|i].
  - cbn. Z.to_euclidean_division_equations. lia.
  - replace (2 * S i)%nat with (S (S (2 * i))) by lia.
    replace (S (S (2 * i)) + 1)%nat with (S (S (2 * i + 1))) by lia.
    change (tobytes (s :: samples))
      with (s mod 65536 mod 256 :: (s mod 65536 / 256) mod 256 :: tobytes samples).
    cbn [List.nth]. apply IH. simpl in Hi. lia.
Qed.

(** The duration test looks at the number of samples only. *)
Lemma too_short_length (samples : list Z) (n : nat) :
  length samples = n ->
  too_short samples = ltb (div (of_Z (Z.of_nat n)) (of_Z SAMPLE_RATE)) half.
Proof. intros <-. reflexivity. Qed.

Lemma stop_recording_too_short (env : environment) (fs : files) (rec : AudioRecorder) :
  too_short (_audio_data rec) = true ->
  snd (stop_recording env fs rec) = None /\
  snd (fst (stop_recording env fs rec)) = fs.
Proof.
  intros Hshort. unfold stop_recording.
  destruct (is_recording rec); simpl; [ | split; reflexivity ].
  destruct (audio_backend env), (_audio_stream rec), (stream_stop env); simpl;
    try (split; reflexivity);
    destruct (_audio_data rec); simpl; try (split; reflexivity);
    rewrite Hshort; split; reflexivity.
Qed.

Lemma stop_recording_saves (env : environment) (fs : files) (rec : AudioRecorder)
    (path : string) :
  is_recording rec = true ->
  current_recording_path rec = Some path ->
  stream_stop env = Returns -> file_write env = Returns ->
  on_recording_stop rec <> Some Raises ->
  too_short (_audio_data rec) = false ->
  stop_recording env fs rec =
    (clear_path (stopped env rec),
     <[path := wav_file (_audio_data rec)]> fs,
     Some path).
Proof.
  intros Hrec Hpath Hstop Hwrite Hcb Hlong. unfold stop_recording.
  rewrite Hrec, Hstop. simpl.
  assert (Hne : _audio_data rec <> []).
  { intros He. rewrite He in Hlong. vm_compute in Hlong. discriminate. }
  assert (Hbody :
    match _audio_data (stopped env rec) with
    | [] => (stopped env rec, fs, None)
    | _ :: _ =>
        if too_short (_audio_data (stopped env rec)) then (stopped env rec, fs, None)
        else
          match _save_audio_data env fs (stopped env rec) with
          | None => (stopped env rec, fs, None)
          | Some fs' =>
              match on_recording_stop (stopped env rec) with
              | Some Raises => (stopped env rec, fs', None)
              | _ => (clear_path (stopped env rec), fs',
                      current_recording_path (stopped env rec))
              end
          end
    end = (clear_path (stopped env rec),
           <[path := wav_file (_audio_data rec)]> fs, Some path)).
  { unfold _save_audio_data. simpl.
    destruct (_audio_data rec) as [|s samples] eqn:Hd; [ contradiction | ].
    rewrite Hlong, Hpath, Hwrite.
    destruct (on_recording_stop rec) as [[|]|]; try reflexivity.
    contradiction. }
  destruct (audio_backend env), (_audio_stream rec); exact Hbody.
Qed.
End StopRecordingFacts.

Section StopRecording.
Import Float64 Audio Samples.
Local Open Scope Z_scope.

(** C6.  [stop_recording] returns [None] and leaves the files alone
    whenever the number of accumulated samples divided by 16000 is below
    0.5.  Otherwise, for a recording in progress whose stream stops, whose
    file can be written and whose stop callback returns, it writes the
    samples as a mono 16-bit PCM WAV file at 16000 Hz under the temporary
    path and returns that path: the file is 44 bytes of header, which name
    PCM, one channel, 16000 frames a second and 16 bits a sample and give
    the size of the data, followed by two bytes for every sample, low byte
    first, in two's complement, so that the samples are read back from it
    one for one.  6400 samples (0.4 s) give [None]; 9600 samples (0.6 s)
    give a file with 0.6 * 16000 * 2 = 19200 bytes of PCM data after the 44
    bytes of header. *)
Theorem stop_recording_minimum_duration
    (env : environment) (fs : files) (rec : AudioRecorder) :
  (ltb (div (of_Z (Z.of_nat (length (_audio_data rec)))) (of_Z 16000)) half = true ->
   snd (stop_recording env fs rec) = None /\
   snd (fst (stop_recording env fs rec)) = fs) /\
  (forall path,
     is_recording rec = true -> current_recording_path rec = Some path ->
     stream_stop env = Returns -> file_write env = Returns ->
     on_recording_stop rec <> Some Raises ->
     ltb (div (of_Z (Z.of_nat (length (_audio_data rec)))) (of_Z 16000)) half = false ->
     snd (stop_recording env fs rec) = Some path /\
     snd (fst (stop_recording env fs rec)) =
       <[path := wav_file (_audio_data rec)]> fs /\
     wav_file (_audio_data rec) =
       wav_header 1 2 16000 (2 * Z.of_nat (length (_audio_data rec)))
       ++ tobytes (_audio_data rec) /\
     pcm_data (wav_file (_audio_data rec)) = tobytes (_audio_data rec) /\
     Z.of_nat (length (tobytes (_audio_data rec)))
       = 2 * Z.of_nat (length (_audio_data rec)) /\
     exists file,
       snd (fst (stop_recording env fs rec)) !! path = Some file /\
       Z.of_nat (length file) = 44 + 2 * Z.of_nat (length (_audio_data rec)) /\
       Forall (fun b => 0 <= b < 256) file /\
       (36 + 2 * Z.of_nat (length (_audio_data rec)) < 2 ^ 32 ->
        exists r0 r1 r2 r3 d0 d1 d2 d3,
          List.firstn 44 file =
            [82; 73; 70; 70; r0; r1; r2; r3; 87; 65; 86; 69;
             102; 109; 116; 32; 16; 0; 0; 0; 1; 0; 1; 0;
             128; 62; 0; 0; 0; 125; 0; 0; 2; 0; 16; 0;
             100; 97; 116; 97; d0; d1; d2; d3] /\
          r0 + 256 * r1 + 65536 * r2 + 16777216 * r3
            = 36 + 2 * Z.of_nat (length (_audio_data rec)) /\
          d0 + 256 * d1 + 65536 * d2 + 16777216 * d3
            = 2 * Z.of_nat (length (_audio_data rec))) /\
       (forall i, (i < length (_audio_data rec))%nat ->
          List.nth (44 + 2 * i) file 0 + 256 * List.nth (44 + (2 * i + 1)) file 0
          = List.nth i (_audio_data rec) 0 mod 65536) /\
       (Forall int16 (_audio_data rec) ->
        frombuffer (List.skipn 44 file) = Some (_audio_data rec))) /\
  (Z.of_nat (length (_audio_data rec)) = 6400 ->
   snd (stop_recording env fs rec) = None /\
   snd (fst (stop_recording env fs rec)) = fs) /\
  (forall path,
     Z.of_nat (length (_audio_data rec)) = 9600 ->
     is_recording rec = true -> current_recording_path rec = Some path ->
     stream_stop env = Returns -> file_write env = Returns ->
     on_recording_stop rec <> Some Raises ->
     snd (stop_recording env fs rec) = Some path /\
     exists file,
       snd (fst (stop_recording env fs rec)) !! path = Some file /\
       Z.of_nat (length (pcm_data file)) = 19200 /\
       Z.of_nat (length file) = 44 + 19200 /\
       List.firstn 44 file =
         [82; 73; 70; 70; 36; 75; 0; 0; 87; 65; 86; 69;
          102; 109; 116; 32; 16; 0; 0; 0; 1; 0; 1; 0;
          128; 62; 0; 0; 0; 125; 0; 0; 2; 0; 16; 0;
          100; 97; 116; 97; 0; 75; 0; 0] /\
       (forall i, Z.of_nat i < 9600 ->
          List.nth (44 + 2 * i) file 0 + 256 * List.nth (44 + (2 * i + 1)) file 0
          = List.nth i (_audio_data rec) 0 mod 65536)).
Proof.
  split; [ | split; [ | split ] ].
  - intros Hshort. apply stop_recording_too_short. exact Hshort.
  - intros path Hrec Hpath Hstop Hwrite Hcb Hlong.
    rewrite (stop_recording_saves env fs rec path Hrec Hpath Hstop Hwrite Hcb Hlong).
    cbn [fst snd]. split; [ reflexivity | ]. split; [ reflexivity | ].
    split; [ | split; [ | split ] ].
    + unfold wav_file. rewrite tobytes_length.
      replace (Z.of_nat (2 * length (_audio_data rec)))
        with (2 * Z.of_nat (length (_audio_data rec))) by lia.
      reflexivity.
    + apply pcm_data_wav_file.
    + rewrite tobytes_length. lia.
    + exists (wav_file (_audio_data rec)).
      split; [ apply lookup_insert_eq | ].
      split.
      { unfold wav_file. rewrite List.length_app, wav_header_length, tobytes_length.
        lia. }
      split; [ apply wav_file_bytes | ].
      split.
      { intros Hsize. rewrite firstn_wav_file, wav_header_mono, tobytes_length.
        replace (Z.of_nat (2 * length (_audio_data rec)))
          with (2 * Z.of_nat (length (_audio_data rec))) by lia.
        destruct (le32_value (36 + 2 * Z.of_nat (length (_audio_data rec))))
          as (r0 & r1 & r2 & r3 & -> & Hr); [ lia | ].
        destruct (le32_value (2 * Z.of_nat (length (_audio_data rec))))
          as (d0 & d1 & d2 & d3 & -> & Hd); [ lia | ].
        exists r0, r1, r2, r3, d0, d1, d2, d3.
        split; [ reflexivity | ]. split; assumption. }
      split.
      { intros i Hi. rewrite !nth_wav_file. apply nth_tobytes. exact Hi. }
      intros Hall.
      change (List.skipn 44 (wav_file (_audio_data rec)))
        with (pcm_data (wav_file (_audio_data rec))).
      rewrite pcm_data_wav_file. apply frombuffer_tobytes. exact Hall.
  - intros Hlen. apply stop_recording_too_short.
    unfold too_short, recorded_duration. rewrite Hlen. reflexivity.
  - intros path Hlen Hrec Hpath Hstop Hwrite Hcb.
    assert (Hlong : too_short (_audio_data rec) = false)
      by (unfold too_short, recorded_duration; rewrite Hlen; reflexivity).
    rewrite (stop_recording_saves env fs rec path Hrec Hpath Hstop Hwrite Hcb Hlong).
    cbn [fst snd]. split; [ reflexivity | ].
    exists (wav_file (_audio_data rec)).
    split; [ apply lookup_insert_eq | ].
    split; [ rewrite pcm_data_wav_file, tobytes_length; lia | ].
    split.
    { unfold wav_file. rewrite List.length_app, wav_header_length, tobytes_length.
      lia. }
    split.
    { rewrite firstn_wav_file, tobytes_length.
      replace (Z.of_nat (2 * length (_audio_data rec))) with 19200 by lia.
      reflexivity. }
    intros i Hi. rewrite !nth_wav_file. apply nth_tobytes. lia.
Qed.

Lemma recorder_with_length (n : Z) :
  Z.of_nat (length (_audio_data (recorder_with n))) = Z.max 0 n.
Proof. simpl. rewrite List.repeat_length. lia. Qed.

(** 0.6 seconds of silence are saved, 19200 bytes of PCM data. *)
Lemma stop_recording_minimum_duration_witness :
  Z.of_nat (length (_audio_data (recorder_with 9600))) = 9600 /\
  is_recording (recorder_with 9600) = true /\
  snd (stop_recording quiet_world ∅ (recorder_with 9600))
    = Some "recording_20240424_120000.wav"%string /\
  exists file,
    snd (fst (stop_recording quiet_world ∅ (recorder_with 9600)))
      !! "recording_20240424_120000.wav"%string = Some file /\
    Z.of_nat (length (pcm_data file)) = 19200 /\
    Z.of_nat (length file) = 44 + 19200 /\
    List.firstn 44 file =
      [82; 73; 70; 70; 36; 75; 0; 0; 87; 65; 86; 69;
       102; 109; 116; 32; 16; 0; 0; 0; 1; 0; 1; 0;
       128; 62; 0; 0; 0; 125; 0; 0; 2; 0; 16; 0;
       100; 97; 116; 97; 0; 75; 0; 0] /\
    (forall i, Z.of_nat i < 9600 ->
       List.nth (44 + 2 * i) file 0 + 256 * List.nth (44 + (2 * i + 1)) file 0
       = List.nth i (_audio_data (recorder_with 9600)) 0 mod 65536).
Proof.
  split; [ apply (recorder_with_length 9600) | ].
  split; [ reflexivity | ].
  apply (proj2 (proj2 (proj2
           (stop_recording_minimum_duration quiet_world ∅ (recorder_with 9600))))
           "recording_20240424_120000.wav"%string).
  - apply (recorder_with_length 9600).
  - reflexivity.
  - reflexivity.
  - reflexivity.
  - reflexivity.
  - discriminate.
Defined.

(** 0.4 seconds are discarded; exactly half a second is kept. *)
Example stop_recording_gate_cases :
  snd (stop_recording quiet_world ∅ (recorder_with 6400)) = None /\
  snd (fst (stop_recording quiet_world ∅ (recorder_with 6400))) = ∅ /\
  too_short (_audio_data (recorder_with 7999)) = true /\
  too_short (_audio_data (recorder_with 8000)) = false.
Proof.
  split; [ | split ].
  - apply (stop_recording_too_short quiet_world ∅ (recorder_with 6400)).
    unfold too_short, recorded_duration. rewrite (recorder_with_length 6400).
    reflexivity.
  - apply (stop_recording_too_short quiet_world ∅ (recorder_with 6400)).
    unfold too_short, recorded_duration. rewrite (recorder_with_length 6400).
    reflexivity.
  - unfold too_short, recorded_duration.
    rewrite (recorder_with_length 7999), (recorder_with_length 8000).
    split; reflexivity.
Qed.
End StopRecording.

(** ** Hotkeys: normalisation and registration *)

Section HotkeyFacts.
Import PyStr Hotkeys.

(** Every name in the table of the source is one of the listed names. *)
Lemma key_mapping_listed (t canonical : string) :
  key_mapping !! t = Some canonical -> In t listed_names.
Proof.
  intros H. unfold key_mapping in H.
  apply elem_of_list_to_map_2 in H. apply list_elem_of_In in H.
  assert (Hall : List.forallb (fun kv => bool_decide (kv.1 ∈ listed_names))
                   key_mapping_items = true) by (vm_compute; reflexivity).
  rewrite List.forallb_forall in Hall. specialize (Hall _ H).
  apply bool_decide_eq_true in Hall. apply list_elem_of_In. exact Hall.
Qed.

Lemma key_mapping_single (t canonical : string) :
  key_mapping !! t = Some canonical -> String.length t <> 1%nat.
Proof.
  intros H. unfold key_mapping in H.
  apply elem_of_list_to_map_2 in H. apply list_elem_of_In in H.
  assert (Hall : List.forallb (fun kv => negb (Nat.eqb (String.length kv.1) 1))
                   key_mapping_items = true) by (vm_compute; reflexivity).
  rewrite List.forallb_forall in Hall. specialize (Hall _ H).
  apply negb_true_iff, Nat.eqb_neq in Hall. exact Hall.
Qed.

Lemma normalize_key_named (key canonical : string) :
  key_mapping !! strip (lower key) = Some canonical ->
  normalize_key key = Some canonical.
Proof. intros H. unfold normalize_key. rewrite H. reflexivity. Qed.

Lemma normalize_key_single (key : string) :
  single_alnum (strip (lower key)) = true ->
  normalize_key key = Some (strip (lower key)).
Proof.
  intros H. unfold normalize_key.
  destruct (key_mapping !! strip (lower key)) as [c|] eqn:Hm.
  - apply key_mapping_single in Hm. unfold single_alnum in H.
    apply andb_prop in H as [H _]. apply Nat.eqb_eq in H. contradiction.
  - unfold single_alnum in H. rewrite H. reflexivity.
Qed.

Lemma normalize_key_unknown (key : string) :
  ~ In (strip (lower key)) listed_names ->
  single_alnum (strip (lower key)) = false ->
  normalize_key key = None.
Proof.
  intros Hl Hs. unfold normalize_key.
  destruct (key_mapping !! strip (lower key)) as [c|] eqn:Hm.
  - exfalso. apply Hl. exact (key_mapping_listed _ _ Hm).
  - unfold single_alnum in Hs. rewrite Hs. reflexivity.
Qed.

Lemma normalize_loop_unknown (normalized keys : list string) :
  (exists key, In key keys /\ normalize_key key = None) ->
  normalize_loop normalized keys = [].
Proof.
  revert normalized. induction keys as [|k keys IH]; intros normalized (key & Hin & Hn).
  - destruct Hin.
  - cbn [normalize_loop].
    destruct (normalize_key k) as [c|] eqn:Hk; [ | reflexivity ].
    apply IH. destruct Hin as [->|Hin]; [ congruence | ].
    exists key. split; assumption.
Qed.

Lemma normalize_loop_known (normalized keys : list string) :
  (forall key, In key keys -> normalize_key key <> None) ->
  normalize_loop normalized keys = normalized ++ omap normalize_key keys.
Proof.
  revert normalized. induction keys as [|k keys IH]; intros normalized Hall.
  - cbn [normalize_loop]. rewrite List.app_nil_r. reflexivity.
  - cbn [normalize_loop].
    change (omap normalize_key (k :: keys))
      with (match normalize_key k with
            | Some c => c :: omap normalize_key keys
            | None => omap normalize_key keys
            end).
    destruct (normalize_key k) as [c|] eqn:Hk.
    + rewrite IH by (intros key Hin; apply Hall; right; exact Hin).
      rewrite <- List.app_assoc. reflexivity.
    + exfalso. apply (Hall k); [ left; reflexivity | exact Hk ].
Qed.

Lemma register_hotkey_rejected (pynput_available : bool) (mgr : GlobalHotkeyManager)
    (name : string) (keys : list string) (callback : Callable) (description : string) :
  _normalize_keys keys = [] ->
  register_hotkey pynput_available mgr name keys callback description = (mgr, false).
Proof.
  intros H. unfold register_hotkey. rewrite H.
  destruct pynput_available; reflexivity.
Qed.
End HotkeyFacts.

Section HotkeyRegistration.
Import PyStr Hotkeys.

Lemma function_key_lookup (t : string) :
  In t function_keys -> key_mapping !! t = Some t.
Proof.
  intros H. unfold function_keys in H.
  repeat (destruct H as [<-|H]; [ reflexivity | ]).
  destruct H.
Qed.

Lemma omap_known_nonempty (k : string) (keys : list string) :
  (forall key, In key (k :: keys) -> normalize_key key <> None) ->
  omap normalize_key (k :: keys) <> [].
Proof.
  intros Hall.
  change (omap normalize_key (k :: keys))
    with (match normalize_key k with
          | Some c => c :: omap normalize_key keys
          | None => omap normalize_key keys
          end).
  destruct (normalize_key k) eqn:Hk; [ discriminate | ].
  exfalso. apply (Hall k); [ left; reflexivity | exact Hk ].
Qed.

(** C3 (as amended).  [register_hotkey] normalises every token after
    lower-casing it and stripping the white space around it: ctrl and
    control become ctrl, shift shift, alt alt, win, cmd and super cmd,
    space space, enter and return enter, tab tab, escape and esc esc,
    backspace backspace, delete and del delete, f1 to f12 themselves, and a
    single alphanumeric character itself (lower-cased).  When every token
    has such a form the tokens are normalised one by one and, with at least
    one token and the hook library present, the chord is stored under the
    name and the call returns true.  A token that, lower-cased and stripped,
    is neither a single alphanumeric character nor any of the names the
    specification lists makes the whole registration fail: the call returns
    false and the table of hotkeys is what it was.  ["Ctrl", "SHIFT", "r"]
    normalises to [ctrl, shift, r]; ["ctrl", "foo"] fails. *)
Theorem register_hotkey_normalizes_or_fails :
  (forall key t, t = strip (lower key) ->
     (t = "ctrl" \/ t = "control" -> normalize_key key = Some "ctrl") /\
     (t = "shift" -> normalize_key key = Some "shift") /\
     (t = "alt" -> normalize_key key = Some "alt") /\
     (t = "win" \/ t = "cmd" \/ t = "super" -> normalize_key key = Some "cmd") /\
     (t = "space" -> normalize_key key = Some "space") /\
     (t = "enter" \/ t = "return" -> normalize_key key = Some "enter") /\
     (t = "tab" -> normalize_key key = Some "tab") /\
     (t = "escape" \/ t = "esc" -> normalize_key key = Some "esc") /\
     (t = "backspace" -> normalize_key key = Some "backspace") /\
     (t = "delete" \/ t = "del" -> normalize_key key = Some "delete") /\
     (In t function_keys -> normalize_key key = Some t) /\
     (single_alnum t = true -> normalize_key key = Some t))%string /\
  (forall keys,
     (forall key, In key keys -> normalize_key key <> None) ->
     _normalize_keys keys = omap normalize_key keys /\
     length (_normalize_keys keys) = length keys /\
     (keys <> [] ->
      forall mgr name callback description,
        register_hotkey true mgr name keys callback description =
          ({| hotkeys :=
                <[name := {| name := name;
                             keys := omap normalize_key keys;
                             description := description;
                             callback := Some callback;
                             enabled := true |}]> (hotkeys mgr);
              listener := listener mgr;
              is_running := is_running mgr |}, true))) /\
  (forall keys key,
     In key keys ->
     ~ In (strip (lower key)) listed_names ->
     single_alnum (strip (lower key)) = false ->
     _normalize_keys keys = [] /\
     forall pynput_available mgr name callback description,
       register_hotkey pynput_available mgr name keys callback description
         = (mgr, false)) /\
  _normalize_keys ["Ctrl"; "SHIFT"; "r"]%string = ["ctrl"; "shift"; "r"]%string /\
  (forall pynput_available mgr name callback description,
     register_hotkey pynput_available mgr name ["ctrl"; "foo"]%string
       callback description = (mgr, false)).
Proof.
  split; [ | split; [ | split; [ | split ] ] ].
  - intros key t ->.
    repeat split;
      try (intros H; apply normalize_key_named;
           repeat (destruct H as [H|H]); rewrite H; reflexivity).
    + intros H. apply normalize_key_named. apply function_key_lookup. exact H.
    + apply normalize_key_single.
  - intros keys Hall.
    assert (Hn : _normalize_keys keys = omap normalize_key keys)
      by (unfold _normalize_keys; rewrite normalize_loop_known by exact Hall;
          reflexivity).
    split; [ exact Hn | ]. split.
    + rewrite Hn. clear Hn. induction keys as [|k keys IH]; [ reflexivity | ].
      change (omap normalize_key (k :: keys))
        with (match normalize_key k with
              | Some c => c :: omap normalize_key keys
              | None => omap normalize_key keys
              end).
      destruct (normalize_key k) eqn:Hk.
      * cbn [length]. f_equal. apply IH. intros key Hin. apply Hall. right. exact Hin.
      * exfalso. apply (Hall k); [ left; reflexivity | exact Hk ].
    + intros Hne mgr name callback description.
      unfold register_hotkey. cbn [negb]. rewrite Hn.
      destruct keys as [|k keys]; [ contradiction | ].
      pose proof (omap_known_nonempty k keys Hall) as Hnonempty.
      destruct (omap normalize_key (k :: keys)); [ contradiction | reflexivity ].
  - intros keys key Hin Hl Hs.
    assert (Hn : _normalize_keys keys = []).
    { unfold _normalize_keys. apply normalize_loop_unknown.
      exists key. split; [ exact Hin | ].
      apply normalize_key_unknown; assumption. }
    split; [ exact Hn | ].
    intros. apply register_hotkey_rejected. exact Hn.
  - vm_compute. reflexivity.
  - intros. apply register_hotkey_rejected. vm_compute. reflexivity.
Qed.
End HotkeyRegistration.

Section HotkeyCases.
Import PyStr Hotkeys.

Lemma foo_not_listed : ~ In (strip (lower "foo")) listed_names.
Proof.
  assert (Hb : bool_decide (strip (lower "foo") ∈ listed_names) = false)
    by (vm_compute; reflexivity).
  intros H. apply bool_decide_eq_false in Hb. apply Hb.
  apply list_elem_of_In. exact H.
Qed.

(** ["ctrl", "foo"] is refused with the default table left as it was, and
    ["Ctrl", "SHIFT", "r"] is stored as [ctrl, shift, r]. *)
Lemma register_hotkey_normalizes_or_fails_witness :
  (In "foo" ["ctrl"; "foo"] /\
   ~ In (strip (lower "foo")) listed_names /\
   single_alnum (strip (lower "foo")) = false /\
   _normalize_keys ["ctrl"; "foo"] = [] /\
   register_hotkey true new_manager "toggle_recording" ["ctrl"; "foo"] 1 "toggle"
     = (new_manager, false))%string /\
  ((forall key, In key ["Ctrl"; "SHIFT"; "r"] -> normalize_key key <> None) /\
   _normalize_keys ["Ctrl"; "SHIFT"; "r"] = ["ctrl"; "shift"; "r"] /\
   snd (register_hotkey true new_manager "toggle_recording"
          ["Ctrl"; "SHIFT"; "r"] 1 "toggle") = true)%string.
Proof.
  destruct register_hotkey_normalizes_or_fails as (_ & Hknown & Hunknown & _ & _).
  split.
  - assert (Hin : In "foo"%string ["ctrl"; "foo"]%string) by (right; left; reflexivity).
    assert (Hs : single_alnum (strip (lower "foo")) = false) by reflexivity.
    destruct (Hunknown ["ctrl"; "foo"]%string "foo"%string Hin foo_not_listed Hs)
      as [Hn Hr].
    split; [ exact Hin | ]. split; [ exact foo_not_listed | ].
    split; [ exact Hs | ]. split; [ exact Hn | apply Hr ].
  - assert (Hall : forall key, In key ["Ctrl"; "SHIFT"; "r"]%string ->
                     normalize_key key <> None)
      by (intros key [<-|[<-|[<-|[]]]]; vm_compute; discriminate).
    destruct (Hknown ["Ctrl"; "SHIFT"; "r"]%string Hall) as (Hn & _ & Hreg).
    split; [ exact Hall | ].
    split; [ rewrite Hn; vm_compute; reflexivity | ].
    rewrite Hreg by discriminate. reflexivity.
Defined.

(** C3, counterexample.  The token " r " (a blank on either side) is three
    characters long and, in any case of its letters, none of the listed
    names; the registration goes through all the same, with the chord [r],
    because the token is stripped before it is looked at. *)
Lemma register_hotkey_accepts_padded_token :
  (~ In (lower " r ") listed_names /\
   String.length " r " = 3%nat /\
   _normalize_keys [" r "] = ["r"] /\
   snd (register_hotkey true new_manager "toggle_recording" [" r "] 1 "toggle")
     = true /\
   keys <$> (hotkeys (fst (register_hotkey true new_manager "toggle_recording"
                              [" r "] 1 "toggle")) !! "toggle_recording")
     = Some ["r"])%string.
Proof.
  split.
  - assert (Hb : bool_decide (lower " r " ∈ listed_names) = false)
      by (vm_compute; reflexivity).
    intros H. apply bool_decide_eq_false in Hb. apply Hb.
    apply list_elem_of_In. exact H.
  - repeat split; vm_compute; reflexivity.
Qed.

(** The table of the manager has no entry for "windows", which the settings
    window of the application maps to cmd itself before it registers. *)
Example normalize_keys_windows :
  _normalize_keys ["windows"; "r"]%string = [] /\
  _normalize_keys ["WIN"; "r"]%string = ["cmd"; "r"]%string.
Proof. split; vm_compute; reflexivity. Qed.
End HotkeyCases.

(** ** The transcription service *)

Section TranscriptionFacts.
Import Float64 PyValue Transcription Samples.
Local Open Scope Z_scope.

(** C7.  While [is_transcribing] is true, [change_model] and
    [change_device] return [False] whatever model or device is named, start
    nothing, and leave the service as it was: the loaded model, the model
    name and the device are unchanged. *)
Theorem change_model_and_device_refused_while_transcribing
    (env : environment) (svc : TranscriptionService) (new_name new_device : string) :
  is_transcribing svc = true ->
  change_model svc new_name = (svc, false, []) /\
  change_device env svc new_device = (svc, false, []) /\
  model (fst (fst (change_model svc new_name))) = model svc /\
  model_name (fst (fst (change_model svc new_name))) = model_name svc /\
  device (fst (fst (change_model svc new_name))) = device svc /\
  model (fst (fst (change_device env svc new_device))) = model svc /\
  model_name (fst (fst (change_device env svc new_device))) = model_name svc /\
  device (fst (fst (change_device env svc new_device))) = device svc.
Proof.
  intros Ht. unfold change_model, change_device. rewrite Ht. simpl.
  repeat split; reflexivity.
Qed.

Lemma change_model_and_device_refused_while_transcribing_witness :
  is_transcribing (service true) = true /\
  change_model (service true) "large" = (service true, false, []) /\
  change_device model_answers (service true) "cuda" = (service true, false, []).
Proof.
  split; [ reflexivity | ].
  destruct (change_model_and_device_refused_while_transcribing
              model_answers (service true) "large" "cuda" eq_refl)
    as (Hm & Hd & _).
  split; [ exact Hm | exact Hd ].
Defined.

(** With no transcription in flight the same calls go through. *)
Example change_model_when_idle :
  change_model (service false) "large" =
    (set_model (service false) None "large" "cpu", true,
     [StartLoadThread "large" "cpu"]) /\
  change_model (service false) "base" = (service false, true, []) /\
  change_device model_answers (service false) "cuda" =
    (set_model (service false) None "base" "cuda", true,
     [GcCollect; StartLoadThread "base" "cuda"]).
Proof. repeat split; reflexivity. Qed.

Lemma transcribe_sync_keeps (env : environment) (svc : TranscriptionService)
    (audio_path : string) (settings : gmap string value) :
  let svc' := fst (fst (_transcribe_sync env svc audio_path settings)) in
  is_transcribing svc' = is_transcribing svc /\ progress svc' = progress svc /\
  on_complete svc' = on_complete svc /\ on_error svc' = on_error svc.
Proof.
  unfold _transcribe_sync.
  destruct (on_progress svc) as [[|e]|]; simpl;
    try (repeat split; reflexivity);
    destruct (model svc) as [m|]; simpl; try (repeat split; reflexivity);
    destruct (transcribe env m audio_path (filtered_settings settings));
    simpl; repeat split; reflexivity.
Qed.

Lemma transcribe_sync_result (env : environment) (svc : TranscriptionService)
    (audio_path : string) (settings : gmap string value) (m : Model) (e : error) :
  model svc = Some m ->
  transcribe env m audio_path (filtered_settings settings) = inr e ->
  exists e', snd (fst (_transcribe_sync env svc audio_path settings)) = inr e'.
Proof.
  intros Hm He. unfold _transcribe_sync. rewrite Hm, He.
  destruct (on_progress svc) as [[|e0]|]; simpl; eexists; reflexivity.
Qed.
End TranscriptionFacts.

Section TranscribeCleanup.
Import Float64 PyValue Transcription Samples.
Local Open Scope Z_scope.

(** C4 (as amended).  An invocation of [transcribe_audio_async] that gets
    past the entry checks (nothing in flight, a model loaded) ends, whether
    the transcription succeeded or failed, in the [finally] step, which
    clears [is_transcribing].  That step does not touch the progress value:
    after a success it stays at 1.0, and after a failure of the model run it
    stays at the 0.0 it was given when the run started.  A rejected
    invocation raises before anything is changed. *)
Theorem transcribe_audio_async_clears_flag
    (env : environment) (svc : TranscriptionService) (audio_path : string)
    (settings : option (gmap string value)) :
  (is_transcribing svc = true ->
   transcribe_audio_async env svc audio_path settings
     = (svc, inr (RuntimeError "Already transcribing"), [])) /\
  (is_transcribing svc = false -> model svc = None ->
   transcribe_audio_async env svc audio_path settings
     = (svc, inr (RuntimeError "Model not loaded"), [])) /\
  (forall m, is_transcribing svc = false -> model svc = Some m ->
     is_transcribing (fst (fst (transcribe_audio_async env svc audio_path settings)))
       = false /\
     (forall text,
        snd (fst (transcribe_audio_async env svc audio_path settings)) = inl text ->
        progress (fst (fst (transcribe_audio_async env svc audio_path settings)))
          = one) /\
     (forall e,
        transcribe env m audio_path
          (filtered_settings (default ∅ settings ∪ default_settings)) = inr e ->
        progress (fst (fst (transcribe_audio_async env svc audio_path settings)))
          = zero /\
        exists e',
          snd (fst (transcribe_audio_async env svc audio_path settings)) = inr e')).
Proof.
  split; [ | split ].
  - intros Ht. unfold transcribe_audio_async. rewrite Ht. reflexivity.
  - intros Ht Hm. unfold transcribe_audio_async. rewrite Ht, Hm. reflexivity.
  - intros m Ht Hm. unfold transcribe_audio_async. rewrite Ht, Hm.
    set (merged := default ∅ settings ∪ default_settings).
    set (svc1 := set_transcribing svc true zero (transcription_count svc)).
    pose proof (transcribe_sync_keeps env svc1 audio_path merged) as Hkeep.
    pose proof (transcribe_sync_result env svc1 audio_path merged m) as Hres.
    destruct (_transcribe_sync env svc1 audio_path merged) as [[svc2 result] effects].
    simpl in Hkeep, Hres. destruct Hkeep as (_ & Hp & Hc & He).
    destruct result as [text|e].
    + split; [ | split ].
      * destruct (on_complete (set_transcribing svc2 true one (transcription_count svc2)))
          as [[|e1]|]; simpl; try reflexivity.
        destruct (report_error _ e1). reflexivity.
      * intros text' _.
        destruct (on_complete (set_transcribing svc2 true one (transcription_count svc2)))
          as [[|e1]|]; simpl; try reflexivity.
        destruct (report_error _ e1). reflexivity.
      * intros e Hrun. destruct (Hres e Hm Hrun) as [e' He']. discriminate.
    + destruct (report_error svc2 e) as [e' reported]. simpl.
      split; [ reflexivity | ]. split; [ discriminate | ].
      intros e0 _. split; [ exact Hp | exists e'; reflexivity ].
Qed.

Lemma transcribe_audio_async_clears_flag_witness :
  is_transcribing (service false) = false /\
  is_transcribing
    (fst (fst (transcribe_audio_async model_fails (service false) "a.wav" None)))
    = false /\
  progress
    (fst (fst (transcribe_audio_async model_fails (service false) "a.wav" None)))
    = zero.
Proof.
  split; [ reflexivity | ].
  destruct (transcribe_audio_async_clears_flag
              model_fails (service false) "a.wav"%string None)
    as (_ & _ & H).
  destruct (H {| weights := "base"; placed_on := "cpu" |}%string eq_refl eq_refl)
    as (Hflag & _ & Hfail).
  split; [ exact Hflag | ].
  exact (proj1 (Hfail (Raised 1) eq_refl)).
Defined.

(** C4, counterexample.  After a transcription that succeeded the flag is
    down and the progress value is 1.0, not zero. *)
Lemma transcribe_audio_async_progress_stays_at_one :
  snd (fst (transcribe_audio_async model_answers (service false) "a.wav" None))
    = inl "hello world"%string /\
  is_transcribing
    (fst (fst (transcribe_audio_async model_answers (service false) "a.wav" None)))
    = false /\
  progress
    (fst (fst (transcribe_audio_async model_answers (service false) "a.wav" None)))
    = of_Z 1 /\
  of_Z 1 <> zero.
Proof.
  split; [ vm_compute; reflexivity | ].
  split; [ vm_compute; reflexivity | ].
  split; [ vm_compute; reflexivity | ].
  vm_compute. discriminate.
Qed.
End TranscribeCleanup.

(** ** The configuration store *)

Section ConfigFacts.
Import PyValue Config.

Lemma validated_lookup (input : gmap string value) (key : string) :
  validated input !! key =
    if bool_decide (is_Some (default_settings !! key)) then input !! key else None.
Proof.
  unfold validated. case_bool_decide as Hk.
  - destruct (input !! key) as [v|] eqn:Hv.
    + apply map_lookup_filter_Some. split; [ exact Hv | exact Hk ].
    + apply map_lookup_filter_None. left. exact Hv.
  - apply map_lookup_filter_None. right. intros v _ HP. exact (Hk HP).
Qed.

Lemma validated_conforms (input : gmap string value) :
  conforms input -> validated input = input.
Proof.
  intros Hc. apply map_eq. intros key. rewrite validated_lookup.
  case_bool_decide as Hk; [ reflexivity | ].
  destruct (input !! key) as [v|] eqn:Hv; [ | reflexivity ].
  exfalso. apply Hk. apply Hc. rewrite Hv. eexists. reflexivity.
Qed.

Lemma merged_lookup (input current : gmap string value) (key : string) :
  (validated input ∪ current) !! key =
    match validated input !! key with
    | Some v => Some v
    | None => current !! key
    end.
Proof.
  rewrite lookup_union.
  destruct (validated input !! key), (current !! key); reflexivity.
Qed.

Lemma well_formed_defaults : well_formed {| settings := default_settings |}.
Proof. intros key. cbn [settings]. tauto. Qed.

Lemma well_formed_merge (cfg : ConfigManager) (input : gmap string value) :
  well_formed cfg -> well_formed {| settings := validated input ∪ settings cfg |}.
Proof.
  intros Hwf key. cbn [settings]. rewrite merged_lookup, validated_lookup.
  case_bool_decide as Hk.
  - destruct (input !! key) as [v|].
    + split; intros _; [ exact Hk | eexists; reflexivity ].
    + apply Hwf.
  - apply Hwf.
Qed.

Lemma well_formed_new (f : file) : well_formed (new f).
Proof.
  unfold new, load_settings. destruct f as [[loaded|]|]; cbn [fst settings].
  - apply (well_formed_merge {| settings := default_settings |} loaded).
    exact well_formed_defaults.
  - exact well_formed_defaults.
  - exact well_formed_defaults.
Qed.

(** A document with exactly the keys of the schema is read back as it is. *)
Lemma load_well_formed_document (cfg : ConfigManager) :
  well_formed cfg ->
  new (Some (JsonObject (settings cfg))) = cfg /\
  snd (load_settings (Some (JsonObject (settings cfg)))
         {| settings := default_settings |}) = settings cfg.
Proof.
  intros Hwf.
  assert (Hm : validated (settings cfg) ∪ default_settings = settings cfg).
  { apply map_eq. intros key. rewrite merged_lookup, validated_lookup.
    case_bool_decide as Hk.
    - destruct (settings cfg !! key) as [v|] eqn:Hv; [ reflexivity | ].
      apply Hwf in Hk. rewrite Hv in Hk. destruct Hk as [x Hx]. discriminate.
    - assert (Hnone : settings cfg !! key = None).
      { destruct (settings cfg !! key) as [w|] eqn:Hv; [ | reflexivity ].
        exfalso. apply Hk. apply Hwf. rewrite Hv. eexists. reflexivity. }
      rewrite Hnone.
      destruct (default_settings !! key) as [v|]; [ | reflexivity ].
      exfalso. apply Hk. eexists. reflexivity. }
  unfold new, load_settings. cbn [fst snd settings]. rewrite Hm.
  destruct cfg. split; reflexivity.
Qed.
End ConfigFacts.

Section ConfigRoundTrip.
Import PyValue Config Samples.

(** C5 (as amended).  For every settings map whose keys all belong to the
    schema, a successful [save_settings] of that map followed by a fresh
    load (a new store reading the same file) yields a map identical to the
    saved in-memory state: on the keys of the input the values of the input,
    on every other key the value the saving store held before the save.
    That value is the documented default when the saving store had been
    constructed over no file or an unreadable one and not been changed. *)
Theorem save_then_fresh_load_round_trip
    (f : file) (cfg : ConfigManager) (input : gmap string value) :
  well_formed cfg -> conforms input ->
  exists cfg' f',
    save_settings DiskOk f cfg (Some input) = (cfg', f', true) /\
    new f' = cfg' /\
    snd (load_settings f' {| settings := default_settings |}) = settings cfg' /\
    (forall key v, input !! key = Some v -> settings (new f') !! key = Some v) /\
    (forall key, input !! key = None ->
       settings (new f') !! key = settings cfg !! key) /\
    (cfg = new None \/ cfg = new (Some Unreadable) ->
     forall key, input !! key = None ->
       settings (new f') !! key = default_settings !! key).
Proof.
  intros Hwf Hc.
  exists {| settings := validated input ∪ settings cfg |}.
  exists (Some (JsonObject (validated input ∪ settings cfg))).
  pose proof (well_formed_merge cfg input Hwf) as Hwf'.
  destruct (load_well_formed_document _ Hwf') as [Hnew Hload].
  cbn [settings] in Hnew, Hload.
  split; [ reflexivity | ]. split; [ exact Hnew | ]. split; [ exact Hload | ].
  rewrite Hnew. cbn [settings].
  assert (Hin : forall key v, input !! key = Some v ->
            (validated input ∪ settings cfg) !! key = Some v).
  { intros key v Hv. rewrite merged_lookup, (validated_conforms input Hc), Hv.
    reflexivity. }
  assert (Hout : forall key, input !! key = None ->
            (validated input ∪ settings cfg) !! key = settings cfg !! key).
  { intros key Hv. rewrite merged_lookup, (validated_conforms input Hc), Hv.
    reflexivity. }
  split; [ exact Hin | ]. split; [ exact Hout | ].
  intros Hfresh key Hv. rewrite (Hout key Hv).
  destruct Hfresh as [-> | ->]; reflexivity.
Qed.

Lemma language_only_conforms : conforms language_only.
Proof.
  intros key [v Hv]. unfold language_only in Hv.
  apply lookup_singleton_Some in Hv as [<- _]. vm_compute. eexists. reflexivity.
Qed.

(** First run: no file yet, the language is saved, a new store reads the
    language back and finds the default model. *)
Lemma save_then_fresh_load_round_trip_witness :
  well_formed (new None) /\ conforms language_only /\
  exists cfg' f',
    save_settings DiskOk None (new None) (Some language_only) = (cfg', f', true) /\
    new f' = cfg' /\
    settings (new f') !! "language"%string = Some (VStr "en") /\
    settings (new f') !! "model"%string = Some (VStr "base").
Proof.
  split; [ apply well_formed_new | ].
  split; [ exact language_only_conforms | ].
  destruct (save_then_fresh_load_round_trip None (new None) language_only
              (well_formed_new None) language_only_conforms)
    as (cfg' & f' & Hsave & Hnew & _ & Hin & _ & Hdef).
  exists cfg', f'.
  split; [ exact Hsave | ]. split; [ exact Hnew | ].
  split.
  - apply Hin. reflexivity.
  - rewrite (Hdef (or_introl eq_refl) "model"%string eq_refl). reflexivity.
Defined.

(** C5, counterexample.  The store was constructed over a file in which an
    earlier session had chosen the small model.  Saving a map that only
    sets the language and loading afresh gives the small model, not the
    documented default "base", for the key "model" that the input lacks. *)
Lemma fresh_load_keeps_earlier_values :
  conforms language_only /\
  language_only !! "model"%string = None /\
  snd (save_settings DiskOk earlier_file (new earlier_file) (Some language_only))
    = true /\
  settings
    (new (snd (fst (save_settings DiskOk earlier_file (new earlier_file)
                      (Some language_only))))) !! "model"%string
    = Some (VStr "small") /\
  default_settings !! "model"%string = Some (VStr "base").
Proof.
  split; [ exact language_only_conforms | ].
  repeat split; vm_compute; reflexivity.
Qed.
End ConfigRoundTrip.

Section TableStore.
Import DateTime Database.
Local Open Scope Z_scope.

Lemma find_has_id_none (db : table) (rid : string) :
  List.find (has_id rid) db = None <-> existsb (has_id rid) db = false.
Proof.
  induction db as [|x db IH]; simpl; [ tauto | ].
  destruct (has_id rid x); simpl; [ split; discriminate | exact IH ].
Qed.

Lemma find_has_id_app (db : table) (rid : string) (r : Recording) :
  List.find (has_id rid) (db ++ [r]) =
    match List.find (has_id rid) db with
    | Some x => Some x
    | None => if has_id rid r then Some r else None
    end.
Proof.
  induction db as [|x db IH]; simpl; [ reflexivity | ].
  destruct (has_id rid x); [ reflexivity | exact IH ].
Qed.

Lemma has_id_own (r : Recording) : has_id (id r) r = true.
Proof. unfold has_id. apply bool_decide_eq_true. reflexivity. Qed.

Lemma has_id_other (rid : string) (r : Recording) :
  rid <> id r -> has_id rid r = false.
Proof. intros H. unfold has_id. apply bool_decide_eq_false. congruence. Qed.

Lemma has_id_stored (r : Recording) : has_id (id r) (stored_row r) = true.
Proof. exact (has_id_own (stored_row r)). Qed.

Lemma has_id_other_stored (rid : string) (r : Recording) :
  rid <> id r -> has_id rid (stored_row r) = false.
Proof. exact (has_id_other rid (stored_row r)). Qed.

Lemma stored_row_columns (r : Recording) :
  stored_row r =
    {| id := id r;
       timestamp := timestamp r;
       filename := filename r;
       transcription := transcription r;
       duration := match duration r with
                   | S754_zero _ => S754_zero false
                   | seconds => seconds
                   end;
       language := language r;
       model_used := model_used r;
       file_size := file_size r;
       settings := settings r |}.
Proof. unfold stored_row, stored_real. destruct (duration r); reflexivity. Qed.

Lemma int64_iff (z : Z) : int64 z = true <-> - 2 ^ 63 <= z < 2 ^ 63.
Proof.
  unfold int64. rewrite andb_true_iff, Z.leb_le, Z.ltb_lt. reflexivity.
Qed.

Lemma bindable_iff (r : Recording) :
  bindable r = true <-> forall z, file_size r = Some z -> - 2 ^ 63 <= z < 2 ^ 63.
Proof.
  unfold bindable. destruct (file_size r) as [z|].
  - rewrite int64_iff. split.
    + intros H z' [= <-]. exact H.
    + intros H. apply H. reflexivity.
  - split; [ intros _ z; discriminate | reflexivity ].
Qed.

Lemma is_nan_iff (f : Float64.float64) :
  Float64.is_nan f = false <-> f <> S754_nan.
Proof. destruct f; simpl; split; congruence. Qed.

(** X1. A recording is added exactly when no stored row has its id, its
    duration is a number and its file size fits 64 bits; it can then be
    read back under that id as it was given, but for the sign of a zero
    duration, which the table does not keep; what is read under every
    other id is as before.  A refused recording leaves the table as it
    was. *)
Theorem add_recording_then_get_recording (db : table) (r : Recording) :
  let '(db', ok) := add_recording StorageOk db r in
  (ok = true <->
     get_recording StorageOk db (id r) = None /\
     duration r <> S754_nan /\
     (forall z, file_size r = Some z -> - 2 ^ 63 <= z < 2 ^ 63)) /\
  (ok = true ->
     get_recording StorageOk db' (id r) =
       Some {| id := id r;
               timestamp := timestamp r;
               filename := filename r;
               transcription := transcription r;
               duration := match duration r with
                           | S754_zero _ => S754_zero false
                           | seconds => seconds
                           end;
               language := language r;
               model_used := model_used r;
               file_size := file_size r;
               settings := settings r |}) /\
  (ok = false -> db' = db) /\
  (forall rid, rid <> id r ->
     get_recording StorageOk db' rid = get_recording StorageOk db rid).
Proof.
  unfold add_recording, get_recording.
  destruct (bindable r) eqn:Hb; cbn [negb].
  2: { split; [ | repeat split; try discriminate; reflexivity ].
       split; [ discriminate | ].
       intros (_ & _ & Hz). apply bindable_iff in Hz. congruence. }
  destruct (Float64.is_nan (duration r)) eqn:Hn.
  { split; [ | repeat split; try discriminate; reflexivity ].
    split; [ discriminate | ].
    intros (_ & Hd & _). apply is_nan_iff in Hd. congruence. }
  destruct (existsb (has_id (id r)) db) eqn:He.
  - split; [ | repeat split; try discriminate; reflexivity ].
    split; [ discriminate | ].
    intros (Hf & _). apply find_has_id_none in Hf. congruence.
  - split; [ | split; [ | split ] ].
    + split; [ | reflexivity ].
      intros _. split; [ apply find_has_id_none; exact He | ].
      split; [ apply is_nan_iff; exact Hn | apply bindable_iff; exact Hb ].
    + intros _. rewrite find_has_id_app.
      apply find_has_id_none in He. rewrite He.
      rewrite has_id_stored, stored_row_columns. reflexivity.
    + discriminate.
    + intros rid Hne. rewrite find_has_id_app.
      rewrite (has_id_other_stored rid r Hne).
      destruct (List.find (has_id rid) db); reflexivity.
Qed.

Lemma update_row_id (r x : Recording) : id (update_row r x) = id x.
Proof.
  unfold update_row, has_id. case_bool_decide as H; [ | reflexivity ].
  symmetry. exact H.
Qed.

Lemma map_id_update (db : table) (r : Recording) :
  List.map id (List.map (update_row r) db) = List.map id db.
Proof.
  rewrite List.map_map. apply List.map_ext. intros x. apply update_row_id.
Qed.

Lemma NoDup_map_filter (f : Recording -> bool) (db : table) :
  List.NoDup (List.map id db) -> List.NoDup (List.map id (List.filter f db)).
Proof.
  induction db as [|x db IH]; simpl; intros H; [ exact H | ].
  inversion H as [|? ? Hn Hd]; subst.
  destruct (f x); simpl; [ | apply IH; exact Hd ].
  constructor; [ | apply IH; exact Hd ].
  intros Hin. apply Hn. apply List.in_map_iff in Hin as (y & Hy & Hin).
  apply List.filter_In in Hin as [Hin _].
  apply List.in_map_iff. exists y. split; assumption.
Qed.

Lemma existsb_has_id_in (db : table) (rid : string) :
  existsb (has_id rid) db = false -> ~ In rid (List.map id db).
Proof.
  intros He Hin. apply List.in_map_iff in Hin as (y & Hy & Hin).
  assert (Ht : existsb (has_id rid) db = true).
  { apply List.existsb_exists. exists y. split; [ exact Hin | ].
    unfold has_id. apply bool_decide_eq_true. exact Hy. }
  congruence.
Qed.

Lemma NoDup_snoc (ids : list string) (rid : string) :
  List.NoDup ids -> ~ In rid ids -> List.NoDup (ids ++ [rid]).
Proof.
  induction ids as [|x ids IH]; simpl; intros Hnd Hn.
  - constructor; [ intros [] | constructor ].
  - inversion Hnd as [|? ? Hx Hd]; subst. constructor.
    + intros Hin. apply List.in_app_or in Hin as [Hin|[->|[]]]; tauto.
    + apply IH; tauto.
Qed.

(** X2. The primary key holds in every reachable table: when no two rows
    share an id, no two rows share one after [add_recording],
    [update_recording], [delete_recording], [delete_all_recordings] or
    [cleanup_old_recordings], whether the storage layer fails or not. *)
Theorem recording_ids_stay_unique (st : storage) (db : table) (r : Recording)
    (rid : string) (now : datetime) (days : Z) :
  List.NoDup (List.map id db) ->
  List.NoDup (List.map id (add_recording st db r).1) /\
  List.NoDup (List.map id (update_recording st db r).1) /\
  List.NoDup (List.map id (delete_recording st db rid).1) /\
  List.NoDup (List.map id (delete_all_recordings st db).1) /\
  List.NoDup (List.map id (cleanup_old_recordings st db now days).1).
Proof.
  intros Hnd. repeat split.
  - unfold add_recording. destruct st; [ | exact Hnd ].
    destruct (negb (bindable r)); [ exact Hnd | ].
    destruct (Float64.is_nan (duration r)); [ exact Hnd | ].
    destruct (existsb (has_id (id r)) db) eqn:He; cbn [fst]; [ exact Hnd | ].
    rewrite List.map_app. cbn [List.map].
    apply NoDup_snoc; [ exact Hnd | apply existsb_has_id_in; exact He ].
  - unfold update_recording. destruct st; cbn [fst]; [ | exact Hnd ].
    destruct (Float64.is_nan (duration r) && existsb (has_id (id r)) db);
      cbn [fst]; [ exact Hnd | ].
    rewrite map_id_update. exact Hnd.
  - unfold delete_recording. destruct st; cbn [fst]; [ | exact Hnd ].
    apply NoDup_map_filter. exact Hnd.
  - unfold delete_all_recordings. destruct st; cbn [fst]; [ constructor | exact Hnd ].
  - unfold cleanup_old_recordings.
    destruct (cutoff_date now days); [ | exact Hnd ].
    destruct st; cbn [fst]; [ | exact Hnd ].
    apply NoDup_map_filter. exact Hnd.
Qed.

Lemma find_filter_other (db : table) (rid other : string) :
  other <> rid ->
  List.find (has_id other) (List.filter (fun r => negb (has_id rid r)) db) =
  List.find (has_id other) db.
Proof.
  intros Hne. induction db as [|x db IH]; simpl; [ reflexivity | ].
  destruct (has_id rid x) eqn:Hx; simpl.
  - assert (has_id other x = false) as ->; [ | exact IH ].
    unfold has_id in *. apply bool_decide_eq_true in Hx.
    apply bool_decide_eq_false. congruence.
  - destruct (has_id other x); [ reflexivity | exact IH ].
Qed.

Lemma find_filter_same (db : table) (rid : string) :
  List.find (has_id rid) (List.filter (fun r => negb (has_id rid r)) db) = None.
Proof.
  induction db as [|x db IH]; simpl; [ reflexivity | ].
  destruct (has_id rid x) eqn:Hx; simpl; [ exact IH | ].
  rewrite Hx. exact IH.
Qed.

Lemma filter_has_id_length (db : table) (rid : string) :
  (0 <? Z.of_nat (length (List.filter (has_id rid) db))) =
  existsb (has_id rid) db.
Proof.
  induction db as [|x db IH]; simpl; [ reflexivity | ].
  destruct (has_id rid x); simpl; [ | exact IH ].
  apply Z.ltb_lt. lia.
Qed.

(** X3. [delete_recording] answers whether a row with the id was stored;
    afterwards nothing is read under that id, every other id reads as
    before, and deleting the same id again answers [False]. *)
Theorem delete_recording_then_get_recording (db : table) (rid : string) :
  let '(db', ok) := delete_recording StorageOk db rid in
  (ok = true <-> get_recording StorageOk db rid <> None) /\
  get_recording StorageOk db' rid = None /\
  (forall other, other <> rid ->
     get_recording StorageOk db' other = get_recording StorageOk db other) /\
  delete_recording StorageOk db' rid = (db', false).
Proof.
  unfold delete_recording, get_recording. repeat split.
  - rewrite filter_has_id_length. intros He Hf.
    apply find_has_id_none in Hf. congruence.
  - rewrite filter_has_id_length. intros Hf.
    destruct (existsb (has_id rid) db) eqn:He; [ reflexivity | ].
    apply find_has_id_none in He. contradiction.
  - apply find_filter_same.
  - intros other Hne. apply find_filter_other. exact Hne.
  - rewrite filter_has_id_length.
    assert (He : existsb (has_id rid)
                   (List.filter (fun r => negb (has_id rid r)) db) = false).
    { apply find_has_id_none. apply find_filter_same. }
    rewrite He. f_equal.
    apply List.forallb_filter_id. clear He.
    induction db as [|x db IH]; simpl; [ reflexivity | ].
    destruct (has_id rid x) eqn:Hx; simpl; [ exact IH | ].
    rewrite Hx. simpl. exact IH.
Qed.

Lemma find_update_same (db : table) (r : Recording) :
  List.find (has_id (id r)) (List.map (update_row r) db) =
    match List.find (has_id (id r)) db with
    | Some _ => Some (stored_row r)
    | None => None
    end.
Proof.
  induction db as [|x db IH]; simpl; [ reflexivity | ].
  destruct (has_id (id r) x) eqn:Hx.
  - assert (update_row r x = stored_row r) as ->
      by (unfold update_row; rewrite Hx; reflexivity).
    rewrite has_id_stored. reflexivity.
  - assert (update_row r x = x) as -> by (unfold update_row; rewrite Hx; reflexivity).
    rewrite Hx. exact IH.
Qed.

Lemma find_update_other (db : table) (r : Recording) (other : string) :
  other <> id r ->
  List.find (has_id other) (List.map (update_row r) db) =
  List.find (has_id other) db.
Proof.
  intros Hne. induction db as [|x db IH]; simpl; [ reflexivity | ].
  destruct (has_id (id r) x) eqn:Hx.
  - assert (update_row r x = stored_row r) as ->
      by (unfold update_row; rewrite Hx; reflexivity).
    rewrite (has_id_other_stored other r Hne).
    assert (has_id other x = false) as ->; [ | exact IH ].
    unfold has_id in *. apply bool_decide_eq_true in Hx.
    apply bool_decide_eq_false. congruence.
  - assert (update_row r x = x) as -> by (unfold update_row; rewrite Hx; reflexivity).
    destruct (has_id other x); [ reflexivity | exact IH ].
Qed.

(** X4. [update_recording] with a file size that fits 64 bits keeps the
    number of rows.  It is refused, and the table left as it was, exactly
    when the duration is NaN and a row has the id.  Else the id of the
    given recording reads as the given recording, but for the sign of a
    zero duration, if it was stored and as nothing if it was not.  Every
    other id reads as before. *)
Theorem update_recording_then_get_recording (db : table) (r : Recording) :
  (forall z, file_size r = Some z -> - 2 ^ 63 <= z < 2 ^ 63) ->
  let '(db', ok) := update_recording StorageOk db r in
  length db' = length db /\
  (ok = false <->
     duration r = S754_nan /\ get_recording StorageOk db (id r) <> None) /\
  (ok = false -> db' = db) /\
  (ok = true ->
     get_recording StorageOk db' (id r) =
       match get_recording StorageOk db (id r) with
       | Some _ =>
           Some {| id := id r;
                   timestamp := timestamp r;
                   filename := filename r;
                   transcription := transcription r;
                   duration := match duration r with
                               | S754_zero _ => S754_zero false
                               | seconds => seconds
                               end;
                   language := language r;
                   model_used := model_used r;
                   file_size := file_size r;
                   settings := settings r |}
       | None => None
       end) /\
  (forall other, other <> id r ->
     get_recording StorageOk db' other = get_recording StorageOk db other).
Proof.
  intros _. unfold update_recording, get_recording.
  destruct (Float64.is_nan (duration r)) eqn:Hn; cbn [andb].
  - destruct (existsb (has_id (id r)) db) eqn:He.
    + split; [ reflexivity | ].
      split; [ | split; [ reflexivity | split; [ discriminate | reflexivity ] ] ].
      split; [ | reflexivity ].
      intros _. split; [ destruct (duration r); try discriminate; reflexivity | ].
      intros Hf. apply find_has_id_none in Hf. congruence.
    + split; [ apply List.length_map | ].
      split; [ | split; [ discriminate | split ] ].
      * split; [ discriminate | ].
        intros [_ Hf]. exfalso. apply Hf. apply find_has_id_none. exact He.
      * intros _. rewrite <- stored_row_columns. apply find_update_same.
      * intros other Hne. apply find_update_other. exact Hne.
  - split; [ apply List.length_map | ].
    split; [ | split; [ discriminate | split ] ].
    + split; [ discriminate | ].
      intros [Hd _]. rewrite Hd in Hn. discriminate Hn.
    + intros _. rewrite <- stored_row_columns. apply find_update_same.
    + intros other Hne. apply find_update_other. exact Hne.
Qed.
End TableStore.

Section TableStoreCases.
Import DateTime Database Samples.
Local Open Scope Z_scope.

Lemma three_recordings_ids : List.NoDup (List.map id three_recordings).
Proof.
  repeat constructor; simpl; intros H;
    repeat (destruct H as [H|H]; [ discriminate H | ]); exact H.
Qed.

Lemma recording_ids_stay_unique_witness :
  List.NoDup (List.map id three_recordings) /\
  List.NoDup (List.map id (add_recording StorageOk three_recordings long_ago).1) /\
  List.NoDup (List.map id (delete_recording StorageOk three_recordings "b").1).
Proof.
  pose proof (recording_ids_stay_unique StorageOk three_recordings long_ago "b"
                noon 30 three_recordings_ids) as (Hadd & _ & Hdel & _).
  split; [ exact three_recordings_ids | ].
  split; [ exact Hadd | exact Hdel ].
Defined.

(** The row "b" takes a new duration; with a NaN it is refused. *)
Lemma update_recording_then_get_recording_witness :
  (forall z, file_size (recording_at "b" noon 5 (Some "en"%string)) = Some z ->
     - 2 ^ 63 <= z < 2 ^ 63) /\
  get_recording StorageOk
    (update_recording StorageOk three_recordings
       (recording_at "b" noon 5 (Some "en"%string))).1 "b"
    = Some (recording_at "b" noon 5 (Some "en"%string)).
Proof.
  assert (Hfit : forall z,
            file_size (recording_at "b" noon 5 (Some "en"%string)) = Some z ->
            - 2 ^ 63 <= z < 2 ^ 63)
    by (intros z [= <-]; lia).
  split; [ exact Hfit | ].
  pose proof (update_recording_then_get_recording three_recordings
                (recording_at "b" noon 5 (Some "en"%string)) Hfit) as H.
  destruct (update_recording StorageOk three_recordings
              (recording_at "b" noon 5 (Some "en"%string))) as [db' ok] eqn:E.
  vm_compute in E. injection E as <- <-.
  destruct H as (_ & _ & _ & Hget & _).
  cbn [fst]. exact (Hget eq_refl).
Defined.

Example update_recording_cases :
  update_recording StorageOk three_recordings (recording_of "b" S754_nan None None)
    = (three_recordings, false) /\
  update_recording StorageOk three_recordings (recording_of "z" S754_nan None None)
    = (three_recordings, true) /\
  add_recording StorageOk three_recordings (recording_of "z" S754_nan None None)
    = (three_recordings, false) /\
  add_recording StorageOk three_recordings
    (recording_of "z" (Float64.of_Z 1) None (Some (2 ^ 63)))
    = (three_recordings, false) /\
  add_recording StorageOk three_recordings
    (recording_of "z" (S754_zero true) None (Some (2 ^ 63 - 1)))
    = (three_recordings ++ [recording_of "z" (S754_zero false) None (Some (2 ^ 63 - 1))],
       true).
Proof. repeat split; reflexivity. Qed.
End TableStoreCases.

(* ===================================================================== *)
(** ** Listing and searching *)
(* ===================================================================== *)

Section Listing.
Import DateTime Database.
Local Open Scope Z_scope.

Lemma In_firstn (n : nat) (rows : list Recording) (r : Recording) :
  In r (List.firstn n rows) -> In r rows.
Proof.
  intros H. rewrite <- (List.firstn_skipn n rows).
  apply List.in_or_app. left. exact H.
Qed.

Lemma In_skipn (n : nat) (rows : list Recording) (r : Recording) :
  In r (List.skipn n rows) -> In r rows.
Proof.
  intros H. rewrite <- (List.firstn_skipn n rows).
  apply List.in_or_app. right. exact H.
Qed.

Lemma insert_desc_head (x r : Recording) (rows : list Recording) :
  newest_first x r -> HdRel newest_first x rows ->
  HdRel newest_first x (insert_desc r rows).
Proof.
  intros Hxr Hhd. destruct rows as [|y rows]; cbn [insert_desc].
  - constructor. exact Hxr.
  - destruct (text_ltb _ _).
    + constructor. exact Hxr.
    + constructor. inversion Hhd; assumption.
Qed.

Lemma insert_desc_sorted (r : Recording) (rows : list Recording) :
  valid (timestamp r) -> (forall x, In x rows -> valid (timestamp x)) ->
  Sorted newest_first rows -> Sorted newest_first (insert_desc r rows).
Proof.
  intros Hr. induction rows as [|x rows IH]; intros Hv Hs; cbn [insert_desc].
  - constructor; constructor.
  - assert (Hx : valid (timestamp x)) by (apply Hv; left; reflexivity).
    inversion Hs as [|? ? Hs' Hhd]; subst.
    destruct (text_ltb (isoformat (timestamp x)) (isoformat (timestamp r))) eqn:Hlt.
    + apply text_ltb_iso in Hlt; [ | assumption | assumption ].
      constructor; [ exact Hs | constructor; unfold newest_first; lia ].
    + apply text_ltb_iso_false in Hlt; [ | assumption | assumption ].
      constructor.
      * apply IH; [ intros y Hy; apply Hv; right; exact Hy | exact Hs' ].
      * apply insert_desc_head; [ exact Hlt | exact Hhd ].
Qed.

Lemma order_by_timestamp_desc_sorted (rows : list Recording) :
  timestamps_valid rows ->
  StronglySorted newest_first (order_by_timestamp_desc rows).
Proof.
  intros Hv. apply Sorted_StronglySorted; [ intros a b c; unfold newest_first; lia | ].
  induction rows as [|x rows IH]; [ constructor | ].
  change (order_by_timestamp_desc (x :: rows))
    with (insert_desc x (order_by_timestamp_desc rows)).
  apply insert_desc_sorted.
  - apply Hv. left; reflexivity.
  - intros y Hy. apply Hv. right.
    apply (Permutation_in _ (order_by_timestamp_desc_perm rows)). exact Hy.
  - apply IH. intros y Hy. apply Hv. right. exact Hy.
Qed.

Lemma StronglySorted_skipn (n : nat) (rows : list Recording) :
  StronglySorted newest_first rows -> StronglySorted newest_first (List.skipn n rows).
Proof.
  revert rows. induction n as [|n IH]; intros rows Hs; [ exact Hs | ].
  destruct rows as [|x rows]; [ constructor | ].
  simpl. apply IH. inversion Hs; assumption.
Qed.

Lemma StronglySorted_firstn (n : nat) (rows : list Recording) :
  StronglySorted newest_first rows -> StronglySorted newest_first (List.firstn n rows).
Proof.
  revert rows. induction n as [|n IH]; intros rows Hs; [ constructor | ].
  destruct rows as [|x rows]; [ constructor | ].
  simpl. inversion Hs as [|? ? Hs' Hall]; subst. constructor.
  - apply IH. exact Hs'.
  - rewrite List.Forall_forall in *. intros y Hy. apply Hall.
    exact (In_firstn _ _ _ Hy).
Qed.

Lemma sql_limit_sorted (limit offset : Z) (rows : list Recording) :
  StronglySorted newest_first rows ->
  StronglySorted newest_first (sql_limit limit offset rows).
Proof.
  intros Hs. unfold sql_limit.
  destruct (int64 limit && int64 offset); [ | constructor ].
  destruct (limit <? 0).
  - apply StronglySorted_skipn. exact Hs.
  - apply StronglySorted_firstn, StronglySorted_skipn. exact Hs.
Qed.

Lemma sql_limit_In (limit offset : Z) (rows : list Recording) (r : Recording) :
  In r (sql_limit limit offset rows) -> In r rows.
Proof.
  unfold sql_limit. intros H.
  destruct (int64 limit && int64 offset); [ | destruct H ].
  destruct (limit <? 0).
  - eapply In_skipn; exact H.
  - eapply In_skipn. eapply In_firstn. exact H.
Qed.

(** X5. [get_all_recordings] lists newest first: in what it returns no row
    is older than a row after it, with or without a page; every returned
    row is a stored row, and without a limit the list holds every stored
    row once. *)
Theorem get_all_recordings_newest_first (db : table) (limit : option Z)
    (offset : Z) :
  timestamps_valid db ->
  let rows := get_all_recordings StorageOk db limit offset in
  StronglySorted newest_first rows /\
  (forall r, In r rows -> In r db) /\
  (truthy_int limit = false -> Permutation rows db).
Proof.
  intros Hv rows. subst rows. unfold get_all_recordings.
  pose proof (order_by_timestamp_desc_sorted db Hv) as Hs.
  pose proof (order_by_timestamp_desc_perm db) as Hp.
  destruct limit as [l|].
  - destruct (truthy_int (Some l)) eqn:Ht.
    + split; [ apply sql_limit_sorted; exact Hs | ].
      split; [ | discriminate ].
      intros r Hr. apply sql_limit_In in Hr.
      apply (Permutation_in _ Hp). exact Hr.
    + split; [ exact Hs | ].
      split; [ intros r Hr; apply (Permutation_in _ Hp); exact Hr | ].
      intros _. exact Hp.
  - split; [ exact Hs | ].
    split; [ intros r Hr; apply (Permutation_in _ Hp); exact Hr | ].
    intros _. exact Hp.
Qed.

Lemma firstn_more (A : Type) (a b : nat) (xs : list A) :
  List.firstn a xs ++ List.firstn b (List.skipn a xs) = List.firstn (a + b) xs.
Proof.
  revert xs. induction a as [|a IH]; intros xs; [ reflexivity | ].
  destruct xs as [|x xs]; simpl.
  - rewrite List.firstn_nil. reflexivity.
  - rewrite IH. reflexivity.
Qed.

(** X6. Pages join up as long as the numbers fit 64 bits: a page of [l1]
    rows at an offset followed by the page of [l2] rows that starts where it
    ends is the page of [l1 + l2] rows at that offset; no row is skipped or
    listed twice between them.  With a limit other than 0, a limit or an
    offset beyond 64 bits gives the empty list. *)
Theorem get_all_recordings_pages_join (db : table) (l1 l2 offset : Z) :
  0 < l1 -> 0 < l2 -> 0 <= offset -> offset + l1 + l2 < 2 ^ 63 ->
  get_all_recordings StorageOk db (Some l1) offset ++
  get_all_recordings StorageOk db (Some l2) (offset + l1) =
  get_all_recordings StorageOk db (Some (l1 + l2)) offset /\
  (forall limit start,
     limit <> 0 ->
     ~ (- 2 ^ 63 <= limit < 2 ^ 63 /\ - 2 ^ 63 <= start < 2 ^ 63) ->
     get_all_recordings StorageOk db (Some limit) start = []).
Proof.
  intros H1 H2 Ho Hfit. split.
  - unfold get_all_recordings, truthy_int, sql_limit.
    destruct (Z.eqb_spec l1 0) as [|_]; [ lia | ].
    destruct (Z.eqb_spec l2 0) as [|_]; [ lia | ].
    destruct (Z.eqb_spec (l1 + l2) 0) as [|_]; [ lia | ].
    cbn [negb].
    assert (Hint : forall z, 0 <= z < 2 ^ 63 -> int64 z = true)
      by (intros z Hz; apply int64_iff; lia).
    rewrite (Hint l1), (Hint l2), (Hint (l1 + l2)), (Hint offset),
      (Hint (offset + l1)) by lia.
    cbn [andb].
    destruct (Z.ltb_spec l1 0); [ lia | ].
    destruct (Z.ltb_spec l2 0); [ lia | ].
    destruct (Z.ltb_spec (l1 + l2) 0); [ lia | ].
    replace (Z.to_nat (offset + l1)) with (Z.to_nat l1 + Z.to_nat offset)%nat by lia.
    rewrite <- List.skipn_skipn.
    replace (Z.to_nat (l1 + l2)) with (Z.to_nat l1 + Z.to_nat l2)%nat by lia.
    apply firstn_more.
  - intros limit start Hl Hout. unfold get_all_recordings, truthy_int, sql_limit.
    destruct (Z.eqb_spec limit 0) as [|_]; [ contradiction | ]. cbn [negb].
    destruct (int64 limit && int64 start) eqn:Hin; [ | reflexivity ].
    exfalso. apply Hout. apply andb_true_iff in Hin as [Ha Hb].
    split; apply int64_iff; assumption.
Qed.
End Listing.

Section ListingCases.
Import DateTime Database Samples.
Local Open Scope Z_scope.

Lemma get_all_recordings_newest_first_witness :
  timestamps_valid cleanup_table /\
  StronglySorted newest_first
    (get_all_recordings StorageOk cleanup_table (Some 2) 0) /\
  Permutation (get_all_recordings StorageOk cleanup_table None 0) cleanup_table.
Proof.
  split; [ exact cleanup_sample_valid | ].
  split.
  - exact (proj1 (get_all_recordings_newest_first cleanup_table (Some 2) 0
                    cleanup_sample_valid)).
  - apply (proj2 (proj2 (get_all_recordings_newest_first cleanup_table None 0
                           cleanup_sample_valid))).
    reflexivity.
Defined.

Lemma get_all_recordings_pages_join_witness :
  get_all_recordings StorageOk cleanup_table (Some 1) 0 ++
  get_all_recordings StorageOk cleanup_table (Some 1) (0 + 1) =
  get_all_recordings StorageOk cleanup_table (Some (1 + 1)) 0 /\
  get_all_recordings StorageOk cleanup_table (Some (2 ^ 63)) 0 = [].
Proof.
  destruct (get_all_recordings_pages_join cleanup_table 1 1 0) as [Hjoin Hout];
    [ lia | lia | lia | lia | ].
  split; [ exact Hjoin | ].
  apply Hout; lia.
Defined.

(** Three rows with one timestamp: the listing gives the one inserted last
    first, the search for a language gives them as they were inserted. *)
Example equal_timestamps_cases :
  List.map id (get_all_recordings StorageOk three_recordings None 0)
    = ["c"; "b"; "a"]%string /\
  List.map id (search_recordings StorageOk three_recordings "hello" None None None None)
    = ["c"; "b"; "a"]%string /\
  List.map id
    (search_recordings StorageOk three_recordings "hello" (Some "en"%string)
       None None None)
    = ["a"; "b"]%string.
Proof. repeat split; reflexivity. Qed.
End ListingCases.

(* ===================================================================== *)
(** ** Searching *)
(* ===================================================================== *)

Section Searching.
Import DateTime Database.
Local Open Scope Z_scope.

(** The loop of [like_chars] on a [%]: some suffix of the text matches the
    rest of the pattern. *)
Lemma like_percent (p s : list ascii) :
  like_chars ("%"%char :: p) s =
    (like_chars p s || match s with
                       | [] => false
                       | _ :: s' => like_chars ("%"%char :: p) s'
                       end).
Proof. destruct s; reflexivity. Qed.

Lemma like_percent_skip (p pre s : list ascii) :
  like_chars p s = true -> like_chars ("%"%char :: p) (pre ++ s) = true.
Proof.
  intros H. induction pre as [|c pre IH].
  - rewrite like_percent. cbn [List.app]. rewrite H. reflexivity.
  - rewrite like_percent. cbn [List.app]. rewrite IH. apply orb_true_r.
Qed.

Lemma like_other (c : ascii) (p s : list ascii) :
  Ascii.eqb c "%"%char = false ->
  like_chars (c :: p) s =
    match s with
    | [] => false
    | d :: s' =>
        (Ascii.eqb c "_"%char || Ascii.eqb (sql_upper c) (sql_upper d))
        && like_chars p s'
    end.
Proof. intros H. cbn [like_chars]. rewrite H. reflexivity. Qed.

(** A pattern matches a text that is the pattern up to the case of ASCII
    letters, followed by anything the rest of the pattern matches. *)
Lemma like_same_letters (q m p s : list ascii) :
  List.map sql_upper m = List.map sql_upper q ->
  like_chars p s = true ->
  like_chars (q ++ p) (m ++ s) = true.
Proof.
  revert m. induction q as [|c q IH]; intros m Hm Hp.
  - destruct m; [ exact Hp | discriminate ].
  - destruct m as [|d m]; [ discriminate | ].
    injection Hm as Hd Hm. cbn [List.app].
    destruct (Ascii.eqb c "%"%char) eqn:Hc.
    + apply Ascii.eqb_eq in Hc. subst c.
      rewrite like_percent. apply orb_true_iff. right.
      apply (like_percent_skip (q ++ p) [] (m ++ s)).
      apply IH; assumption.
    + rewrite like_other by exact Hc.
      rewrite <- Hd, Ascii.eqb_refl, orb_true_r. cbn [andb].
      apply IH; assumption.
Qed.

Lemma list_ascii_of_string_app (s t : string) :
  list_ascii_of_string (s ++ t) = list_ascii_of_string s ++ list_ascii_of_string t.
Proof.
  induction s as [|c s IH]; [ reflexivity | ].
  simpl. f_equal. exact IH.
Qed.

Lemma string_length_app (s t : string) :
  String.length (s ++ t) = (String.length s + String.length t)%nat.
Proof.
  induction s as [|c s IH]; [ reflexivity | ].
  simpl. f_equal. exact IH.
Qed.

(** A text without NUL is read whole, and one that starts with such a text
    is read at least that far. *)
Lemma c_string_app (s t : list ascii) :
  ~ In "000"%char s -> c_string (s ++ t) = s ++ c_string t.
Proof.
  induction s as [|c s IH]; intros Hn; [ reflexivity | ].
  cbn [List.app c_string].
  destruct (Ascii.eqb c "000"%char) eqn:Hc.
  - apply Ascii.eqb_eq in Hc. exfalso. apply Hn. left. congruence.
  - rewrite IH; [ reflexivity | ]. intros Hin. apply Hn. right. exact Hin.
Qed.

Lemma c_string_whole (s : list ascii) :
  ~ In "000"%char s -> c_string s = s.
Proof.
  intros Hn. rewrite <- (List.app_nil_r s) at 1.
  rewrite c_string_app by exact Hn. apply List.app_nil_r.
Qed.

Lemma sql_upper_nul (c : ascii) : sql_upper c = "000"%char -> c = "000"%char.
Proof.
  intros H. destruct c as [[] [] [] [] [] [] [] []];
    first [ reflexivity | vm_compute in H; discriminate H ].
Qed.

Lemma same_letters_no_nul (q m : list ascii) :
  List.map sql_upper m = List.map sql_upper q ->
  ~ In "000"%char q -> ~ In "000"%char m.
Proof.
  revert m. induction q as [|c q IH]; intros m Hm Hn.
  - destruct m; [ exact Hn | discriminate ].
  - destruct m as [|d m]; [ intros [] | ].
    injection Hm as Hd Hm. intros [Hz|Hin].
    + apply Hn. left. apply sql_upper_nul. rewrite <- Hd, Hz. reflexivity.
    + apply (IH m Hm); [ | exact Hin ]. intros H. apply Hn. right. exact H.
Qed.

Lemma like_percent_all (s : list ascii) : like_chars ["%"%char] s = true.
Proof.
  induction s as [|c s IH]; rewrite like_percent; [ reflexivity | ].
  rewrite IH. apply orb_true_r.
Qed.

Lemma like_contains (query found before after : string) :
  ~ In "000"%char (list_ascii_of_string query) ->
  ~ In "000"%char (list_ascii_of_string before) ->
  Z.of_nat (String.length query) + 2 <= MAX_LIKE_PATTERN_LENGTH ->
  List.map sql_upper (list_ascii_of_string found) =
  List.map sql_upper (list_ascii_of_string query) ->
  like ("%" ++ query ++ "%") (before ++ found ++ after) = true.
Proof.
  intros Hq Hb Hlen Hm. unfold like.
  destruct (Z.ltb_spec MAX_LIKE_PATTERN_LENGTH
              (Z.of_nat (String.length ("%" ++ query ++ "%")))) as [Hlong|_].
  { rewrite !string_length_app in Hlong. simpl String.length in Hlong. lia. }
  rewrite !list_ascii_of_string_app.
  change (list_ascii_of_string "%") with ["%"%char].
  rewrite c_string_whole.
  2: { cbn [List.app]. intros [H|H]; [ discriminate H | ].
       apply List.in_app_or in H as [H|[H|[]]]; [ exact (Hq H) | discriminate H ]. }
  rewrite (c_string_app (list_ascii_of_string before)) by exact Hb.
  rewrite (c_string_app (list_ascii_of_string found))
    by exact (same_letters_no_nul _ _ Hm Hq).
  cbn [List.app].
  apply like_percent_skip.
  apply like_same_letters; [ exact Hm | ].
  apply like_percent_all.
Qed.

Lemma like_too_long (pattern text : string) :
  MAX_LIKE_PATTERN_LENGTH < Z.of_nat (String.length pattern) ->
  like pattern text = false.
Proof.
  intros H. unfold like. apply Z.ltb_lt in H. rewrite H. reflexivity.
Qed.

Lemma sql_limit_nil (limit offset : Z) : sql_limit limit offset [] = [].
Proof.
  unfold sql_limit. destruct (int64 limit && int64 offset); [ | reflexivity ].
  rewrite List.skipn_nil. destruct (limit <? 0); [ reflexivity | apply List.firstn_nil ].
Qed.

(** X7. The search finds what contains the query: a stored recording whose
    transcription holds the query somewhere, the case of ASCII letters
    apart, is among the rows [search_recordings] returns when no other
    filter and no limit is given; [%] and [_] in the query do not prevent
    it.  This is so for a query without NUL of at most 49998 bytes, found
    in the transcription before any NUL.  A query of more bytes finds
    nothing, whatever the filters and the limit. *)
Theorem search_recordings_finds_substring (db : table) (r : Recording)
    (query found before after : string) :
  (Z.of_nat (String.length query) <= 49998 ->
   ~ In "000"%char (list_ascii_of_string query) ->
   ~ In "000"%char (list_ascii_of_string before) ->
   In r db ->
   transcription r = (before ++ found ++ after)%string ->
   List.map sql_upper (list_ascii_of_string found) =
   List.map sql_upper (list_ascii_of_string query) ->
   In r (search_recordings StorageOk db query None None None None)) /\
  (49998 < Z.of_nat (String.length query) ->
   forall lang date_from date_to limit,
     search_recordings StorageOk db query lang date_from date_to limit = []).
Proof.
  split.
  - intros Hlen Hq Hb Hin Ht Hm. unfold search_recordings.
    apply (Permutation_in r (Permutation_sym (search_order_perm None _))).
    apply List.filter_In. split; [ exact Hin | ].
    unfold search_where. rewrite Ht, (like_contains _ _ _ _ Hq Hb); [ reflexivity | | exact Hm ].
    unfold MAX_LIKE_PATTERN_LENGTH. lia.
  - intros Hlen lang date_from date_to limit. unfold search_recordings.
    assert (Hnone : List.filter (search_where query lang date_from date_to) db = []).
    { induction db as [|x db IH]; [ reflexivity | ]. cbn [List.filter].
      unfold search_where at 1. rewrite like_too_long; [ exact IH | ].
      rewrite !string_length_app. simpl String.length.
      unfold MAX_LIKE_PATTERN_LENGTH. lia. }
    rewrite Hnone.
    assert (Hempty : search_order lang [] = [])
      by (unfold search_order; destruct (truthy_str lang); reflexivity).
    rewrite Hempty.
    destruct limit as [l|]; [ | reflexivity ].
    destruct (truthy_int (Some l)); [ apply sql_limit_nil | reflexivity ].
Qed.

Lemma like_anything (text : string) : like "%%" text = true.
Proof.
  unfold like.
  change (MAX_LIKE_PATTERN_LENGTH <? Z.of_nat (String.length "%%")) with false.
  cbn iota.
  change (c_string (list_ascii_of_string "%%")) with ["%"%char; "%"%char].
  apply (like_percent_skip ["%"%char] []). apply like_percent_all.
Qed.

(** X8. A search without filters is the listing: with the empty query, no
    language (or the empty one) and no dates, [search_recordings] returns
    what [get_all_recordings] returns for the same limit at offset 0. *)
Theorem search_recordings_without_filters (db : table) (limit : option Z) :
  search_recordings StorageOk db "" None None None limit =
    get_all_recordings StorageOk db limit 0 /\
  search_recordings StorageOk db "" (Some ""%string) None None limit =
    get_all_recordings StorageOk db limit 0.
Proof.
  assert (Hall : forall lang, truthy_str lang = false ->
            List.filter (search_where "" lang None None) db = db).
  { intros lang Hl. apply List.forallb_filter_id. apply List.forallb_forall.
    intros x _. unfold search_where. rewrite Hl.
    change ("%" ++ "" ++ "%")%string with "%%"%string.
    rewrite like_anything. reflexivity. }
  unfold search_recordings, get_all_recordings.
  rewrite !Hall by reflexivity. split; reflexivity.
Qed.

Lemma filter_kept_twice (f : Recording -> bool) (db : table) :
  List.filter (fun r => negb (f r)) (List.filter (fun r => negb (f r)) db) =
  List.filter (fun r => negb (f r)) db /\
  List.filter f (List.filter (fun r => negb (f r)) db) = [].
Proof.
  induction db as [|x db [IH1 IH2]]; simpl; [ split; reflexivity | ].
  destruct (f x) eqn:Hx; simpl; [ split; assumption | ].
  rewrite Hx. simpl. rewrite IH1. split; [ reflexivity | exact IH2 ].
Qed.

Lemma filter_split_length (f : Recording -> bool) (db : table) :
  (length (List.filter (fun r => negb (f r)) db) + length (List.filter f db)
   = length db)%nat.
Proof.
  induction db as [|x db IH]; simpl; [ reflexivity | ].
  destruct (f x); simpl; lia.
Qed.

(** X9. [cleanup_old_recordings] returns the number of rows that are gone,
    and a second clean-up at the same moment with the same age deletes
    nothing more and returns 0.  This holds whether the storage layer
    fails or not and for every age, also one too large for a [timedelta]. *)
Theorem cleanup_old_recordings_counts_and_settles (st : storage) (db : table)
    (now : datetime) (days : Z) :
  let '(db', n) := cleanup_old_recordings st db now days in
  Z.of_nat (length db') + n = Z.of_nat (length db) /\
  cleanup_old_recordings st db' now days = (db', 0).
Proof.
  unfold cleanup_old_recordings.
  destruct (cutoff_date now days) as [cutoff|]; [ | split; [ lia | reflexivity ] ].
  destruct st; [ | split; [ lia | reflexivity ] ].
  split.
  - pose proof (filter_split_length (older_than cutoff) db). lia.
  - destruct (filter_kept_twice (older_than cutoff) db) as [H1 H2].
    rewrite H1, H2. reflexivity.
Qed.
End Searching.

Section SearchingCases.
Import DateTime Database Samples.
Local Open Scope Z_scope.

Lemma search_recordings_finds_substring_witness :
  Z.of_nat (String.length "LO W") <= 49998 /\
  ~ In "000"%char (list_ascii_of_string "LO W") /\
  ~ In "000"%char (list_ascii_of_string "hel") /\
  In long_ago cleanup_table /\
  transcription long_ago = ("hel" ++ "lo w" ++ "orld")%string /\
  In long_ago
    (search_recordings StorageOk cleanup_table "LO W" None None None None).
Proof.
  assert (Hlen : Z.of_nat (String.length "LO W") <= 49998) by (simpl; lia).
  assert (Hq : ~ In "000"%char (list_ascii_of_string "LO W"))
    by (simpl; intros H; repeat (destruct H as [H|H]; [ discriminate H | ]); exact H).
  assert (Hb : ~ In "000"%char (list_ascii_of_string "hel"))
    by (simpl; intros H; repeat (destruct H as [H|H]; [ discriminate H | ]); exact H).
  assert (Hin : In long_ago cleanup_table) by (left; reflexivity).
  split; [ exact Hlen | ].
  split; [ exact Hq | ].
  split; [ exact Hb | ].
  split; [ exact Hin | ].
  split; [ reflexivity | ].
  apply (proj1 (search_recordings_finds_substring cleanup_table long_ago
                  "LO W" "lo w" "hel" "orld") Hlen Hq Hb Hin); reflexivity.
Defined.
End SearchingCases.

(* ===================================================================== *)
(** ** The store between its operations *)
(* ===================================================================== *)

Section ConfigStore.
Import PyValue Config.

Lemma well_formed_insert (cfg : ConfigManager) (key : string) (v : value) :
  well_formed cfg -> is_Some (default_settings !! key) ->
  well_formed {| settings := <[key := v]> (settings cfg) |}.
Proof.
  intros Hwf Hk other. cbn [settings].
  destruct (decide (key = other)) as [<-|Hne].
  - rewrite lookup_insert_eq. split; intros _; [ exact Hk | eexists; reflexivity ].
  - rewrite lookup_insert_ne by exact Hne. apply Hwf.
Qed.

(** X10. The keys of the store are the keys of the schema, and every
    operation keeps it so: [set_setting], [save_settings] with any input
    and either outcome of the write, [load_settings] over any file,
    [reset_to_defaults] and [restore_from_backup] from any backup. *)
Theorem config_operations_keep_schema (cfg : ConfigManager) (key : string)
    (v : value) (d : disk) (f backup : file) (input : option (gmap string value)) :
  well_formed cfg ->
  well_formed (set_setting cfg key v) /\
  well_formed (save_settings d f cfg input).1.1 /\
  well_formed (load_settings f cfg).1 /\
  well_formed (reset_to_defaults cfg) /\
  well_formed (restore_from_backup backup cfg).1.
Proof.
  intros Hwf. split; [ | split; [ | split; [ | split ] ] ].
  - unfold set_setting. case_bool_decide as Hk; [ | exact Hwf ].
    apply well_formed_insert; assumption.
  - unfold save_settings.
    destruct input as [given|], d; cbn [fst];
      try exact Hwf; apply well_formed_merge; exact Hwf.
  - unfold load_settings. destruct f as [[loaded|]|]; cbn [fst].
    + apply well_formed_merge. exact Hwf.
    + exact well_formed_defaults.
    + exact Hwf.
  - exact well_formed_defaults.
  - unfold restore_from_backup. destruct backup as [[saved|]|]; cbn [fst].
    + apply well_formed_merge. exact Hwf.
    + exact Hwf.
    + exact Hwf.
Qed.

Lemma merge_over_well_formed (saved current : ConfigManager) :
  well_formed saved -> well_formed current ->
  validated (settings saved) ∪ settings current = settings saved.
Proof.
  intros Hs Hc. apply map_eq. intros key.
  rewrite merged_lookup, validated_lookup.
  case_bool_decide as Hk.
  - destruct (settings saved !! key) as [v|] eqn:Hv; [ reflexivity | ].
    apply Hs in Hk. rewrite Hv in Hk. destruct Hk as [x Hx]. discriminate.
  - assert (Hnone : forall cfg, well_formed cfg -> settings cfg !! key = None).
    { intros cfg Hwf. destruct (settings cfg !! key) as [w|] eqn:Hv; [ | reflexivity ].
      exfalso. apply Hk. apply Hwf. rewrite Hv. eexists. reflexivity. }
    rewrite (Hnone current Hc), (Hnone saved Hs). reflexivity.
Qed.

(** X11. A backup brings the store back: when [backup_settings] has
    written the store, [restore_from_backup] from that file succeeds and
    leaves any store, whatever was changed in it since, with exactly the
    settings that were backed up. *)
Theorem backup_settings_then_restore (backup : file) (cfg later : ConfigManager) :
  well_formed cfg -> well_formed later ->
  let '(backup', ok) := backup_settings DiskOk backup cfg in
  ok = true /\ restore_from_backup backup' later = (cfg, true).
Proof.
  intros Hwf Hl. cbn [backup_settings]. split; [ reflexivity | ].
  cbn [restore_from_backup]. rewrite (merge_over_well_formed cfg later Hwf Hl).
  destruct cfg. reflexivity.
Qed.

(** X12. [set_setting] then [get_setting]: a key of the schema reads as
    the value just set, a key outside the schema is not stored (it reads as
    before, the caller's default included), and every other key reads as
    before. *)
Theorem set_setting_then_get_setting (cfg : ConfigManager) (key other : string)
    (v dflt : value) :
  get_setting (set_setting cfg key v) key dflt =
    (if bool_decide (is_Some (default_settings !! key)) then v
     else get_setting cfg key dflt) /\
  (other <> key ->
   get_setting (set_setting cfg key v) other dflt = get_setting cfg other dflt).
Proof.
  unfold set_setting, get_setting. case_bool_decide as Hk; cbn [settings].
  - split.
    + rewrite lookup_insert_eq. reflexivity.
    + intros Hne. rewrite lookup_insert_ne by congruence. reflexivity.
  - split; reflexivity.
Qed.

(** X13. What [save_settings] is given is what [get_setting] reads
    afterwards, also when the write fails: a key of the schema that the
    given map holds reads as the given value, every other key as before;
    a given key outside the schema changes nothing. *)
Theorem save_settings_then_get_setting (d : disk) (f : file) (cfg : ConfigManager)
    (given : gmap string value) (key : string) (dflt : value) :
  get_setting (save_settings d f cfg (Some given)).1.1 key dflt =
    match given !! key with
    | Some v =>
        if bool_decide (is_Some (default_settings !! key)) then v
        else get_setting cfg key dflt
    | None => get_setting cfg key dflt
    end.
Proof.
  assert (Hs : settings (save_settings d f cfg (Some given)).1.1
               = validated given ∪ settings cfg) by (destruct d; reflexivity).
  unfold get_setting. rewrite Hs, merged_lookup, validated_lookup.
  case_bool_decide as Hk; destruct (given !! key); reflexivity.
Qed.
End ConfigStore.

Section ConfigStoreCases.
Import PyValue Config Samples.

Lemma config_operations_keep_schema_witness :
  well_formed (new None) /\
  well_formed (set_setting (new None) "model" (VStr "small")) /\
  well_formed (restore_from_backup earlier_file (new None)).1.
Proof.
  pose proof (config_operations_keep_schema (new None) "model" (VStr "small")
                DiskOk None earlier_file None (well_formed_new None))
    as (Hset & _ & _ & _ & Hrestore).
  split; [ apply well_formed_new | ].
  split; [ exact Hset | exact Hrestore ].
Defined.

Lemma backup_settings_then_restore_witness :
  well_formed (new earlier_file) /\ well_formed (new None) /\
  restore_from_backup (backup_settings DiskOk None (new earlier_file)).1 (new None)
    = (new earlier_file, true).
Proof.
  split; [ apply well_formed_new | ].
  split; [ apply well_formed_new | ].
  exact (proj2 (backup_settings_then_restore None (new earlier_file) (new None)
                  (well_formed_new earlier_file) (well_formed_new None))).
Defined.
End ConfigStoreCases.

(* ===================================================================== *)
(** ** Canonical key names *)
(* ===================================================================== *)

Section CanonicalKeys.
Import PyStr Hotkeys.

Lemma lower_char_twice (c : ascii) : lower_char (lower_char c) = lower_char c.
Proof. destruct c as [[] [] [] [] [] [] [] []]; vm_compute; reflexivity. Qed.

Lemma isalnum_not_space (c : ascii) : isalnum_char c = true -> isspace_char c = false.
Proof. destruct c as [[] [] [] [] [] [] [] []]; vm_compute; intros H; congruence. Qed.

Lemma lowered_lower (s : string) : lowered (lower s).
Proof.
  induction s as [|c s IH]; simpl; [ exact I | ].
  split; [ apply lower_char_twice | exact IH ].
Qed.

Lemma lower_lowered (s : string) : lowered s -> lower s = s.
Proof.
  induction s as [|c s IH]; simpl; [ reflexivity | ].
  intros [Hc Hs]. rewrite Hc, (IH Hs). reflexivity.
Qed.

Lemma lowered_lstrip (s : string) : lowered s -> lowered (lstrip s).
Proof.
  induction s as [|c s IH]; simpl; [ trivial | ].
  intros [Hc Hs]. destruct (isspace_char c); [ exact (IH Hs) | ].
  split; assumption.
Qed.

Lemma lowered_rstrip (s : string) : lowered s -> lowered (rstrip s).
Proof.
  induction s as [|c s IH]; simpl; [ trivial | ].
  intros [Hc Hs]. specialize (IH Hs).
  destruct (rstrip s) as [|d t].
  - destruct (isspace_char c); simpl; [ exact I | split; [ exact Hc | exact I ] ].
  - split; [ exact Hc | exact IH ].
Qed.

Lemma lowered_strip_lower (key : string) : lowered (strip (lower key)).
Proof. apply lowered_rstrip, lowered_lstrip, lowered_lower. Qed.

(** A single alphanumeric character in lower case is its own stripped
    lower-case form. *)
Lemma strip_lower_single (t : string) :
  single_alnum t = true -> lowered t -> strip (lower t) = t.
Proof.
  intros Hs Hl. rewrite (lower_lowered t Hl).
  destruct t as [|c [|d t]]; try discriminate Hs.
  unfold single_alnum in Hs. simpl in Hs.
  rewrite andb_true_r in Hs. apply isalnum_not_space in Hs.
  unfold strip. simpl. rewrite Hs. simpl. rewrite Hs. reflexivity.
Qed.

Lemma normalize_key_of_single (t : string) :
  single_alnum t = true -> lowered t -> normalize_key t = Some t.
Proof.
  intros Hs Hl. pose proof (strip_lower_single t Hs Hl) as Ht.
  rewrite <- Ht at 2. apply normalize_key_single. rewrite Ht. exact Hs.
Qed.

(** The names on the right of the table of [_normalize_keys]. *)
Lemma key_mapping_value (t canonical : string) :
  key_mapping !! t = Some canonical ->
  In canonical (List.map snd key_mapping_items).
Proof.
  intros H. unfold key_mapping in H.
  apply elem_of_list_to_map_2 in H. apply list_elem_of_In in H.
  apply List.in_map_iff. exists (t, canonical). split; [ reflexivity | exact H ].
Qed.

Lemma canonical_name_fixed (k : string) :
  In k (List.map snd key_mapping_items) -> normalize_key k = Some k.
Proof.
  intros H.
  assert (Hall : List.forallb
                   (fun c => bool_decide (normalize_key c = Some c))
                   (List.map snd key_mapping_items) = true)
    by (vm_compute; reflexivity).
  rewrite List.forallb_forall in Hall. specialize (Hall _ H).
  apply bool_decide_eq_true in Hall. exact Hall.
Qed.

(** What [normalize_key] returns is a name of the table or a single
    alphanumeric character in lower case. *)
Lemma normalize_key_range (key k : string) :
  normalize_key key = Some k ->
  In k (List.map snd key_mapping_items) \/ (single_alnum k = true /\ lowered k).
Proof.
  unfold normalize_key. intros H.
  destruct (key_mapping !! strip (lower key)) as [c|] eqn:Hm.
  - left. injection H as <-. exact (key_mapping_value _ _ Hm).
  - right.
    destruct (Nat.eqb (String.length (strip (lower key))) 1
              && isalnum (strip (lower key))) eqn:Hs; [ | discriminate ].
    injection H as <-. split; [ exact Hs | apply lowered_strip_lower ].
Qed.

Lemma normalize_key_fixed (key k : string) :
  normalize_key key = Some k -> normalize_key k = Some k.
Proof.
  intros H. apply normalize_key_range in H as [H|[Hs Hl]].
  - apply canonical_name_fixed. exact H.
  - apply normalize_key_of_single; assumption.
Qed.

Lemma normalize_loop_images (normalized keys : list string) (k : string) :
  In k (normalize_loop normalized keys) ->
  In k normalized \/ exists key, In key keys /\ normalize_key key = Some k.
Proof.
  revert normalized. induction keys as [|key keys IH]; intros normalized H.
  - left. exact H.
  - cbn [normalize_loop] in H.
    destruct (normalize_key key) as [c|] eqn:Hc; [ | destruct H ].
    apply IH in H as [H|(key' & Hin & Hk)].
    + apply List.in_app_or in H as [H|[<-|[]]]; [ left; exact H | ].
      right. exists key. split; [ left; reflexivity | exact Hc ].
    + right. exists key'. split; [ right; exact Hin | exact Hk ].
Qed.

Lemma normalize_keys_image (keys : list string) (k : string) :
  In k (_normalize_keys keys) -> exists key, In key keys /\ normalize_key key = Some k.
Proof.
  intros H. apply normalize_loop_images in H as [[]|H]. exact H.
Qed.

Lemma omap_fixed (ks : list string) :
  (forall k, In k ks -> normalize_key k = Some k) -> omap normalize_key ks = ks.
Proof.
  induction ks as [|k ks IH]; intros H; [ reflexivity | ].
  change (omap normalize_key (k :: ks))
    with (match normalize_key k with
          | Some c => c :: omap normalize_key ks
          | None => omap normalize_key ks
          end).
  rewrite (H k) by (left; reflexivity).
  rewrite IH by (intros c Hc; apply H; right; exact Hc). reflexivity.
Qed.

Lemma normalize_keys_fixed (ks : list string) :
  (forall k, In k ks -> normalize_key k = Some k) -> _normalize_keys ks = ks.
Proof.
  intros H. unfold _normalize_keys. rewrite normalize_loop_known.
  - apply omap_fixed. exact H.
  - intros key Hin. rewrite (H key Hin). discriminate.
Qed.

(** X14. [_normalize_keys] is idempotent: the keys it returns are in
    canonical form, so normalising them again changes nothing.  The keys
    stored by [register_hotkey] can therefore be registered again as they
    are. *)
Theorem normalize_keys_idempotent (keys : list string) :
  _normalize_keys (_normalize_keys keys) = _normalize_keys keys.
Proof.
  apply normalize_keys_fixed. intros k Hk.
  apply normalize_keys_image in Hk as (key & _ & Hkey).
  exact (normalize_key_fixed key k Hkey).
Qed.
End CanonicalKeys.

(* ===================================================================== *)
(** ** From the stored keys to the listener *)
(* ===================================================================== *)

Section PynputFormat.
Import PyStr Hotkeys.

Lemma pynput_key_function (fk : string) :
  In fk function_keys -> pynput_key fk = None.
Proof.
  intros H. unfold function_keys in H.
  repeat (destruct H as [<-|H]; [ reflexivity | ]).
  destruct H.
Qed.

Lemma pynput_key_canonical (k : string) :
  In k (List.map snd key_mapping_items) ->
  In k function_keys \/ exists text c, pynput_key k = Some (String c text).
Proof.
  intros H.
  assert (Hall : List.forallb
                   (fun c => bool_decide (c ∈ function_keys) ||
                             match pynput_key c with
                             | Some (String _ _) => true
                             | _ => false
                             end)
                   (List.map snd key_mapping_items) = true)
    by (vm_compute; reflexivity).
  rewrite List.forallb_forall in Hall. specialize (Hall _ H).
  apply orb_true_iff in Hall as [Hf|Hp].
  - left. apply bool_decide_eq_true in Hf. apply list_elem_of_In. exact Hf.
  - right. destruct (pynput_key k) as [[|c text]|]; try discriminate.
    exists text, c. reflexivity.
Qed.

Lemma pynput_key_single (k : string) :
  single_alnum k = true -> exists c, k = String c EmptyString /\ pynput_key k = Some k.
Proof.
  intros Hs. destruct k as [|c [|d t]]; try discriminate Hs.
  exists c. split; [ reflexivity | ].
  unfold single_alnum in Hs. unfold pynput_key. rewrite Hs.
  assert (Hne : forall t, (1 < String.length t)%nat ->
            String.eqb (String c EmptyString) t = false).
  { intros t Ht. apply String.eqb_neq. intros <-. simpl in Ht. lia. }
  rewrite !Hne by (simpl; lia). reflexivity.
Qed.

Lemma single_not_function (k : string) :
  single_alnum k = true -> ~ In k function_keys.
Proof.
  intros Hs Hin. apply pynput_key_function in Hin.
  destruct (pynput_key_single k Hs) as (c & _ & Hk). congruence.
Qed.

(** The text of a key in canonical form: none exactly for a function key. *)
Lemma pynput_key_fixed (k : string) :
  normalize_key k = Some k ->
  (pynput_key k = None <-> In k function_keys) /\
  (pynput_key k <> Some EmptyString).
Proof.
  intros H. apply normalize_key_range in H as [H|[Hs _]].
  - destruct (pynput_key_canonical k H) as [Hf|(text & c & Hp)].
    + rewrite (pynput_key_function k Hf). split; [ tauto | discriminate ].
    + rewrite Hp. split; [ | discriminate ].
      split; [ discriminate | ].
      intros Hf. apply pynput_key_function in Hf. congruence.
  - destruct (pynput_key_single k Hs) as (c & -> & Hp). rewrite Hp.
    split; [ | discriminate ].
    split; [ discriminate | ].
    intros Hf. exfalso. exact (single_not_function _ Hs Hf).
Qed.

Lemma pynput_loop_none (pynput_keys keys : list string) :
  pynput_loop pynput_keys keys = None <->
  exists k, In k keys /\ pynput_key k = None.
Proof.
  revert pynput_keys. induction keys as [|key keys IH]; intros pynput_keys.
  - cbn [pynput_loop]. split; [ discriminate | intros (k & [] & _) ].
  - cbn [pynput_loop]. destruct (pynput_key key) as [t|] eqn:Hk.
    + rewrite IH. split.
      * intros (k & Hin & Hn). exists k. split; [ right; exact Hin | exact Hn ].
      * intros (k & [<-|Hin] & Hn); [ congruence | ].
        exists k. split; assumption.
    + split; [ intros _ | reflexivity ].
      exists key. split; [ left; reflexivity | exact Hk ].
Qed.

Lemma pynput_loop_some (pynput_keys keys result : list string) :
  pynput_loop pynput_keys keys = Some result ->
  exists texts, result = pynput_keys ++ texts /\ length texts = length keys /\
    forall t, In t texts -> exists k, In k keys /\ pynput_key k = Some t.
Proof.
  revert pynput_keys. induction keys as [|key keys IH]; intros pynput_keys H.
  - cbn [pynput_loop] in H. injection H as <-. exists [].
    rewrite List.app_nil_r. split; [ reflexivity | ].
    split; [ reflexivity | intros t [] ].
  - cbn [pynput_loop] in H. destruct (pynput_key key) as [t|] eqn:Hk; [ | discriminate ].
    apply IH in H as (texts & -> & Hlen & Hall).
    exists (t :: texts). rewrite <- List.app_assoc.
    split; [ reflexivity | ]. split; [ simpl; rewrite Hlen; reflexivity | ].
    intros u [<-|Hu].
    + exists key. split; [ left; reflexivity | exact Hk ].
    + destruct (Hall u Hu) as (k & Hin & Hp).
      exists k. split; [ right; exact Hin | exact Hp ].
Qed.

Lemma join_nonempty (sep first : string) (rest : list string) :
  first <> EmptyString -> join sep (first :: rest) <> EmptyString.
Proof.
  intros Hf. destruct first as [|c first]; [ contradiction | ].
  destruct rest; simpl; discriminate.
Qed.

(** The chord of a list of canonical keys: none exactly when the list is
    empty or holds a function key, else a non-empty text. *)
Lemma keys_to_pynput_format_fixed (ks : list string) :
  (forall k, In k ks -> normalize_key k = Some k) ->
  (_keys_to_pynput_format ks = None <->
   ks = [] \/ exists fk, In fk function_keys /\ In fk ks) /\
  _keys_to_pynput_format ks <> Some EmptyString.
Proof.
  intros Hfix. unfold _keys_to_pynput_format.
  destruct (pynput_loop [] ks) as [result|] eqn:Hloop.
  - pose proof (pynput_loop_some _ _ _ Hloop) as (texts & -> & Hlen & Hall).
    cbn [List.app]. destruct texts as [|t texts].
    + destruct ks; [ | discriminate Hlen ].
      split; [ split; [ intros _; left; reflexivity | reflexivity ] | discriminate ].
    + split.
      * split; [ discriminate | ].
        intros [->|(fk & Hf & Hin)]; [ discriminate Hlen | ].
        exfalso. assert (Hn : pynput_loop [] ks = None).
        { apply pynput_loop_none. exists fk.
          split; [ exact Hin | apply pynput_key_function; exact Hf ]. }
        congruence.
      * intros Hj. injection Hj as Hj. revert Hj. apply join_nonempty.
        destruct (Hall t) as (k & Hin & Hp); [ left; reflexivity | ].
        intros ->. exact (proj2 (pynput_key_fixed k (Hfix k Hin)) Hp).
  - split; [ | discriminate ].
    split; [ intros _ | reflexivity ].
    apply pynput_loop_none in Hloop as (k & Hin & Hn). right.
    exists k. split; [ | exact Hin ].
    apply (proj1 (pynput_key_fixed k (Hfix k Hin))). exact Hn.
Qed.

(** X15. The keys [register_hotkey] stores are not all keys the listener
    takes: [_keys_to_pynput_format] of a normalised list is [None] exactly
    when the list is empty or holds one of the function keys f1 to f12,
    which [_normalize_keys] accepts and [_keys_to_pynput_format] does not
    know. *)
Theorem keys_to_pynput_format_of_normalized (keys : list string) :
  _keys_to_pynput_format (_normalize_keys keys) = None <->
  _normalize_keys keys = [] \/
  exists fk, In fk function_keys /\ In fk (_normalize_keys keys).
Proof.
  apply keys_to_pynput_format_fixed. intros k Hk.
  apply normalize_keys_image in Hk as (key & _ & Hkey).
  exact (normalize_key_fixed key k Hkey).
Qed.
End PynputFormat.

Section Listener.
Import PyStr Hotkeys.

Lemma chord_keys_fixed (mgr : GlobalHotkeyManager) (name : string)
    (config : HotkeyConfig) :
  chords_canonical mgr -> hotkeys mgr !! name = Some config ->
  forall k, In k (keys config) -> normalize_key k = Some k.
Proof.
  intros Hc Hl k Hk. destruct (Hc name config Hl) as [_ Hn].
  rewrite <- Hn in Hk. apply normalize_keys_image in Hk as (key & _ & Hkey).
  exact (normalize_key_fixed key k Hkey).
Qed.

Lemma hotkey_mapping_nonempty (mgr : GlobalHotkeyManager) :
  hotkey_mapping mgr <> [] <->
  exists name config, hotkeys mgr !! name = Some config /\ mapped config <> None.
Proof.
  unfold hotkey_mapping. split.
  - intros Hne.
    destruct (omap (fun item => mapped item.2) (map_to_list (hotkeys mgr)))
      as [|entry entries] eqn:Ho; [ contradiction | ].
    assert (He : entry ∈ omap (fun item : string * HotkeyConfig => mapped item.2)
                   (map_to_list (hotkeys mgr)))
      by (rewrite Ho; left).
    apply list_elem_of_omap in He as ([name config] & Hin & Hm).
    apply elem_of_map_to_list in Hin. exists name, config.
    split; [ exact Hin | ]. cbn [snd] in Hm. rewrite Hm. discriminate.
  - intros (name & config & Hl & Hm) Ho.
    destruct (mapped config) as [entry|] eqn:He; [ | contradiction ].
    assert (Hin : entry ∈ omap (fun item : string * HotkeyConfig => mapped item.2)
                    (map_to_list (hotkeys mgr))).
    { apply list_elem_of_omap. exists (name, config).
      split; [ apply elem_of_map_to_list; exact Hl | exact He ]. }
    rewrite Ho in Hin. inversion Hin.
Qed.

Lemma mapped_canonical (config : HotkeyConfig) :
  keys config <> [] ->
  (forall k, In k (keys config) -> normalize_key k = Some k) ->
  mapped config <> None <->
  enabled config = true /\ callback config <> None /\
  forall fk, In fk function_keys -> ~ In fk (keys config).
Proof.
  intros Hne Hfix. destruct (keys_to_pynput_format_fixed _ Hfix) as [Hnone Hempty].
  unfold mapped. destruct (enabled config); [ | split; [ tauto | intros [? _]; discriminate ] ].
  destruct (callback config) as [f|]; [ | split; [ tauto | intros (_ & ? & _); tauto ] ].
  destruct (_keys_to_pynput_format (keys config)) as [[|c s]|].
  - contradiction.
  - split; [ intros _ | discriminate ].
    split; [ reflexivity | ]. split; [ discriminate | ].
    intros fk Hf Hin.
    assert (Hn : Some (String c s) = None); [ | discriminate Hn ].
    apply Hnone. right. exists fk. split; assumption.
  - split; [ tauto | ]. intros (_ & _ & Hno). exfalso.
    destruct (proj1 Hnone eq_refl) as [He|(fk & Hf & Hin)]; [ contradiction | ].
    exact (Hno fk Hf Hin).
Qed.

(** X16. When the listener can start: on a manager that is not running,
    with the hook library present and a listener that starts,
    [start_listening] returns [True] exactly when some hotkey is enabled,
    has a callback and has no function key among its keys.  A manager whose
    only bound hotkeys use f1 to f12 does not start. *)
Theorem start_listening_needs_convertible_hotkey (mgr : GlobalHotkeyManager) :
  chords_canonical mgr -> is_running mgr = false ->
  ((start_listening true ListenerStarts mgr).2 = true <->
   exists name config,
     hotkeys mgr !! name = Some config /\ enabled config = true /\
     callback config <> None /\
     forall fk, In fk function_keys -> ~ In fk (keys config)).
Proof.
  intros Hc Hr. unfold start_listening. cbn [negb]. rewrite Hr.
  pose proof (hotkey_mapping_nonempty mgr) as Hm.
  assert (Hiff : hotkey_mapping mgr <> [] <->
            exists name config,
              hotkeys mgr !! name = Some config /\ enabled config = true /\
              callback config <> None /\
              forall fk, In fk function_keys -> ~ In fk (keys config)).
  { rewrite Hm. split; intros (name & config & Hl & H); exists name, config;
      (split; [ exact Hl | ]).
    - apply mapped_canonical; [ exact (proj1 (Hc _ _ Hl)) | | exact H ].
      exact (chord_keys_fixed mgr name config Hc Hl).
    - apply mapped_canonical; [ exact (proj1 (Hc _ _ Hl)) | | exact H ].
      exact (chord_keys_fixed mgr name config Hc Hl). }
  destruct (hotkey_mapping mgr) as [|entry entries]; cbn [snd].
  - split; [ discriminate | ]. intros H. apply Hiff in H. contradiction.
  - split; [ intros _; apply Hiff; discriminate | reflexivity ].
Qed.

Lemma chords_canonical_new_manager : chords_canonical new_manager.
Proof.
  intros name config H. unfold new_manager, default_hotkeys in H. cbn [hotkeys] in H.
  repeat (apply lookup_insert_Some in H as [[_ <-]|[_ H]];
          [ split; [ discriminate | vm_compute; reflexivity ] | ]).
  rewrite lookup_empty in H. discriminate.
Qed.

Lemma chords_canonical_insert (mgr : GlobalHotkeyManager) (name : string)
    (config : HotkeyConfig) :
  chords_canonical mgr ->
  keys config <> [] -> _normalize_keys (keys config) = keys config ->
  chords_canonical (with_hotkeys mgr (<[name := config]> (hotkeys mgr))).
Proof.
  intros Hc Hne Hn other stored H. cbn [with_hotkeys hotkeys] in H.
  apply lookup_insert_Some in H as [[_ <-]|[_ H]]; [ split; assumption | ].
  exact (Hc _ _ H).
Qed.

Lemma chords_canonical_register (pynput_available : bool)
    (mgr : GlobalHotkeyManager) (name : string) (keys : list string)
    (callback : Callable) (description : string) :
  chords_canonical mgr ->
  chords_canonical (register_hotkey pynput_available mgr name keys callback description).1.
Proof.
  intros Hc. unfold register_hotkey.
  destruct pynput_available; cbn [negb fst]; [ | exact Hc ].
  destruct (_normalize_keys keys) as [|k ks] eqn:Hn; cbn [fst]; [ exact Hc | ].
  apply (chords_canonical_insert mgr name
           {| name := name; keys := k :: ks; description := description;
              callback := Some callback; enabled := true |} Hc).
  - discriminate.
  - cbn [Hotkeys.keys]. apply normalize_keys_fixed. intros c Hin.
    rewrite <- Hn in Hin. apply normalize_keys_image in Hin as (key & _ & Hkey).
    exact (normalize_key_fixed key c Hkey).
Qed.
End Listener.

Section CustomHotkeys.
Import PyStr Hotkeys Gui.

Lemma lowered_remove_spaces (s : string) : lowered s -> lowered (remove_spaces s).
Proof.
  induction s as [|c s IH]; simpl; [ trivial | ].
  intros [Hc Hs]. destruct (Ascii.eqb c " "); [ exact (IH Hs) | ].
  split; [ exact Hc | exact (IH Hs) ].
Qed.

Lemma lowered_split_plus (s part : string) :
  lowered s -> In part (split_plus s) -> lowered part.
Proof.
  revert part. induction s as [|c s IH]; simpl; intros part Hl Hin.
  - destruct Hin as [<-|[]]. exact I.
  - destruct Hl as [Hc Hs]. destruct (Ascii.eqb c "+").
    + destruct Hin as [<-|Hin]; [ exact I | exact (IH part Hs Hin) ].
    + destruct (split_plus s) as [|first parts] eqn:Hsp.
      * destruct Hin as [<-|[]]. split; [ exact Hc | exact I ].
      * destruct Hin as [<-|Hin].
        -- split; [ exact Hc | ]. apply IH; [ exact Hs | left; reflexivity ].
        -- apply IH; [ exact Hs | right; exact Hin ].
Qed.

Lemma split_plus_nonempty (s : string) : split_plus s <> [].
Proof.
  destruct s as [|c s]; simpl; [ discriminate | ].
  destruct (Ascii.eqb c "+"); [ discriminate | ].
  destruct (split_plus s); discriminate.
Qed.

(** A key the parser of the window lets through is in canonical form and
    is no function key. *)
Lemma parse_part_fixed (part k : string) :
  lowered part -> parse_part part = Some k ->
  normalize_key k = Some k /\ ~ In k function_keys.
Proof.
  intros Hl. unfold parse_part.
  assert (Hnamed : forall c, In c ["ctrl"; "shift"; "alt"; "cmd"]%string ->
            normalize_key c = Some c /\ ~ In c function_keys).
  { intros c Hc. repeat (destruct Hc as [<-|Hc]; [ split; [ vm_compute; reflexivity | ] | ]);
      try (intros Hf; repeat (destruct Hf as [Hf|Hf]; [ discriminate Hf | ]); exact Hf).
    destruct Hc. }
  destruct (String.eqb part "ctrl" || String.eqb part "control");
    [ intros [= <-]; apply Hnamed; simpl; tauto | ].
  destruct (String.eqb part "shift");
    [ intros [= <-]; apply Hnamed; simpl; tauto | ].
  destruct (String.eqb part "alt");
    [ intros [= <-]; apply Hnamed; simpl; tauto | ].
  destruct (String.eqb part "win" || String.eqb part "windows" || String.eqb part "cmd");
    [ intros [= <-]; apply Hnamed; simpl; tauto | ].
  destruct (Nat.eqb (String.length part) 1 && isalnum part) eqn:Hs; [ | discriminate ].
  intros [= <-]. split.
  - apply normalize_key_of_single; assumption.
  - apply single_not_function. exact Hs.
Qed.

Lemma parse_loop_some (keys parts result : list string) :
  parse_loop keys parts = Some result ->
  exists parsed, result = keys ++ parsed /\ length parsed = length parts /\
    forall k, In k parsed -> exists part, In part parts /\ parse_part part = Some k.
Proof.
  revert keys. induction parts as [|part parts IH]; intros keys H.
  - cbn [parse_loop] in H. injection H as <-. exists [].
    rewrite List.app_nil_r. split; [ reflexivity | ].
    split; [ reflexivity | intros k [] ].
  - cbn [parse_loop] in H. destruct (parse_part part) as [k|] eqn:Hk; [ | discriminate ].
    apply IH in H as (parsed & -> & Hlen & Hall).
    exists (k :: parsed). rewrite <- List.app_assoc.
    split; [ reflexivity | ]. split; [ simpl; rewrite Hlen; reflexivity | ].
    intros c [<-|Hc].
    + exists part. split; [ left; reflexivity | exact Hk ].
    + destruct (Hall c Hc) as (p & Hin & Hp).
      exists p. split; [ right; exact Hin | exact Hp ].
Qed.

Lemma parse_hotkey_result (hotkey_string : string) (keys : list string) :
  parse_hotkey hotkey_string = Some keys ->
  keys <> [] /\
  forall k, In k keys -> normalize_key k = Some k /\ ~ In k function_keys.
Proof.
  unfold parse_hotkey. intros H.
  apply parse_loop_some in H as (parsed & -> & Hlen & Hall). cbn [List.app].
  split.
  - intros ->. symmetry in Hlen. apply List.length_zero_iff_nil in Hlen.
    exact (split_plus_nonempty _ Hlen).
  - intros k Hk. destruct (Hall k Hk) as (part & Hin & Hp).
    apply (parse_part_fixed part k); [ | exact Hp ].
    apply (lowered_split_plus _ part) in Hin; [ exact Hin | ].
    apply lowered_remove_spaces, lowered_lower.
Qed.

(** X17. The hotkeys of the settings window: whenever the parser of
    [_register_custom_hotkey] lets a hotkey text through, the keys it
    built are already in the form [register_hotkey] stores, so, with the
    hook library present, the registration succeeds and stores exactly
    these keys, and they have a pynput text; function keys never get this
    far.  When the parser refuses the text nothing is registered. *)
Theorem register_custom_hotkey_stores_parsed_keys (mgr : GlobalHotkeyManager)
    (name hotkey_string : string) (callback : Callable) :
  match parse_hotkey hotkey_string with
  | Some keys =>
      keys <> [] /\ _normalize_keys keys = keys /\
      _keys_to_pynput_format keys <> None /\
      _register_custom_hotkey true mgr name hotkey_string callback =
        (with_hotkeys mgr
           (<[name := {| name := name; keys := keys;
                         description := "Custom hotkey: " ++ hotkey_string;
                         callback := Some callback; enabled := true |}]>
              (hotkeys mgr)), true)
  | None =>
      forall pynput_available,
        _register_custom_hotkey pynput_available mgr name hotkey_string callback
          = (mgr, false)
  end.
Proof.
  unfold _register_custom_hotkey.
  destruct (parse_hotkey hotkey_string) as [keys|] eqn:Hp; [ | reflexivity ].
  destruct (parse_hotkey_result _ _ Hp) as [Hne Hall].
  assert (Hfix : _normalize_keys keys = keys)
    by (apply normalize_keys_fixed; intros k Hk; exact (proj1 (Hall k Hk))).
  split; [ exact Hne | ]. split; [ exact Hfix | ]. split.
  - intros Hnone.
    apply (keys_to_pynput_format_fixed keys) in Hnone;
      [ | intros k Hk; exact (proj1 (Hall k Hk)) ].
    destruct Hnone as [->|(fk & Hf & Hin)]; [ contradiction | ].
    exact (proj2 (Hall fk Hin) Hf).
  - destruct keys as [|k ks]; [ contradiction | ].
    unfold register_hotkey. cbn [negb]. rewrite Hfix. reflexivity.
Qed.

Lemma chords_canonical_same_keys (mgr : GlobalHotkeyManager) (name : string)
    (config changed : HotkeyConfig) :
  chords_canonical mgr -> hotkeys mgr !! name = Some config ->
  keys changed = keys config ->
  chords_canonical (with_hotkeys mgr (<[name := changed]> (hotkeys mgr))).
Proof.
  intros Hc Hl Hk. destruct (Hc name config Hl) as [Hne Hn].
  apply chords_canonical_insert; [ exact Hc | | ]; rewrite Hk; assumption.
Qed.

(** X18. Every chord in the table of the manager is a non-empty list of
    canonical key names, from the default table on and through every
    operation: [register_hotkey], [unregister_hotkey],
    [set_hotkey_callback], [enable_hotkey], [disable_hotkey],
    [start_listening], [stop_listening] and the registration from the
    settings window. *)
Theorem hotkey_operations_keep_chords_canonical (mgr : GlobalHotkeyManager)
    (pynput_available stop_raises : bool) (world : listener_outcome)
    (name text : string) (keys : list string) (callback : Callable)
    (description : string) :
  chords_canonical mgr ->
  chords_canonical (register_hotkey pynput_available mgr name keys callback description).1 /\
  chords_canonical (unregister_hotkey mgr name).1 /\
  chords_canonical (set_hotkey_callback mgr name callback).1 /\
  chords_canonical (enable_hotkey mgr name).1 /\
  chords_canonical (disable_hotkey mgr name).1 /\
  chords_canonical (start_listening pynput_available world mgr).1 /\
  chords_canonical (stop_listening stop_raises mgr) /\
  chords_canonical (_register_custom_hotkey pynput_available mgr name text callback).1.
Proof.
  intros Hc.
  split; [ apply chords_canonical_register; exact Hc | ].
  split.
  { unfold unregister_hotkey. destruct (hotkeys mgr !! name) eqn:Hl; cbn [fst];
      [ | exact Hc ].
    intros other stored H. cbn [hotkeys] in H.
    apply lookup_delete_Some in H as [_ H]. exact (Hc _ _ H). }
  split.
  { unfold set_hotkey_callback. destruct (hotkeys mgr !! name) as [config|] eqn:Hl;
      cbn [fst]; [ | exact Hc ].
    apply (chords_canonical_same_keys mgr name config); [ exact Hc | exact Hl | reflexivity ]. }
  assert (Hen : forall flag, chords_canonical (set_enabled mgr name flag).1).
  { intros flag. unfold set_enabled.
    destruct (hotkeys mgr !! name) as [config|] eqn:Hl; cbn [fst]; [ | exact Hc ].
    apply (chords_canonical_same_keys mgr name config); [ exact Hc | exact Hl | reflexivity ]. }
  split; [ apply Hen | ]. split; [ apply Hen | ].
  split.
  { unfold start_listening.
    destruct (negb pynput_available); [ exact Hc | ].
    destruct (is_running mgr); [ exact Hc | ].
    destruct (hotkey_mapping mgr); [ exact Hc | ].
    destruct world; exact Hc. }
  split.
  { unfold stop_listening.
    destruct (negb (is_running mgr)); [ exact Hc | ].
    destruct (listener mgr && stop_raises); exact Hc. }
  unfold _register_custom_hotkey.
  destruct (parse_hotkey text) as [[|k ks]|]; cbn [fst]; try exact Hc.
  apply chords_canonical_register. exact Hc.
Qed.
End CustomHotkeys.

Section ListenerCases.
Import PyStr Hotkeys Gui.

Lemma hotkey_operations_keep_chords_canonical_witness :
  chords_canonical new_manager /\
  chords_canonical
    (register_hotkey true new_manager "toggle_recording" ["Ctrl"; "F5"] 0
       "refresh").1 /\
  chords_canonical (unregister_hotkey new_manager "show_window").1.
Proof.
  pose proof (hotkey_operations_keep_chords_canonical new_manager true false
                ListenerStarts "toggle_recording" "Ctrl+F5" ["Ctrl"; "F5"]%string
                0 "refresh" chords_canonical_new_manager) as (Hreg & _).
  pose proof (hotkey_operations_keep_chords_canonical new_manager true false
                ListenerStarts "show_window" "" [] 0 "" chords_canonical_new_manager)
    as (_ & Hun & _).
  split; [ exact chords_canonical_new_manager | ].
  split; [ exact Hreg | exact Hun ].
Defined.

(** With the default table, where no hotkey has a callback, the listener
    does not start; once a callback is set for the default
    ctrl + shift + r it does. *)
Lemma start_listening_needs_convertible_hotkey_witness :
  chords_canonical (set_hotkey_callback new_manager "toggle_recording" 0).1 /\
  is_running (set_hotkey_callback new_manager "toggle_recording" 0).1 = false /\
  (start_listening true ListenerStarts
     (set_hotkey_callback new_manager "toggle_recording" 0).1).2 = true.
Proof.
  assert (Hc : chords_canonical (set_hotkey_callback new_manager "toggle_recording" 0).1).
  { apply (chords_canonical_same_keys new_manager "toggle_recording"
             {| name := "toggle_recording"; keys := ["ctrl"; "shift"; "r"]%string;
                description := "Toggle recording on/off";
                callback := None; enabled := true |});
      [ exact chords_canonical_new_manager | reflexivity | reflexivity ]. }
  split; [ exact Hc | ]. split; [ reflexivity | ].
  apply (proj2 (start_listening_needs_convertible_hotkey _ Hc eq_refl)).
  exists "toggle_recording"%string.
  exists {| name := "toggle_recording"; keys := ["ctrl"; "shift"; "r"]%string;
            description := "Toggle recording on/off";
            callback := Some 0; enabled := true |}.
  split; [ reflexivity | ]. split; [ reflexivity | ]. split; [ discriminate | ].
  intros fk Hf Hin.
  repeat (destruct Hin as [<-|Hin];
          [ repeat (destruct Hf as [Hf|Hf]; [ discriminate Hf | ]); exact Hf | ]).
  exact Hin.
Defined.
End ListenerCases.

(* ===================================================================== *)
(** ** The service between its calls *)
(* ===================================================================== *)

Section ServiceFacts.
Import Float64 PyValue Transcription.
Local Open Scope Z_scope.

Lemma default_settings_keys (key : string) :
  is_Some (default_settings !! key) <-> key ∈ valid_whisper_params.
Proof.
  split.
  - intros [v H]. unfold default_settings in H.
    apply elem_of_list_to_map_2 in H.
    repeat (apply elem_of_cons in H as [[= -> _]|H];
            [ apply elem_of_list_to_set, list_elem_of_In; simpl; tauto | ]).
    inversion H.
  - intros H. unfold valid_whisper_params in H.
    apply elem_of_list_to_set in H.
    repeat (apply elem_of_cons in H as [->|H];
            [ apply not_eq_None_Some; vm_compute; discriminate | ]).
    inversion H.
Qed.

Lemma union_lookup (given defaults : gmap string value) (key : string) :
  (given ∪ defaults) !! key =
    match given !! key with
    | Some v => Some v
    | None => defaults !! key
    end.
Proof.
  rewrite lookup_union.
  destruct (given !! key), (defaults !! key); reflexivity.
Qed.

(** X19. What the model is given: whatever settings the caller passes,
    the model gets a value for each of the eighteen Whisper parameters and
    for nothing else; the value is the caller's where the caller gave one
    and the default otherwise.  Keys of the caller that are no Whisper
    parameter are dropped. *)
Theorem model_gets_the_whisper_parameters
    (settings : option (gmap string value)) (key : string) :
  (is_Some (settings_for_model settings !! key) <-> key ∈ valid_whisper_params) /\
  (key ∈ valid_whisper_params ->
   settings_for_model settings !! key =
     match default ∅ settings !! key with
     | Some v => Some v
     | None => default_settings !! key
     end) /\
  (key ∉ valid_whisper_params -> settings_for_model settings !! key = None).
Proof.
  unfold settings_for_model, filtered_settings.
  set (given := default (∅ : gmap string value) settings).
  assert (Hin : key ∈ valid_whisper_params ->
            filter (fun kv : string * value => kv.1 ∈ valid_whisper_params)
              (given ∪ default_settings) !! key =
            match given !! key with
            | Some v => Some v
            | None => default_settings !! key
            end).
  { intros Hk. rewrite <- (union_lookup given default_settings key).
    destruct ((given ∪ default_settings) !! key) as [v|] eqn:Hu.
    - apply map_lookup_filter_Some. split; [ exact Hu | exact Hk ].
    - apply map_lookup_filter_None. left. exact Hu. }
  assert (Hout : key ∉ valid_whisper_params ->
            filter (fun kv : string * value => kv.1 ∈ valid_whisper_params)
              (given ∪ default_settings) !! key = None).
  { intros Hk. apply map_lookup_filter_None. right. intros v _. exact Hk. }
  split; [ | split; [ exact Hin | exact Hout ] ].
  split.
  - intros Hs. destruct (decide (key ∈ valid_whisper_params)) as [Hk|Hk];
      [ exact Hk | ].
    rewrite (Hout Hk) in Hs. destruct Hs as [v Hv]. discriminate.
  - intros Hk. rewrite (Hin Hk).
    destruct (given !! key) as [v|]; [ eexists; reflexivity | ].
    apply default_settings_keys. exact Hk.
Qed.

Lemma transcribe_sync_count (env : environment) (svc : TranscriptionService)
    (audio_path : string) (settings : gmap string value) :
  let svc' := (_transcribe_sync env svc audio_path settings).1.1 in
  transcription_count svc' = transcription_count svc + 1 /\
  model svc' = model svc /\ model_name svc' = model_name svc /\
  device svc' = device svc /\ is_loading svc' = is_loading svc.
Proof.
  unfold _transcribe_sync.
  destruct (on_progress svc) as [[|e]|], (model svc) as [m|] eqn:Hm;
    try destruct (transcribe env m audio_path (filtered_settings settings));
    cbn [fst set_transcribing transcription_count model model_name device is_loading];
    repeat split; first [ reflexivity | exact Hm ].
Qed.

Lemma transcribe_audio_async_state
    (env : environment) (svc : TranscriptionService) (audio_path : string)
    (settings : option (gmap string value)) :
  let svc' := (transcribe_audio_async env svc audio_path settings).1.1 in
  transcription_count svc' =
    transcription_count svc +
    (if is_transcribing svc then 0
     else match model svc with Some _ => 1 | None => 0 end) /\
  model svc' = model svc /\ model_name svc' = model_name svc /\
  device svc' = device svc /\ is_loading svc' = is_loading svc.
Proof.
  unfold transcribe_audio_async.
  destruct (is_transcribing svc); [ cbn [fst]; repeat split; lia | ].
  destruct (model svc) as [m|] eqn:Hm; [ | cbn [fst]; rewrite Hm; repeat split; lia ].
  set (merged := default ∅ settings ∪ default_settings).
  set (svc1 := set_transcribing svc true zero (transcription_count svc)).
  pose proof (transcribe_sync_count env svc1 audio_path merged) as Hk.
  destruct (_transcribe_sync env svc1 audio_path merged) as [[svc2 result] effects].
  cbn [fst] in Hk. destruct Hk as (Hc & Hmod & Hn & Hd & Hl).
  assert (Hgoal : transcription_count svc2 = transcription_count svc + 1 /\
            model svc2 = Some m /\ model_name svc2 = model_name svc /\
            device svc2 = device svc /\ is_loading svc2 = is_loading svc).
  { rewrite Hc, Hmod, Hn, Hd, Hl. subst svc1. cbn. rewrite Hm.
    repeat split; reflexivity. }
  destruct result as [text|e].
  - destruct (on_complete (set_transcribing svc2 true one (transcription_count svc2)))
      as [[|e1]|]; cbn [fst]; try exact Hgoal.
    destruct (report_error _ e1). cbn [fst]. exact Hgoal.
  - destruct (report_error svc2 e). cbn [fst]. exact Hgoal.
Qed.

(** X20. The counter of transcriptions goes up by exactly one for every
    call of [transcribe_audio_sync] that gets past the entry checks,
    whether the model returns a text or raises and whatever the callbacks
    do, and stays as it is for a rejected call.  No call changes the loaded
    model, its name, the device or the loading flag.  The checks of the
    blocking method repeat those of the asynchronous one: both methods end
    in the same service, result and effects. *)
Theorem transcribe_audio_sync_counts_once
    (env : environment) (svc : TranscriptionService) (audio_path : string)
    (settings : option (gmap string value)) :
  let svc' := (transcribe_audio_sync env svc audio_path settings).1.1 in
  transcribe_audio_sync env svc audio_path settings =
    transcribe_audio_async env svc audio_path settings /\
  transcription_count svc' =
    transcription_count svc +
    (if is_transcribing svc then 0
     else match model svc with Some _ => 1 | None => 0 end) /\
  model svc' = model svc /\ model_name svc' = model_name svc /\
  device svc' = device svc /\ is_loading svc' = is_loading svc.
Proof.
  assert (Hsame : transcribe_audio_sync env svc audio_path settings =
                  transcribe_audio_async env svc audio_path settings).
  { unfold transcribe_audio_sync, transcribe_audio_async.
    destruct (is_transcribing svc); [ reflexivity | ].
    destruct (model svc); reflexivity. }
  cbn zeta. rewrite Hsame. split; [ reflexivity | ].
  apply transcribe_audio_async_state.
Qed.

End ServiceFacts.

Section ServiceCases.
Import Float64 PyValue Transcription Samples.
Local Open Scope Z_scope.

End ServiceCases.

(* ===================================================================== *)
(** ** Samples and bytes *)
(* ===================================================================== *)

Section SampleBytes.
Import Float64 Audio.
Local Open Scope Z_scope.

(** X22. The saved file holds the recording: read as [int16] samples the
    way the capture loop reads its buffers, the PCM data of the WAV file
    [_save_audio_data] writes are the samples of the buffer, one for one.  *)
Theorem wav_file_holds_the_samples (samples : list Z) :
  Forall int16 samples ->
  frombuffer (pcm_data (wav_file samples)) = Some samples /\
  length (wav_file samples) = (44 + 2 * length samples)%nat.
Proof.
  intros Hall. rewrite pcm_data_wav_file. split.
  - apply frombuffer_tobytes. exact Hall.
  - unfold wav_file. rewrite List.length_app, wav_header_length, tobytes_length.
    reflexivity.
Qed.
End SampleBytes.

Section SampleBytesCases.
Import Float64 Audio.
Local Open Scope Z_scope.

Lemma wav_file_holds_the_samples_witness :
  Forall int16 [0; -1; 32767; -32768; 258] /\
  frombuffer (pcm_data (wav_file [0; -1; 32767; -32768; 258]))
    = Some [0; -1; 32767; -32768; 258].
Proof.
  assert (Hall : Forall int16 [0; -1; 32767; -32768; 258])
    by (repeat constructor; unfold int16; lia).
  split; [ exact Hall | ].
  exact (proj1 (wav_file_holds_the_samples _ Hall)).
Defined.
End SampleBytesCases.

(* ===================================================================== *)
(** ** A session under the PyAudio backend *)
(* ===================================================================== *)

Section PyAudioSession.
Import Float64 Audio.
Local Open Scope Z_scope.

(** The thread ends in its first statement, which reads the local
    [device_index] before anything has been assigned to it. *)
Lemma recording_thread_fails (w : pyaudio_world) (rec : AudioRecorder) :
  recording_thread w rec = drop_stream rec false.
Proof. reflexivity. Qed.

(** X23. Under the PyAudio backend nothing is ever recorded: whatever
    the audio interface does and whenever the capture thread gets to run,
    a session of [start_recording] and [stop_recording] on an idle
    recorder ends with an empty buffer, [stop_recording] returns [None]
    and no file is written.  The thread never reaches its capture loop. *)
Theorem pyaudio_session_saves_nothing (when : moment) (env : environment)
    (sw : start_world) (w : pyaudio_world) (fs : files) (rec : AudioRecorder) :
  audio_backend env = PyAudio -> thread_start sw = Returns ->
  is_recording rec = false ->
  let '(rec', fs', path) := pyaudio_session when env sw w fs rec in
  path = None /\ fs' = fs /\ _audio_data rec' = [] /\ is_recording rec' = false.
Proof.
  intros Hb Ht Hr. unfold pyaudio_session, start_recording,
    _start_pyaudio_recording, stop_recording.
  rewrite Hr, Hb, Ht.
  destruct when, (on_recording_start sw) as [[|]|];
    cbn; rewrite ?Hb; cbn; repeat split; reflexivity.
Qed.
End PyAudioSession.

Section PyAudioSessionCases.
Import Float64 Audio Samples.
Local Open Scope Z_scope.

(** The device opens at once and has a second of audio to deliver: the
    session still saves nothing. *)
Lemma pyaudio_session_saves_nothing_witness :
  audio_backend pyaudio_backend = PyAudio /\
  thread_start plain_start = Returns /\
  is_recording idle_recorder = false /\
  (pyaudio_session BeforeTheStop pyaudio_backend plain_start willing_device ∅
     idle_recorder).2 = None /\
  (pyaudio_session BeforeTheStop pyaudio_backend plain_start willing_device ∅
     idle_recorder).1.2 = ∅.
Proof.
  pose proof (pyaudio_session_saves_nothing BeforeTheStop pyaudio_backend
                plain_start willing_device ∅ idle_recorder
                eq_refl eq_refl eq_refl) as H.
  split; [ reflexivity | ]. split; [ reflexivity | ]. split; [ reflexivity | ].
  destruct (pyaudio_session BeforeTheStop pyaudio_backend plain_start
              willing_device ∅ idle_recorder) as [[rec' fs'] path].
  destruct H as (Hp & Hf & _). split; [ exact Hp | exact Hf ].
Defined.
End PyAudioSessionCases.

(* ===================================================================== *)
(** ** Moving and abandoning a recording *)
(* ===================================================================== *)

Section MoveRecording.
Import Float64 Audio.
Local Open Scope Z_scope.


(** X25. A stop callback that raises costs the recording: with a stream
    that stops and a file that can be written, [stop_recording] has
    written the file under the temporary path when [on_recording_stop]
    raises, yet it returns [None] and keeps the path; the recorder is no
    longer recording, so a further [stop_recording] or [cancel_recording]
    does nothing, and the file stays where it is. *)
Theorem stop_recording_callback_raises (env : environment) (unlink : callback)
    (fs : files) (rec : AudioRecorder) (path : string) :
  is_recording rec = true -> current_recording_path rec = Some path ->
  stream_stop env = Returns -> file_write env = Returns ->
  too_short (_audio_data rec) = false ->
  on_recording_stop rec = Some Raises ->
  let '(rec', fs', result) := stop_recording env fs rec in
  result = None /\
  fs' = <[path := wav_file (_audio_data rec)]> fs /\
  current_recording_path rec' = Some path /\
  is_recording rec' = false /\
  stop_recording env fs' rec' = (rec', fs', None) /\
  cancel_recording env unlink fs' rec' = (rec', fs', true).
Proof.
  intros Hr Hp Hs Hw Hlong Hcb.
  assert (Hdata : _audio_data rec <> []).
  { intros He. rewrite He in Hlong. discriminate Hlong. }
  unfold stop_recording. rewrite Hr. cbn [negb].
  assert (Hstop : match audio_backend env, _audio_stream rec, stream_stop env with
                  | SoundDevice, true, Raises => true
                  | _, _, _ => false
                  end = false)
    by (rewrite Hs; destruct (audio_backend env), (_audio_stream rec); reflexivity).
  destruct (audio_backend env) eqn:Hb, (_audio_stream rec) eqn:Hst;
    rewrite ?Hs;
    unfold stopped, _save_audio_data; cbn [_audio_data current_recording_path
      on_recording_stop is_recording];
    rewrite ?Hb;
    destruct (_audio_data rec) as [|s data] eqn:Hd; try contradiction;
    rewrite Hlong, Hp, Hw, Hcb;
    unfold cancel_recording; cbn [is_recording negb];
    repeat split; reflexivity.
Qed.
End MoveRecording.


Section MoveRecordingCases.
Import Float64 Audio Samples.
Local Open Scope Z_scope.

(** 0.6 seconds are written to the file, and the caller gets [None]. *)
Lemma stop_recording_callback_raises_witness :
  is_recording (recorder_with_failing_callback 9600) = true /\
  too_short (_audio_data (recorder_with_failing_callback 9600)) = false /\
  (stop_recording quiet_world ∅ (recorder_with_failing_callback 9600)).2 = None /\
  is_Some ((stop_recording quiet_world ∅ (recorder_with_failing_callback 9600)).1.2
             !! "recording_20240424_120000.wav"%string).
Proof.
  assert (Hlong : too_short (_audio_data (recorder_with_failing_callback 9600)) = false)
    by (vm_compute; reflexivity).
  pose proof (stop_recording_callback_raises quiet_world Returns ∅
                (recorder_with_failing_callback 9600)
                "recording_20240424_120000.wav" eq_refl eq_refl eq_refl eq_refl
                Hlong eq_refl) as H.
  split; [ reflexivity | ]. split; [ exact Hlong | ].
  destruct (stop_recording quiet_world ∅ (recorder_with_failing_callback 9600))
    as [[rec' fs'] result].
  destruct H as (Hres & Hfs & _). split; [ exact Hres | ].
  cbn [fst snd]. rewrite Hfs. unfold files.
  rewrite (lookup_insert_eq (M := gmap string)). eexists. reflexivity.
Defined.
End MoveRecordingCases.
